(** * theone-server: the lazy database handle (class [Db])

    A shallow embedding of the data-access class of theone-server: lazy
    pooled connections, the transaction flag with its cascade through bound
    handles, and the expansion of a [{fragment}separator...] template into
    capped batches.

    - JavaScript values are first-order data; arrays live in a store, so
      that what [_exec] does to an array of its caller is seen by the
      caller.  A string is held as the bytes of its UTF-8 encoding, as the
      string literals of this file are.
    - mysql2, the database and the callbacks of the application are an
      oracle over a world of their own; every call and its answer are
      recorded in a trace.
    - Every [await] of the source is a suspension point of a resumption
      monad.  A call can be run alone to its end, or started and then
      resumed segment by segment among other calls.

    The first part defines the program, the second the vocabulary of the
    properties and the examples, the third proves the properties. *)

From stdpp Require Import gmap strings list fin_maps.
From Stdlib Require Import Ascii DecimalString.

Open Scope string_scope.
Set Warnings "-register-all".

(** ** JavaScript values *)

Abbreviation Addr := nat.

(** Arrays live in a store and are named by their address, so that two
    references to one array see each other's updates.  [VObj] is an object
    that is not an array. *)
Inductive val : Type :=
| VUndef
| VNull
| VBool (b : bool)
| VNum (n : nat)
| VStr (s : string)
| VObj (id : nat)
| VRef (a : Addr).

#[global] Instance val_eq_dec : EqDecision val.
Proof. solve_decision. Defined.

Abbreviation Heap := (gmap Addr (list val)).

(** [Array.isArray(v)] *)
Definition isArray (hp : Heap) (v : val) : bool :=
  match v with
  | VRef a => bool_decide (is_Some (hp !! a))
  | _ => false
  end.

(** The elements of [v] when it is an array. *)
Definition elems (hp : Heap) (v : val) : option (list val) :=
  match v with
  | VRef a => hp !! a
  | _ => None
  end.

(** Truthiness of a value in a condition. *)
Definition truthy (v : val) : bool :=
  match v with
  | VUndef | VNull => false
  | VBool b => b
  | VNum n => negb (Nat.eqb n 0)
  | VStr s => negb (String.eqb s EmptyString)
  | VObj _ | VRef _ => true
  end.

(** ** Strings *)

Module Str.

Definition of_nat (n : nat) : string := NilEmpty.string_of_uint (Nat.to_uint n).

(** [s.replace(/[^?]/g, '').length]: the number of [c] in [s], for [c = "?"]. *)
Fixpoint count (c : ascii) (s : string) : nat :=
  match s with
  | EmptyString => 0
  | String c' s' => (if Ascii.eqb c c' then 1 else 0) + count c s'
  end.

(** [split_at pat s] finds the first occurrence of [pat] in [s] and returns
    what precedes it and what follows it. *)
Fixpoint split_at (pat s : string) : option (string * string) :=
  if String.prefix pat s
  then Some (EmptyString, String.substring (String.length pat) (String.length s) s)
  else match s with
       | EmptyString => None
       | String c s' =>
           match split_at pat s' with
           | Some (b, a) => Some (String c b, a)
           | None => None
           end
       end.

(** The replacement text of [String.prototype.replace] with a string
    pattern: [$$] is a dollar, [$&] the matched text, [$`] what precedes the
    match and [$'] what follows it; there are no captures, so the other
    dollar forms stand for themselves. *)
Fixpoint substitution (before matched after repl : string) : string :=
  match repl with
  | String "$" (String c r as rest) =>
      if Ascii.eqb c "$" then "$" ++ substitution before matched after r
      else if Ascii.eqb c "&" then matched ++ substitution before matched after r
      else if Ascii.eqb c "`" then before ++ substitution before matched after r
      else if Ascii.eqb c "'" then after ++ substitution before matched after r
      else String "$" (substitution before matched after rest)
  | String c r => String c (substitution before matched after r)
  | EmptyString => EmptyString
  end.

(** [s.replace(pat, repl)] for strings [pat] and [repl]: the first
    occurrence only. *)
Definition replace (s pat repl : string) : string :=
  match split_at pat s with
  | Some (b, a) => b ++ substitution b pat a repl ++ a
  | None => s
  end.

(** [s.length] counts the code units of UTF-16: one for a character of one
    to three bytes, two for a character of four bytes.  A byte that
    continues a character counts for nothing. *)
Definition units_of_byte (c : ascii) : nat :=
  let n := nat_of_ascii c in
  if (n <? 128)%nat then 1
  else if (n <? 192)%nat then 0
  else if (n <? 240)%nat then 1
  else 2.

Fixpoint units (s : string) : nat :=
  match s with
  | EmptyString => 0
  | String c s' => units_of_byte c + units s'
  end.

(** [s.slice(0, n)], by whole characters: where the cut falls inside a
    character of two code units, the half that [slice] keeps is left out.
    The result is then shorter than [s], which is all that [_exec] reads
    of it. *)
Fixpoint slice_units (n : nat) (s : string) : string :=
  match s with
  | EmptyString => EmptyString
  | String c s' =>
      let u := units_of_byte c in
      if (u <=? n)%nat then String c (slice_units (n - u) s') else EmptyString
  end.

(** Modelled from the spec: [toUtil.repeatStr] is defined in [./util], which
    is not among the sources; the expansion is "N copies of the fragment
    joined by the separator", built as the fragment followed by
    [repeatStr(separator + fragment, N - 1)], so [repeatStr(s, n)] is [s]
    written [n] times. *)
Fixpoint repeatStr (s : string) (n : nat) : string :=
  match n with
  | 0 => EmptyString
  | S n' => s ++ repeatStr s n'
  end.

(** *** The template expression

    The default expression of [_exec] reads: an opening brace, a group of
    any characters, a closing brace, a second group of any characters, three
    dots.  It is a sequence of literal characters and of greedy groups,
    matched by backtracking: a group takes as many characters as it can, and
    gives them back one at a time while the rest does not match.

    The literal characters of the expression are ASCII, and no byte of a
    longer character is: a group that takes the bytes of a string one at a
    time matches what a group that takes its code units one at a time
    matches. *)
Inductive retok : Type :=
| TChar (c : ascii)
| TAnyStar.

(** [.] matches any character but a line terminator: line feed, carriage
    return, and the line and paragraph separators U+2028 and U+2029, which
    are the bytes 226 128 168 and 226 128 169.  [line_terminator s] tells
    whether [s] starts with one. *)
Definition line_terminator (s : string) : bool :=
  match s with
  | String c s1 =>
      Ascii.eqb c "010" || Ascii.eqb c "013"
      || (Ascii.eqb c "226"
          && match s1 with
             | String c2 (String c3 _) =>
                 Ascii.eqb c2 "128" && (Ascii.eqb c3 "168" || Ascii.eqb c3 "169")
             | _ => false
             end)
  | EmptyString => false
  end.

(** [match_here re s]: the captures and the matched text when [re] matches
    a prefix of [s]. *)
Fixpoint match_here (re : list retok) (s : string) : option (list string * string) :=
  match re with
  | [] => Some ([], EmptyString)
  | TChar c :: re' =>
      match s with
      | String c' s' =>
          if Ascii.eqb c c' then
            match match_here re' s' with
            | Some (caps, m) => Some (caps, String c' m)
            | None => None
            end
          else None
      | EmptyString => None
      end
  | TAnyStar :: re' =>
      (fix star (s : string) : option (list string * string) :=
         let stop :=
           match match_here re' s with
           | Some (caps, m) => Some (EmptyString :: caps, m)
           | None => None
           end in
         match s with
         | String c s' =>
             if line_terminator s then stop
             else match star s' with
                  | Some (g :: caps, m) => Some (String c g :: caps, String c m)
                  | _ => stop
                  end
         | EmptyString => stop
         end) s
  end.

(** [s.match(re)] without the global flag: the leftmost match, as the array
    of the matched text followed by the captures, or nothing. *)
Fixpoint search (re : list retok) (s : string) : option (list string) :=
  match match_here re s with
  | Some (caps, m) => Some (m :: caps)
  | None =>
      match s with
      | EmptyString => None
      | String _ s' => search re s'
      end
  end.

Definition default_regexp : list retok :=
  [TChar "{"; TAnyStar; TChar "}"; TAnyStar; TChar "."; TChar "."; TChar "."].

(** *** The test for a statement that starts, after white space and in any
    case, with INSERT or REPLACE *)

(** The white space [\s] of one byte: tab, line feed, vertical tab, form
    feed, carriage return, space. *)
Definition is_space (c : ascii) : bool :=
  let n := nat_of_ascii c in
  (Nat.leb 9 n && Nat.leb n 13) || Nat.eqb n 32.

(** The white space of two bytes: the no-break space U+00A0. *)
Definition is_space2 (a b : ascii) : bool :=
  Nat.eqb (nat_of_ascii a) 194 && Nat.eqb (nat_of_ascii b) 160.

(** The white space of three bytes: U+1680, U+2000 to U+200A, the line and
    paragraph separators U+2028 and U+2029, U+202F, U+205F, U+3000 and the
    byte order mark U+FEFF. *)
Definition is_space3 (a b c : ascii) : bool :=
  let x := nat_of_ascii a in
  let y := nat_of_ascii b in
  let z := nat_of_ascii c in
  (Nat.eqb x 225 && Nat.eqb y 154 && Nat.eqb z 128)
  || (Nat.eqb x 226 && Nat.eqb y 128
      && ((Nat.leb 128 z && Nat.leb z 138) || Nat.eqb z 168 || Nat.eqb z 169 || Nat.eqb z 175))
  || (Nat.eqb x 226 && Nat.eqb y 129 && Nat.eqb z 159)
  || (Nat.eqb x 227 && Nat.eqb y 128 && Nat.eqb z 128)
  || (Nat.eqb x 239 && Nat.eqb y 187 && Nat.eqb z 191).

Definition upper (c : ascii) : ascii :=
  let n := nat_of_ascii c in
  if Nat.leb 97 n && Nat.leb n 122 then ascii_of_nat (n - 32) else c.

Fixpoint prefix_ci (p s : string) : bool :=
  match p, s with
  | EmptyString, _ => true
  | String a p', String b s' => Ascii.eqb (upper a) (upper b) && prefix_ci p' s'
  | String _ _, EmptyString => false
  end.

(** [^\s*]: the string past its leading white space. *)
Fixpoint skip_spaces (s : string) : string :=
  match s with
  | String a s1 =>
      if is_space a then skip_spaces s1
      else
        match s1 with
        | String b s2 =>
            if is_space2 a b then skip_spaces s2
            else
              match s2 with
              | String c s3 => if is_space3 a b c then skip_spaces s3 else s
              | EmptyString => s
              end
        | EmptyString => s
        end
  | EmptyString => s
  end.

(** [/^\s*(INSERT|REPLACE)/i.test(sql)]; a letter in either case matches,
    and no other character does. *)
Definition insert_or_replace (sql : string) : bool :=
  let s := skip_spaces sql in
  prefix_ci "INSERT" s || prefix_ci "REPLACE" s.

End Str.

(** ** Errors *)

Inductive ErrKind : Type :=
| NameRequired        (* constructor: options.name is not a string *)
| SetTooLate          (* setLazyInit after the first use *)
| SqlIsExecuting      (* a statement is in flight on the handle *)
| NotInTransaction    (* mustInTrans and no transaction *)
| PatternNotFound     (* no template, or not two captures *)
| ParamCount          (* the batch does not divide into groups *)
| MoreThanOneRecord   (* queryOne, executeOne *)
| TypeError           (* a property read on undefined, a missing method *)
| Unbounded           (* a cascade through bound handles that does not end *)
| DriverError.        (* raised by mysql2 or by the lazy-init callback *)

#[global] Instance ErrKind_eq_dec : EqDecision ErrKind.
Proof. solve_decision. Defined.

Record Err : Type := mkErr { ekind : ErrKind; message : string }.

#[global] Instance Err_eq_dec : EqDecision Err.
Proof. solve_decision. Defined.

(** ** The resumption monad of [async] functions

    An [async] function runs without interruption up to its next [await],
    where it hands control back; it is resumed later, in the state that the
    other tasks have left.  [Step] is what such a function is after a
    segment: finished, with an error or a value, or suspended with the rest
    of its body. *)

Section Resumption.
Context {St : Type}.

Inductive Step (A : Type) : Type :=
| Done (r : Err + A)
| Susp (k : St -> St * Step A).
Global Arguments Done {A} r.
Global Arguments Susp {A} k.

Definition Async (A : Type) : Type := St -> St * Step A.

Definition ret {A} (a : A) : Async A := fun st => (st, Done (inr a)).
Definition throw {A} (e : Err) : Async A := fun st => (st, Done (inl e)).
Definition gets {A} (f : St -> A) : Async A := fun st => (st, Done (inr (f st))).
Definition modify (f : St -> St) : Async unit := fun st => (f st, Done (inr tt)).

Fixpoint bind_step {A B} (r : Step A) (f : A -> Async B) : Async B :=
  fun st =>
    match r with
    | Done (inr a) => f a st
    | Done (inl e) => (st, Done (inl e))
    | Susp k => (st, Susp (fun st1 => let (st2, r') := k st1 in bind_step r' f st2))
    end.

Definition bind {A B} (m : Async A) (f : A -> Async B) : Async B :=
  fun st => let (st1, r) := m st in bind_step r f st1.

(** [try { m } catch (e) { handler e }] *)
Fixpoint catch_step {A} (r : Step A) (handler : Err -> Async A) : Async A :=
  fun st =>
    match r with
    | Done (inr a) => (st, Done (inr a))
    | Done (inl e) => handler e st
    | Susp k => (st, Susp (fun st1 => let (st2, r') := k st1 in catch_step r' handler st2))
    end.

Definition try_catch {A} (m : Async A) (handler : Err -> Async A) : Async A :=
  fun st => let (st1, r) := m st in catch_step r handler st1.

(** [try { m } finally { fin }]: [fin] runs on the way out, whichever the
    outcome, which it leaves as it is unless it throws itself. *)
Fixpoint finally_step {A} (r : Step A) (fin : Async unit) : Async A :=
  fun st =>
    match r with
    | Done x => bind fin (fun _ st1 => (st1, Done x)) st
    | Susp k => (st, Susp (fun st1 => let (st2, r') := k st1 in finally_step r' fin st2))
    end.

Definition try_finally {A} (m : Async A) (fin : Async unit) : Async A :=
  fun st => let (st1, r) := m st in finally_step r fin st1.

(** [await p]: the promise [p] is created by running [m] up to its first
    suspension; the awaiting function is resumed with the outcome of [p]
    one turn after [p] has settled, so that it always yields once. *)
Fixpoint settle {A} (r : Step A) : Step A :=
  match r with
  | Done x => Susp (fun st => (st, Done x))
  | Susp k => Susp (fun st => let (st1, r') := k st in (st1, settle r'))
  end.

Definition await {A} (m : Async A) : Async A :=
  fun st => let (st1, r) := m st in (st1, settle r).

(** [for (const x of l) await body(x)] over the elements of [l]. *)
Fixpoint for_of {A} (l : list A) (body : A -> Async unit) : Async unit :=
  match l with
  | [] => ret tt
  | x :: l' => bind (body x) (fun _ => for_of l' body)
  end.

(** One task alone: every suspension is resumed at once, nothing happens
    in between. *)
Fixpoint run_step {A} (r : Step A) (st : St) : St * (Err + A) :=
  match r with
  | Done x => (st, x)
  | Susp k => let (st1, r') := k st in run_step r' st1
  end.

Definition run {A} (m : Async A) (st : St) : St * (Err + A) :=
  let (st1, r) := m st in run_step r st1.

(** The event loop resumes a suspended task; a finished one stays as it
    is. *)
Definition resume {A} (r : Step A) (st : St) : St * Step A :=
  match r with
  | Done x => (st, Done x)
  | Susp k => k st
  end.

Definition finished {A} (r : Step A) : option (Err + A) :=
  match r with
  | Done x => Some x
  | Susp _ => None
  end.
End Resumption.

Arguments Step St A : clear implicits.
Arguments Async St A : clear implicits.

(** Proofs go through the laws of [run], not through its unfolding. *)
Arguments run {St A} m st : simpl never.
Arguments bind {St A B} m f st : simpl never.
Arguments await {St A} m st : simpl never.
Arguments try_catch {St A} m handler st : simpl never.
Arguments try_finally {St A} m fin st : simpl never.

Declare Scope async_scope.
Delimit Scope async_scope with async.
Notation "x <- y ;; z" := (bind y (fun x => z))
  (at level 20, y at level 99, z at level 200, only parsing) : async_scope.
Notation "y ;; z" := (bind y (fun _ => z))
  (at level 100, z at level 200, only parsing, right associativity) : async_scope.
Open Scope async_scope.

(** ** The driver *)

Abbreviation PoolId := nat.
Abbreviation ConnId := nat.
Abbreviation HId := nat.
Abbreviation CbId := nat.

(** The [type] argument of [_exec]: the method of the connection to call. *)
Inductive Mode : Type := TQuery | TExecute.

#[global] Instance Mode_eq_dec : EqDecision Mode.
Proof. solve_decision. Defined.

Abbreviation Row := (list val).

(** The first component of a driver response: the rows of a SELECT, or the
    header of a statement that returns none. *)
Inductive First : Type :=
| Rows (rows : list Row)
| Header (affectedRows : nat).

Record Response : Type := mkResponse { first : First; columns : list string }.

(** The options of a handle, and what is left of them for [createPool]. *)
Record Options : Type := mkOptions {
  name : val;
  database : val;
  mustInTrans : val;
  others : list (string * val)
}.

Record PoolOptions : Type := mkPoolOptions {
  pool_database : val;
  pool_others : list (string * val)
}.

Inductive ConnCmd : Type := BeginTransaction | Commit | Rollback | Release.

Inductive Call : Type :=
| CreatePool (opt : PoolOptions)
| GetConnection (p : PoolId)
| Command (cmd : ConnCmd) (c : ConnId)
| Statement (type : Mode) (c : ConnId) (sql : string) (params : list val)
| LazyInit (cb : CbId) (h : HId)
| PoolEnd (p : PoolId).

Inductive Reply : Type :=
| Failed (e : Err)
| Pool (p : PoolId)
| Conn (c : ConnId)
| Finished
| Responded (r : Response).

(** What the handle asked of the driver and what it was answered, in
    order. *)
Abbreviation Trace := (list (Call * Reply)).

(** mysql2, the database behind it and the lazy-init callbacks of the
    application are an oracle over a world [W] of their own. *)
Record Driver (W : Type) : Type := mkDriver {
  createPool : PoolOptions -> W -> W * (Err + PoolId);
  getConnection : PoolId -> W -> W * (Err + ConnId);
  command : ConnCmd -> ConnId -> W -> W * (Err + unit);
  statement : Mode -> ConnId -> string -> list val -> Heap -> W -> W * (Err + Response);
  lazyInit : CbId -> HId -> W -> W * (Err + unit);
  poolEnd : PoolId -> W -> W * (Err + unit)
}.
Arguments createPool {W} _ _ _.
Arguments getConnection {W} _ _ _.
Arguments command {W} _ _ _ _.
Arguments statement {W} _ _ _ _ _ _ _.
Arguments lazyInit {W} _ _ _ _.
Arguments poolEnd {W} _ _ _.

(** ** The handle and the state of the process *)

(** The fields of a [Db] object, under the names of their symbols.
    [_currentSql] is [None] while it is undefined or null. *)
Record Db : Type := mkDb {
  _options : Options;
  _conn : option ConnId;
  _begin : bool;
  _lazyInit : option CbId;
  _currentSql : option string;
  _bind : list HId
}.

Definition with_conn (c : option ConnId) (d : Db) : Db :=
  mkDb (_options d) c (_begin d) (_lazyInit d) (_currentSql d) (_bind d).
Definition with_begin (b : bool) (d : Db) : Db :=
  mkDb (_options d) (_conn d) b (_lazyInit d) (_currentSql d) (_bind d).
Definition with_lazyInit (cb : option CbId) (d : Db) : Db :=
  mkDb (_options d) (_conn d) (_begin d) cb (_currentSql d) (_bind d).
Definition with_currentSql (s : option string) (d : Db) : Db :=
  mkDb (_options d) (_conn d) (_begin d) (_lazyInit d) s (_bind d).
Definition with_bind (l : list HId) (d : Db) : Db :=
  mkDb (_options d) (_conn d) (_begin d) (_lazyInit d) (_currentSql d) l.

(** The object [dbPools]: its own properties, a pool under each name, in
    the order in which [for (let name in dbPools)] visits them.  That order
    is the one of the keys of an ordinary object: the names that are array
    indices come first, in ascending order, and the other names follow in
    the order in which they were created. *)
Record Pools : Type := mkPools { entries : list (string * PoolId) }.

(** A name is an array index when it is the decimal writing, without
    leading zero, of a number below [2^32 - 1]. *)
Definition array_index (k : string) : option N :=
  match NilEmpty.uint_of_string k with
  | Some u =>
      let n := N.of_uint u in
      if String.eqb (NilEmpty.string_of_uint (N.to_uint n)) k && (n <? 4294967295)%N
      then Some n
      else None
  | None => None
  end.

(** A new name [k] comes before the name [k']. *)
Definition precedes (k k' : string) : bool :=
  match array_index k, array_index k' with
  | Some n, Some n' => (n <? n')%N
  | Some _, None => true
  | None, _ => false
  end.

(** [dbPools[k]], for a property of the object itself. *)
Fixpoint get (k : string) (l : list (string * PoolId)) : option PoolId :=
  match l with
  | [] => None
  | (k', p) :: l' => if String.eqb k k' then Some p else get k l'
  end.

(** [dbPools[k] = p]: the property keeps its place when it is there, and is
    created in its place otherwise. *)
Fixpoint put (k : string) (p : PoolId) (l : list (string * PoolId)) : list (string * PoolId) :=
  match l with
  | [] => [(k, p)]
  | (k', p') :: l' =>
      if String.eqb k k' then (k, p) :: l'
      else if precedes k k' then (k, p) :: l
      else (k', p') :: put k p l'
  end.

#[global] Instance pools_lookup : Lookup string PoolId Pools := fun k r => get k (entries r).
#[global] Instance pools_insert : Insert string PoolId Pools :=
  fun k p r => mkPools (put k p (entries r)).
#[global] Instance pools_empty : Empty Pools := mkPools [].
#[global] Instance pools_singleton : SingletonM string PoolId Pools :=
  fun k p => mkPools [(k, p)].
(** The properties in the order of [for ... in]. *)
#[global] Instance pools_fold : MapFold string PoolId Pools :=
  fun B f b r => foldr (fun kp => f kp.1 kp.2) b (entries r).

Record State (W : Type) : Type := mkState {
  world : W;
  trace : Trace;
  dbPools : Pools;
  handles : gmap HId Db;
  heap : Heap
}.
Arguments mkState {W} _ _ _ _ _.
Arguments world {W} _.
Arguments trace {W} _.
Arguments dbPools {W} _.
Arguments handles {W} _.
Arguments heap {W} _.

Definition with_dbPools {W} (f : Pools -> Pools) (st : State W)
  : State W :=
  mkState (world st) (trace st) (f (dbPools st)) (handles st) (heap st).
Definition with_handles {W} (f : gmap HId Db -> gmap HId Db) (st : State W) : State W :=
  mkState (world st) (trace st) (dbPools st) (f (handles st)) (heap st).
Definition with_heap {W} (f : Heap -> Heap) (st : State W) : State W :=
  mkState (world st) (trace st) (dbPools st) (handles st) (f (heap st)).

(** A driver call: the world moves, the call and its answer are recorded. *)
Definition answered {W} (st : State W) (w : W) (c : Call) (r : Reply) : State W :=
  mkState w (trace st ++ [(c, r)]) (dbPools st) (handles st) (heap st).

Definition reply_of {A} (show : A -> Reply) (r : Err + A) : Reply :=
  match r with
  | inl e => Failed e
  | inr a => show a
  end.

(** The [summary] of the failure report: a copy of the parameter array, or
    a piece of the parameter when it is still a lone string. *)
Inductive Summary : Type :=
| SArray (l : list val)
| SString (s : string).

(** The per-call options of [_exec]; [regexp] stands for the expression by
    its effect under [String.prototype.match], the array of the matched text
    and the captures. *)
Record ExecOptions : Type := mkExecOptions {
  fields : bool;
  regexp : option (string -> option (list string));
  maxRow : option nat
}.

Definition no_options : ExecOptions := mkExecOptions false None None.

(** What [_exec] returns: the first component of the response, the whole
    response when [fields] is set, or the results of the batches. *)
Inductive Result : Type :=
| RFirst (r : First)
| RResponse (r : Response)
| RBatches (results : list First).

(** What [queryOne] returns: [rt[0]]. *)
Inductive One : Type :=
| OUndefined
| ORow (r : Row)
| OFirst (r : First).

(** ** Pure parts of [_exec] *)

(** [params.findIndex(p => Array.isArray(p))] *)
Fixpoint findIndex (f : val -> bool) (l : list val) : option nat :=
  match l with
  | [] => None
  | x :: l' => if f x then Some 0 else S <$> findIndex f l'
  end.

(** [a / b] with [Number.isInteger] in view: the quotient when it is a whole
    number, nothing when it is a fraction, infinite or not a number. *)
Definition whole_quotient (a b : nat) : option nat :=
  if (b =? 0)%nat then None
  else if (a mod b =? 0)%nat then Some (a / b) else None.

(** [is2d ? data.length : data.length / placeNum] *)
Definition patternNum_of (hp : Heap) (placeNum : nat) (data : list val) : option nat :=
  let is2d := match data with d0 :: _ => isArray hp d0 | [] => false end in
  if is2d then Some (length data) else whole_quotient (length data) placeNum.

(** [patternNum > 0 && Number.isInteger(patternNum)] *)
Definition positive_integer (n : option nat) : bool :=
  match n with
  | Some k => (0 <? k)%nat
  | None => false
  end.

(** [l.slice(from, to)] and [l.slice(from)] *)
Definition slice {A} (l : list A) (from to : nat) : list A := take (to - from) (drop from l).

(** The arguments of [concat]: an array contributes its elements, another
    value itself. *)
Definition spread (hp : Heap) (args : list val) : list val :=
  flat_map (fun v => match elems hp v with Some l => l | None => [v] end) args.

(** [sql.replace(pattern[0], pattern[1] + repeatStr(pattern[2] + pattern[1], k - 1))] *)
Definition realSql_of (sql p0 p1 p2 : string) (k : nat) : string :=
  Str.replace sql p0 (p1 ++ Str.repeatStr (p2 ++ p1) (k - 1)).

Definition items_note (n : nat) : string := "... " ++ Str.of_nat n ++ " items ...".

Definition executing (cur : option string) : option string :=
  match cur with
  | Some s => if String.eqb s EmptyString then None else Some s
  | None => None
  end.

(** The property key that a value turns into; the constructor lets only
    strings through, the other cases follow [ToString] for the simple
    values. *)
Definition key_of (v : val) : string :=
  match v with
  | VStr s => s
  | VUndef => "undefined"
  | VNull => "null"
  | VBool true => "true"
  | VBool false => "false"
  | VNum n => Str.of_nat n
  | VObj _ | VRef _ => "[object Object]"
  end.

(** [dbPools[name] = pool] on an object that has no property of its own
    under [name]: the object gets one, in every case but one.  At the name
    [__proto__] the assignment reaches the setter of [Object.prototype]: the
    pool becomes the prototype of the object, which gets no property of its
    own, so that [hasOwnPropertySafe] does not find the pool afterwards.
    The object is kept by its own properties; what it would inherit from
    such a prototype lies with the driver and is not kept. *)
Definition assigned (n : string) (p : PoolId) (pools : Pools) : Pools :=
  if String.eqb n "__proto__" then pools else <[n := p]> pools.

(** The prototype that this assignment installs, if it does. *)
Definition installed (n : string) (p : PoolId) : option PoolId :=
  if String.eqb n "__proto__" then Some p else None.

(** [dbPools[name]] right after: the property of the object, or the
    prototype just installed. *)
Definition property (n : string) (proto : option PoolId) (pools : Pools) : option PoolId :=
  match pools !! n with
  | Some p => Some p
  | None => proto
  end.

(** [deepCopy(options)] without [name] and [mustInTrans]. *)
Definition pool_options (o : Options) : PoolOptions :=
  mkPoolOptions (database o) (others o).

(** ** [constructor(options)] *)
Definition constructor (options : Options) : Err + Db :=
  match name options with
  | VStr _ => inr (mkDb options None false None None [])
  | _ => inl (mkErr NameRequired
      "必须在 options 中指定 name 属性, 且相同 name 的连接都使用第一个该 name 的 options")
  end.

(** ** The methods of [Db] *)

Section Class.
Context {W : Type}.
Variable drv : Driver W.
(** [JSON.stringify(summary)] *)
Variable JSON_stringify : Heap -> Summary -> string.

Abbreviation M := (Async (State W)).

Definition type_error {A} (msg : string) : M A := throw (mkErr TypeError msg).

(** The object behind [this]. *)
Definition this (h : HId) : M Db :=
  hs <- gets handles ;;
  match hs !! h with
  | Some d => ret d
  | None => type_error "not a Db"
  end.

Definition update (h : HId) (f : Db -> Db) : M unit :=
  modify (with_handles (alter f h)).

(** A call of the driver: it is started here, and its promise is what the
    caller awaits. *)
Definition ask {A} (c : Call) (f : W -> W * (Err + A)) (show : A -> Reply) : M A :=
  fun st => let (w, r) := f (world st) in (answered st w c (reply_of show r), Done r).

Definition mysql_createPool (opt : PoolOptions) : M PoolId :=
  ask (CreatePool opt) (createPool drv opt) Pool.
Definition pool_getConnection (p : PoolId) : M ConnId :=
  ask (GetConnection p) (getConnection drv p) Conn.
Definition conn_command (cmd : ConnCmd) (c : ConnId) : M unit :=
  ask (Command cmd c) (command drv cmd c) (fun _ => Finished).
Definition conn_statement (type : Mode) (c : ConnId) (sql : string) (params : list val)
  : M Response :=
  hp <- gets heap ;;
  ask (Statement type c sql params) (statement drv type c sql params hp) Responded.
Definition call_lazyInit (cb : CbId) (h : HId) : M unit :=
  ask (LazyInit cb h) (lazyInit drv cb h) (fun _ => Finished).
Definition pool_end (p : PoolId) : M unit :=
  ask (PoolEnd p) (poolEnd drv p) (fun _ => Finished).

(** [this[_conn].m(...)]: reading a method of [undefined] throws. *)
Definition the_conn (h : HId) : M ConnId :=
  d <- this h ;;
  match _conn d with
  | Some c => ret c
  | None => type_error "Cannot read properties of undefined"
  end.

(** [new Db(options)] at a fresh identity. *)
Definition new_Db (options : Options) : M HId :=
  match constructor options with
  | inl e => throw e
  | inr d =>
      hs <- gets handles ;;
      let h := fresh (dom hs) in
      modify (with_handles <[h := d]>) ;;
      ret h
  end.

Definition setLazyInit (h : HId) (cb : CbId) : M unit :=
  d <- this h ;;
  if bool_decide (is_Some (_lazyInit d)) || bool_decide (is_Some (_conn d))
  then throw (mkErr SetTooLate "Set too late, init has been completed")
  else update h (with_lazyInit (Some cb)).

Definition isInit (h : HId) : M bool :=
  d <- this h ;; ret (bool_decide (is_Some (_conn d))).

Definition isBegin (h : HId) : M bool :=
  d <- this h ;; ret (_begin d).

(** [_init()].  [dbPools] is the object by its own properties.  The pool
    is read back from the object right after the assignment: at the name
    [__proto__] it is the prototype that the assignment has installed,
    [proto] below. *)
Definition _init (h : HId) : M unit :=
  d <- this h ;;
  match _conn d with
  | Some _ => ret tt
  | None =>
      let n := key_of (name (_options d)) in
      pools <- gets dbPools ;;
      proto <- match pools !! n with
               | Some _ => ret None
               | None =>
                   let opt := pool_options (_options d) in
                   p <- await (mysql_createPool opt) ;;
                   modify (with_dbPools (assigned n p)) ;;
                   ret (installed n p)
               end ;;
      pools <- gets dbPools ;;
      match property n proto pools with
      | None => type_error "Cannot read properties of undefined"
      | Some p =>
          c <- await (pool_getConnection p) ;;
          update h (with_conn (Some c)) ;;
          d <- this h ;;
          (if _begin d then c <- the_conn h ;; await (conn_command BeginTransaction c)
           else ret tt) ;;
          d <- this h ;;
          match _lazyInit d with
          | Some cb => await (call_lazyInit cb h)
          | None => ret tt
          end
      end
  end.

(** The variable [params] of [_exec]: the array or lone value of the
    caller, or an array made by [_exec] itself (the default [[]], the
    wrapping [[params]]). *)
Inductive Params : Type :=
| Caller (v : val)
| Fresh (l : list val).

Definition as_array (hp : Heap) (p : Params) : option (list val) :=
  match p with
  | Caller v => elems hp v
  | Fresh l => Some l
  end.

(** [params = []] by default *)
Definition default_params (arg : val) : Params :=
  match arg with
  | VUndef => Fresh []
  | _ => Caller arg
  end.

(** [if (params !== undefined && !Array.isArray(params)) params = [params]] *)
Definition normalize (hp : Heap) (p : Params) : Params :=
  match p with
  | Caller v => if isArray hp v then p else Fresh [v]
  | Fresh _ => p
  end.

(** [if (Array.isArray(d) && d.length > 5) d.splice(5, d.length - 5, note)] *)
Definition cap_nested (d : val) : M unit :=
  hp <- gets heap ;;
  match d with
  | VRef a =>
      match hp !! a with
      | Some l =>
          if (5 <? length l)%nat
          then modify (with_heap <[a := (take 5 l ++ [VStr (items_note (length l - 5))])%list]>)
          else ret tt
      | None => ret tt
      end
  | _ => ret tt
  end.

(** The [catch] block of [_exec]. *)
Definition report {A} (e : Err) (sql : string) (params : Params) : M A :=
  hp <- gets heap ;;
  match as_array hp params with
  | Some ps =>
      let summary := take 50 ps in
      let summary :=
        if (length summary <? length ps)%nat
        then (summary ++ [VStr (items_note (length ps - length summary))])%list
        else summary in
      for_of summary cap_nested ;;
      hp <- gets heap ;;
      throw (mkErr (ekind e)
               (message e ++ "  sql:" ++ sql ++ "  params:" ++ JSON_stringify hp (SArray summary)))
  | None =>
      match params with
      | Caller (VStr s) =>
          let summary := Str.slice_units 50 s in
          if (Str.units summary <? Str.units s)%nat
          then type_error "summary.push is not a function"
          else throw (mkErr (ekind e)
                 (message e ++ "  sql:" ++ sql ++ "  params:"
                  ++ JSON_stringify hp (SString summary)))
      | _ => type_error "params.slice is not a function"
      end
  end.

Definition is2d_of (hp : Heap) (data : list val) : bool :=
  match data with
  | d0 :: _ => isArray hp d0
  | [] => false
  end.

(** [this[_conn][type](sql, params)] *)
Definition conn_type (h : HId) (type : Mode) (sql : string) (params : list val) : M Response :=
  c <- the_conn h ;; conn_statement type c sql params.

(** The loop over the full batches:
    [for (let i = 0; i < n; i++) { ... results.push(rt[0]) }], with [k]
    rounds to go from round [i]. *)
Fixpoint batches (h : HId) (type : Mode) (realSql : string) (leftParams rightParams : list val)
    (data : val) (dataNum : nat) (k i : nat) (results : list First) : M (list First) :=
  match k with
  | 0 => ret results
  | S k' =>
      hp <- gets heap ;;
      match elems hp data with
      | None => type_error "data.slice is not a function"
      | Some ds =>
          let allParams :=
            (leftParams ++ spread hp (slice ds (i * dataNum) ((i + 1) * dataNum))
             ++ rightParams)%list in
          rt <- await (conn_type h type realSql allParams) ;;
          batches h type realSql leftParams rightParams data dataNum k' (S i)
            (results ++ [first rt])%list
      end
  end.

(** The body of the [try] block of [_exec] from the parameters on. *)
Definition statement_of (h : HId) (type : Mode) (sql : string) (params : Params)
    (options : ExecOptions) : M Result :=
  hp <- gets heap ;;
  match as_array hp params with
  | None => type_error "params.findIndex is not a function"
  | Some ps =>
      match findIndex (isArray hp) ps with
      | None =>
          rt <- await (conn_type h type sql ps) ;;
          ret (if fields options then RResponse rt else RFirst (first rt))
      | Some patternIndex =>
          match default (Str.search Str.default_regexp) (regexp options) sql with
          | Some [p0; p1; p2] =>
              let data := default VUndef (ps !! patternIndex) in
              let ds := default [] (elems hp data) in
              let placeNum := Str.count "?" p0 in
              let is2d := is2d_of hp ds in
              let patternNum := patternNum_of hp placeNum ds in
              if negb (positive_integer patternNum)
              then throw (mkErr ParamCount "pattern 参数个数不匹配")
              else
                let patternNum := default 0 patternNum in
                let leftParams := take patternIndex ps in
                let rightParams := drop (patternIndex + 1) ps in
                if negb (bool_decide (is_Some (maxRow options))) && negb (Str.insert_or_replace sql)
                then
                  let realSql := realSql_of sql p0 p1 p2 patternNum in
                  let allParams := (leftParams ++ spread hp ds ++ rightParams)%list in
                  rt <- await (conn_type h type realSql allParams) ;;
                  ret (if fields options then RResponse rt else RFirst (first rt))
                else
                  let maxRow := default 1000 (maxRow options) in
                  let maxRow := if (maxRow =? 0)%nat then patternNum else maxRow in
                  let n := patternNum / maxRow in
                  let dataNum := if is2d then maxRow else maxRow * placeNum in
                  let realSql := realSql_of sql p0 p1 p2 maxRow in
                  results <- batches h type realSql leftParams rightParams data dataNum n 0 [] ;;
                  let rest := patternNum - maxRow * n in
                  if (0 <? rest)%nat
                  then
                    let realSql := realSql_of sql p0 p1 p2 rest in
                    hp <- gets heap ;;
                    let ds := default [] (elems hp data) in
                    let allParams :=
                      (leftParams
                       ++ spread hp (drop (if is2d then n * maxRow else n * maxRow * placeNum) ds)
                       ++ rightParams)%list in
                    rt <- await (conn_type h (if (10 <? rest)%nat then TQuery else type)
                                   realSql allParams) ;;
                    ret (RBatches (results ++ [first rt])%list)
                  else ret (RBatches results)
          | _ => throw (mkErr PatternNotFound "未找到正确的 pattern 字符串或连接符")
          end
      end
  end.

(** [_exec(type, sql, params = [], options = {})].  The two guards stand
    before the [try]; the [catch] block sees [params] as it is when the
    failure occurs, the argument while [_init] runs and the array
    afterwards, and rethrows in both cases. *)
Definition _exec (h : HId) (type : Mode) (sql : string) (arg : val) (options : ExecOptions)
  : M Result :=
  d <- this h ;;
  match executing (_currentSql d) with
  | Some cur => throw (mkErr SqlIsExecuting ("Sql is executing: " ++ cur))
  | None =>
      if negb (_begin d) && truthy (mustInTrans (_options d))
      then throw (mkErr NotInTransaction ("Not executed in a transaction: " ++ sql))
      else
        let params := default_params arg in
        try_finally
          (try_catch
             (d <- this h ;;
              match _conn d with
              | Some _ => ret tt
              | None => await (_init h)
              end)
             (fun e => report e sql params) ;;
           update h (with_currentSql (Some sql)) ;;
           hp <- gets heap ;;
           let params := normalize hp params in
           try_catch (statement_of h type sql params options)
             (fun e => report e sql params))
          (update h (with_currentSql None))
  end.

Definition query (h : HId) (sql : string) (params : val) (options : ExecOptions) : M Result :=
  _exec h TQuery sql params options.

Definition execute (h : HId) (sql : string) (params : val) (options : ExecOptions) : M Result :=
  _exec h TExecute sql params options.

(** [if (rt.length > 1) throw ...; return rt[0]] on what [_exec] returns
    without options. *)
Definition one_of (rt : Result) : Err + One :=
  match rt with
  | RFirst (Rows rows) =>
      if (1 <? length rows)%nat then inl (mkErr MoreThanOneRecord "More than one record")
      else inr (match rows with r :: _ => ORow r | [] => OUndefined end)
  | RFirst (Header _) => inr OUndefined
  | RResponse _ => inl (mkErr MoreThanOneRecord "More than one record")
  | RBatches results =>
      if (1 <? length results)%nat then inl (mkErr MoreThanOneRecord "More than one record")
      else inr (match results with r :: _ => OFirst r | [] => OUndefined end)
  end.

Definition queryOne (h : HId) (sql : string) (params : val) : M One :=
  rt <- await (query h sql params no_options) ;;
  match one_of rt with inl e => throw e | inr r => ret r end.

Definition executeOne (h : HId) (sql : string) (params : val) : M One :=
  rt <- await (execute h sql params no_options) ;;
  match one_of rt with inl e => throw e | inr r => ret r end.

(** *** Transactions

    [beginTransaction], [commit] and [rollback] call themselves on every
    bound handle.  [depth] bounds the nesting of these calls: where the
    bindings form a cycle the calls of the source never come to an end,
    which is the outcome [Unbounded] here. *)

Definition unbounded {A} : M A := throw (mkErr Unbounded "bound handles form a cycle").

Fixpoint beginTransaction (depth : nat) (h : HId) : M unit :=
  match depth with
  | 0 => unbounded
  | S depth' =>
      d <- this h ;;
      (match _conn d with
       | Some c => if _begin d then ret tt else await (conn_command BeginTransaction c)
       | None => ret tt
       end) ;;
      update h (with_begin true) ;;
      d <- this h ;;
      for_of (_bind d) (fun db => await (beginTransaction depth' db))
  end.

(** [bind(db)] *)
Definition bind_db (depth : nat) (h db : HId) : M bool :=
  d <- this h ;;
  if bool_decide (db ∈ _bind d) then ret false
  else
    update h (with_bind (_bind d ++ [db])%list) ;;
    d <- this h ;;
    other <- this db ;;
    (if _begin d && negb (_begin other) then await (beginTransaction depth db) else ret tt) ;;
    ret true.

(** [unbind(db)]: [splice] removes the first occurrence. *)
Fixpoint remove_first (db : HId) (l : list HId) : list HId :=
  match l with
  | [] => []
  | x :: l' => if bool_decide (x = db) then l' else x :: remove_first db l'
  end.

Definition unbind (h db : HId) : M bool :=
  d <- this h ;;
  if bool_decide (db ∈ _bind d)
  then update h (with_bind (remove_first db (_bind d))) ;; ret true
  else ret false.

(** [commit(keepTrans = false, reinit = true)] *)
Fixpoint commit (depth : nat) (h : HId) (keepTrans reinit : bool) : M unit :=
  match depth with
  | 0 => unbounded
  | S depth' =>
      d <- this h ;;
      match executing (_currentSql d) with
      | Some cur => throw (mkErr SqlIsExecuting ("Sql is executing: " ++ cur))
      | None =>
          for_of (_bind d) (fun db => await (commit depth' db keepTrans reinit)) ;;
          d <- this h ;;
          (match _conn d with
           | Some c => if _begin d then await (conn_command Commit c) else ret tt
           | None => ret tt
           end) ;;
          if keepTrans then
            c <- the_conn h ;;
            await (conn_command BeginTransaction c) ;;
            d <- this h ;;
            match _lazyInit d with
            | Some cb => if reinit then await (call_lazyInit cb h) else ret tt
            | None => ret tt
            end
          else update h (with_begin false)
      end
  end.

Fixpoint rollback (depth : nat) (h : HId) : M unit :=
  match depth with
  | 0 => unbounded
  | S depth' =>
      d <- this h ;;
      for_of (_bind d) (fun db => await (rollback depth' db)) ;;
      d <- this h ;;
      (match _conn d with
       | Some c => if _begin d then await (conn_command Rollback c) else ret tt
       | None => ret tt
       end) ;;
      update h (with_begin false)
  end.

Definition release (depth : nat) (h : HId) : M unit :=
  await (rollback depth h) ;;
  d <- this h ;;
  match _conn d with
  | Some c =>
      await (conn_command Release c) ;;
      update h (with_conn None)
  | None => ret tt
  end.

(** [transaction(cb)]; the callback of the application is a task of its
    own. *)
Definition transaction {A} (depth : nat) (h : HId) (cb : HId -> M A) : M A :=
  try_finally
    (try_catch
       (await (beginTransaction depth h) ;;
        rt <- await (cb h) ;;
        await (commit depth h false true) ;;
        ret rt)
       (fun e => await (rollback depth h) ;; throw e))
    (await (release depth h)).

(** [static transaction(cb, options)] *)
Definition static_transaction {A} (depth : nat) (cb : HId -> M A) (options : Options) : M A :=
  db <- new_Db options ;; await (transaction depth db cb).

(** [static safeCall(cb, options, mustInTrans)]; no third argument is
    [None], and a given one counts by its truth. *)
Definition safeCall {A} (depth : nat) (cb : HId -> M A) (options : Options)
    (must : option bool) : M A :=
  let options :=
    match must with
    | Some b => mkOptions (name options) (database options) (VBool b) (others options)
    | None => options
    end in
  db <- new_Db options ;;
  try_finally (await (cb db)) (await (release depth db)).

(** [static close()]: the pools are ended one after the other, in the order
    of their names in the object, which is replaced by an empty one once
    all have ended. *)
Definition close : M unit :=
  pools <- gets dbPools ;;
  for_of (map_to_list pools) (fun np => await (pool_end np.2)) ;;
  modify (with_dbPools (fun _ => ∅)).
End Class.

Arguments this {W} h st : simpl never.
Arguments update {W} h f st : simpl never.
Arguments ask {W A} c f show st : simpl never.
Arguments the_conn {W} h st : simpl never.
Arguments conn_type {W} drv h type sql params st : simpl never.
Arguments report {W} JSON_stringify {A} e sql params st : simpl never.
Arguments statement_of {W} drv h type sql params options st : simpl never.
Arguments _init {W} drv h st : simpl never.
Arguments _exec {W} drv JSON_stringify h type sql arg options st : simpl never.

(** * The vocabulary of the properties *)

(** ** Outcomes of a task run alone *)

Section Outcomes.
Context {St : Type}.

Definition then_run {A B} (x : St * (Err + A)) (f : A -> St -> St * (Err + B))
  : St * (Err + B) :=
  match x with
  | (st, inr a) => f a st
  | (st, inl e) => (st, inl e)
  end.

Definition or_handle {A} (x : St * (Err + A)) (f : Err -> St -> St * (Err + A))
  : St * (Err + A) :=
  match x with
  | (st, inl e) => f e st
  | (st, inr a) => (st, inr a)
  end.

Definition and_finally {A} (x : St * (Err + A)) (fin : St -> St * (Err + unit))
  : St * (Err + A) :=
  let (st, r) := x in
  match fin st with
  | (st1, inl e) => (st1, inl e)
  | (st1, inr _) => (st1, r)
  end.
End Outcomes.

(** [keeps R m]: run alone from any state, [m] ends in a state that [R]
    relates to the one it started from. *)
Definition keeps {St A} (R : St -> St -> Prop) (m : Async St A) : Prop :=
  forall st, R st (run m st).1.

(** ** Several tasks *)

(** [suspends m st st1]: called in [st], [m] runs up to an [await] and
    leaves the state [st1] to the other tasks. *)
Definition suspends {St A} (m : Async St A) (st st1 : St) : Prop :=
  exists k, m st = (st1, Susp k).

(** A call runs its first segment at once.  The event loop then resumes the
    suspended tasks in turn, each for one segment, until all have
    finished. *)
Section EventLoop.
Context {St A : Type}.

Fixpoint turn (tasks : list (Step St A)) (st : St) : St * list (Step St A) :=
  match tasks with
  | [] => (st, [])
  | t :: ts =>
      let (st1, t') := resume t st in
      let (st2, ts') := turn ts st1 in
      (st2, t' :: ts')
  end.

Fixpoint event_loop (turns : nat) (tasks : list (Step St A)) (st : St)
  : St * list (Step St A) :=
  match turns with
  | 0 => (st, tasks)
  | S turns' => let (st1, tasks') := turn tasks st in event_loop turns' tasks' st1
  end.

(** Two calls made one after the other without awaiting the first, as in
    [Promise.all([m1, m2])], and then left to the event loop. *)
Definition both (turns : nat) (m1 m2 : Async St A) (st : St) : St * list (Step St A) :=
  let (st1, t1) := m1 st in
  let (st2, t2) := m2 st1 in
  event_loop turns [t1; t2] st2.
End EventLoop.

(** ** The constructor *)

Definition is_string (v : val) : bool :=
  match v with
  | VStr _ => true
  | _ => false
  end.

(** ** The guards and the [catch] block of [_exec] *)

(** The two guards of [_exec] let the call through. *)
Definition guards_pass (d : Db) : Prop :=
  executing (_currentSql d) = None
  /\ negb (_begin d) && truthy (mustInTrans (_options d)) = false.

(** The store is left as it was. *)
Definition same_heap {W} (st st' : State W) : Prop := heap st' = heap st.

(** The effect of [cap_nested] and of the whole loop of the [catch] block on
    the store, and the [summary] of a parameter array. *)
Definition cap_heap (hp : Heap) (d : val) : Heap :=
  match d with
  | VRef a =>
      match hp !! a with
      | Some l =>
          if (5 <? length l)%nat
          then <[a := (take 5 l ++ [VStr (items_note (length l - 5))])%list]> hp
          else hp
      | None => hp
      end
  | _ => hp
  end.

Definition summary_of (ps : list val) : list val :=
  let summary := take 50 ps in
  if (length summary <? length ps)%nat
  then (summary ++ [VStr (items_note (length ps - length summary))])%list
  else summary.

(** [cur] is [old] cut down to five elements and a note. *)
Definition is_capped (old cur : list val) : Prop :=
  exists note, cur = (take 5 old ++ [VStr note])%list.

(** ** The example of the template expansion

    Two statements are equivalent here when they differ in white space
    only. *)
Fixpoint squeeze (s : string) : string :=
  match s with
  | EmptyString => EmptyString
  | String c s' => if Str.is_space c then squeeze s' else String c (squeeze s')
  end.

Definition sql_equiv (a b : string) : bool := String.eqb (squeeze a) (squeeze b).

(** The statement of the specification, and the one of the comment above
    [_exec], which has the separator between the brace and the dots. *)
Definition spec_statement : string :=
  "SELECT * FROM t WHERE id = ? OR {(id > ? AND a < ?)}...".
Definition separated_statement : string :=
  "SELECT * FROM t WHERE id = ? OR {(id > ? AND a < ?)} OR ...".
Definition spec_expansion : string :=
  "SELECT * FROM t WHERE id = ? OR (id>? AND a<?) OR (id>? AND a<?)".
Definition expanded_statement : string :=
  "SELECT * FROM t WHERE id = ? OR (id > ? AND a < ?) OR (id > ? AND a < ?)".

(** The parameters [[0, [1, 2, 3, 4]]] and [[0, [[1, 2], [3, 4]]]] at the
    address [a0] of a store. *)
Definition flat_params (hp : Heap) (a0 : Addr) : Prop :=
  exists a1,
    hp !! a0 = Some [VNum 0; VRef a1]
    /\ hp !! a1 = Some [VNum 1; VNum 2; VNum 3; VNum 4].

Definition nested_params (hp : Heap) (a0 : Addr) : Prop :=
  exists a1 a2 a3,
    hp !! a0 = Some [VNum 0; VRef a1]
    /\ hp !! a1 = Some [VRef a2; VRef a3]
    /\ hp !! a2 = Some [VNum 1; VNum 2]
    /\ hp !! a3 = Some [VNum 3; VNum 4].

(** ** The batches of a capped statement, in the words of the specification

    A batch is a number of groups with their data, run by one method of the
    connection.  When the group count exceeds the cap, the full batches come
    first, in the order of the data, then the remainder, which runs by
    [query] when it has more than ten groups. *)
Record Batch : Type := mkBatch {
  batch_type : Mode;
  batch_groups : nat;
  batch_data : list val
}.

Definition batches_of (type : Mode) (patternNum cap perGroup : nat) (ds : list val)
  : list Batch :=
  let n := patternNum / cap in
  let rest := patternNum mod cap in
  (map (fun i => mkBatch type cap (take (cap * perGroup) (drop (i * (cap * perGroup)) ds)))
     (seq 0 n)
   ++ (if (rest =? 0)%nat then []
       else [mkBatch (if (10 <? rest)%nat then TQuery else type) rest
               (drop (n * (cap * perGroup)) ds)]))%list.





(** The cap in force: the one of the caller, where zero asks for a single
    statement; one thousand for INSERT and REPLACE; none otherwise. *)
Definition effective_cap (options : ExecOptions) (sql : string) : option nat :=
  match maxRow options with
  | Some 0 => None
  | Some m => Some m
  | None => if Str.insert_or_replace sql then Some 1000 else None
  end.

Section Serve.
Context {W : Type}.
Variable drv : Driver W.

(** The statements [calls] sent to connection [c] one after the other, up to
    the first that fails; the first components of the responses. *)
Fixpoint serve (c : ConnId) (calls : list (Mode * string * list val)) (st : State W)
  : State W * (Err + list First) :=
  match calls with
  | [] => (st, inr [])
  | (type, sql, params) :: calls' =>
      let (w, r) := statement drv type c sql params (heap st) (world st) in
      let st1 := answered st w (Statement type c sql params) (reply_of Responded r) in
      match r with
      | inl e => (st1, inl e)
      | inr rt =>
          match serve c calls' st1 with
          | (st2, inr fs) => (st2, inr (first rt :: fs))
          | (st2, inl e) => (st2, inl e)
          end
      end
  end.
End Serve.

(** ** Transactions *)

(** What [beginTransaction], [commit] and [rollback] leave alone in every
    handle: all but the transaction flag. *)
Definition links (d : Db) : Options * option ConnId * option CbId * option string * list HId :=
  (_options d, _conn d, _lazyInit d, _currentSql d, _bind d).

Definition same_links {W} (st st' : State W) : Prop :=
  forall x, links <$> handles st' !! x = links <$> handles st !! x.

(** What a rollback does to the state: the handles keep all but their
    flags, a flag that is down stays down, and a flag comes down on a
    connected handle only after the connection has rolled back. *)
Definition rolled {W} (st st' : State W) : Prop :=
  same_links st st'
  /\ exists evs,
      trace st' = (trace st ++ evs)%list
      /\ forall x d d', handles st !! x = Some d -> handles st' !! x = Some d' ->
           (_begin d = false -> _begin d' = false)
           /\ (forall c, _begin d = true -> _begin d' = false -> _conn d = Some c ->
                 (Command Rollback c, Finished) ∈ evs).

(** [t] has the handles of [s] with the same bound handles, and no flag up
    that is down in [s]. *)
Definition calmer {W} (s t : State W) : Prop :=
  forall x d, handles s !! x = Some d ->
    exists dt, handles t !! x = Some dt /\ _bind dt = _bind d
               /\ (_begin d = false -> _begin dt = false).

Section ReleaseAlone.
Context {W : Type}.
Variable drv : Driver W.

(** [release] in the words of the specification, for a handle [d] at [h]
    that has no bound handle: roll back the open transaction, return the
    connection, forget it. *)
Definition release_alone (h : HId) (d : Db) : Async (State W) unit :=
  match _conn d with
  | Some c =>
      (if _begin d then conn_command drv Rollback c else ret tt) ;;
      update h (with_begin false) ;;
      conn_command drv Release c ;;
      update h (with_conn None)
  | None => update h (with_begin false)
  end.
End ReleaseAlone.

(** * A driver and states for examples

    The example driver numbers the pools and the connections in the order
    in which they are asked for, accepts every command and answers every
    statement with no row. *)
Definition demo_driver : Driver nat :=
  mkDriver nat
    (fun _ w => (S w, inr w))
    (fun _ w => (S w, inr w))
    (fun _ _ w => (w, inr tt))
    (fun _ _ _ _ _ w => (w, inr (mkResponse (Rows []) [])))
    (fun _ _ w => (w, inr tt))
    (fun _ w => (w, inr tt)).

Definition demo_stringify (hp : Heap) (s : Summary) : string := "[...]".

Definition demo_options : Options := mkOptions (VStr "main") (VStr "app") VUndef [].

(** A handle on connection [7], with no transaction and no statement. *)
Definition connected_db : Db := mkDb demo_options (Some 7) false None None [].

(** A handle before its first use. *)
Definition fresh_db : Db := mkDb demo_options None false None None [].

(** One handle, numbered [0], where the pool of its name is pool [3]. *)
Definition demo_state (d : Db) (hp : Heap) : State nat :=
  mkState 8 [] {[ "main" := 3 ]} {[ 0 := d ]} hp.

(** The two shapes of the parameters of the template example. *)
Definition flat_heap : Heap :=
  {[ 0 := [VNum 0; VRef 1]; 1 := [VNum 1; VNum 2; VNum 3; VNum 4] ]}.
Definition nested_heap : Heap :=
  {[ 0 := [VNum 0; VRef 1]; 1 := [VRef 2; VRef 3];
     2 := [VNum 1; VNum 2]; 3 := [VNum 3; VNum 4] ]}.

(** A batch of 35 groups of two values, given flat, under a cap of 12; the
    statement with twelve and with eleven groups. *)
Definition insert_statement : string := "INSERT INTO t (a, b) VALUES {(?, ?)}, ...".
Definition batch_values : list val := map VNum (seq 0 70).
Definition batch_heap : Heap := {[ 0 := [VRef 1]; 1 := batch_values ]}.

(** A statement without a template, called with an array of eight values:
    the call fails for want of a template. *)
Definition eight_values : list val := map VNum (seq 1 8).
Definition eight_heap : Heap := {[ 0 := [VRef 1]; 1 := eight_values ]}.

(** A handle in a transaction on connection [7], bound to a second handle in
    a transaction on connection [9]. *)
Definition transacting_db : Db := mkDb demo_options (Some 7) true None None [1].
Definition sibling_db : Db := mkDb demo_options (Some 9) true None None [].
Definition bound_state : State nat :=
  mkState 10 [] {[ "main" := 3 ]} {[ 0 := transacting_db; 1 := sibling_db ]} ∅.

(** A handle before its first use, its pool being there already; and two
    such handles of one name where no pool is there yet. *)
Definition first_use_state : State nat := demo_state fresh_db ∅.
Definition two_handles_state : State nat :=
  mkState 8 [] ∅ {[ 0 := fresh_db; 1 := fresh_db ]} ∅.

(** Two handles of the name [__proto__], before their first use. *)
Definition proto_options : Options := mkOptions (VStr "__proto__") (VStr "app") VUndef [].
Definition proto_db : Db := mkDb proto_options None false None None [].
Definition proto_state : State nat :=
  mkState 8 [] ∅ {[ 0 := proto_db; 1 := proto_db ]} ∅.

(** ** The lease of the connection *)

(** What [_init] leaves alone in every handle: all but the connection. *)
Definition flags (d : Db) : Options * bool * option CbId * option string * list HId :=
  (_options d, _begin d, _lazyInit d, _currentSql d, _bind d).

Definition same_flags {W} (st st' : State W) : Prop :=
  forall x, flags <$> handles st' !! x = flags <$> handles st !! x.

(** The first step of the [try] block of [_exec], run alone from [st], ends
    well in [s0], where the handle [h] holds the connection [c]: it held it
    already, or [_init] has leased it. *)
Definition leased {W} (drv : Driver W) (h : HId) (st s0 : State W) (c : ConnId) : Prop :=
  run (d <- this h ;;
       match _conn d with
       | Some _ => ret tt
       | None => await (_init drv h)
       end) st = (s0, inr tt)
  /\ exists d0, handles s0 !! h = Some d0 /\ _conn d0 = Some c.

(** What [_init] does once it has the pool: it leases a connection and
    keeps it, begins the transaction if the flag of the handle is up, and
    runs the lazy-init callback if there is one. *)
Definition lease_from {W} (drv : Driver W) (h : HId) (d : Db) (p : PoolId) (st : State W)
  : State W * (Err + unit) :=
  then_run (run (pool_getConnection drv p) st)
    (fun c st1 =>
       let st2 := with_handles (alter (with_conn (Some c)) h) st1 in
       then_run
         (if _begin d then run (conn_command drv BeginTransaction c) st2 else (st2, inr tt))
         (fun _ st3 =>
            match _lazyInit d with
            | Some cb => run (call_lazyInit drv cb h) st3
            | None => (st3, inr tt)
            end)).

(** The handle of [demo_state fresh_db hp] once it has leased connection
    [8] from pool [3], and the state after that lease. *)
Definition leased_db : Db := mkDb demo_options (Some 8) false None None [].
Definition leased_state (hp : Heap) : State nat :=
  mkState 9 [(GetConnection 3, Conn 8)] {[ "main" := 3 ]} {[ 0 := leased_db ]} hp.

(** * The vocabulary of the further properties *)

(** ** What [_exec] sends *)

(** The array of parameters that [_exec] works on: no argument stands for
    the empty array, an array for itself, and a lone value is wrapped. *)
Definition params_of (hp : Heap) (arg : val) : list val :=
  match arg with
  | VUndef => []
  | _ => match elems hp arg with Some l => l | None => [arg] end
  end.

(** The state in which the statement [sql] runs on the handle [h], and the
    state that the [finally] block leaves. *)
Definition marked {W} (h : HId) (sql : string) (st : State W) : State W :=
  with_handles (alter (with_currentSql (Some sql)) h) st.
Definition cleared {W} (h : HId) (st : State W) : State W :=
  with_handles (alter (with_currentSql None) h) st.

(** The call sends one statement and no batches.  Without an array among
    the parameters it is the statement of the caller as it is; with one, in
    a statement that is neither an INSERT nor a REPLACE, it is the statement
    with its template expanded for all the groups. *)
Definition sent_once (hp : Heap) (sql : string) (arg : val) (realSql : string)
    (allParams : list val) : Prop :=
  let ps := params_of hp arg in
  match findIndex (isArray hp) ps with
  | None => realSql = sql /\ allParams = ps
  | Some i =>
      exists data ds p0 p1 p2 N,
        ps !! i = Some data /\ elems hp data = Some ds
        /\ Str.search Str.default_regexp sql = Some [p0; p1; p2]
        /\ patternNum_of hp (Str.count "?" p0) ds = Some N /\ (0 < N)%nat
        /\ Str.insert_or_replace sql = false
        /\ realSql = realSql_of sql p0 p1 p2 N
        /\ allParams = (take i ps ++ spread hp ds ++ drop (i + 1) ps)%list
  end.

(** The outcome of [queryOne] in the words of the specification: nothing
    for no row, the row for one, the too-many-rows error for more. *)
Definition one_row (rows : list Row) : Err + One :=
  match rows with
  | [] => inr OUndefined
  | [row] => inr (ORow row)
  | _ => inl (mkErr MoreThanOneRecord "More than one record")
  end.

(** The text that the [catch] block adds to the message of a failure. *)
Definition report_note (stringify : Heap -> Summary -> string) (hp : Heap) (sql : string)
    (ps : list val) : string :=
  "  sql:" ++ sql ++ "  params:" ++ stringify hp (SArray (summary_of ps)).

(** A number, a boolean or [null]. *)
Definition is_scalar (v : val) : bool :=
  match v with
  | VNull | VBool _ | VNum _ => true
  | _ => false
  end.

(** ** The text of a template *)

(** The text that a template expression matches with the captures [caps]:
    its literal characters, with the captures in the place of the groups. *)
Fixpoint render (re : list Str.retok) (caps : list string) : option string :=
  match re, caps with
  | [], [] => Some EmptyString
  | Str.TChar c :: re', _ => String c <$> render re' caps
  | Str.TAnyStar :: re', g :: caps' => String.append g <$> render re' caps'
  | _, _ => None
  end.

(** ** What a call on a connected handle asks of the driver *)

Definition conn_of {W} (st : State W) (h : HId) : option ConnId :=
  handles st !! h ≫= _conn.

Definition statement_on (c : ConnId) (ev : Call * Reply) : Prop :=
  exists type sql ps, ev.1 = Statement type c sql ps.

(** From a state where [h] holds the connection [c]: [h] still holds [c],
    the registry of the pools is the same, and the driver has been asked
    statements on [c] and nothing else. *)
Definition only_statements {W} (h : HId) (c : ConnId) (st st' : State W) : Prop :=
  conn_of st h = Some c ->
  conn_of st' h = Some c
  /\ dbPools st' = dbPools st
  /\ exists evs, trace st' = (trace st ++ evs)%list /\ Forall (statement_on c) evs.

(** ** The transaction flag of the bound handles *)

(** What [beginTransaction] does to the state: the handles keep all but
    their flags, and a flag that is up stays up. *)
Definition raised {W} (st st' : State W) : Prop :=
  same_links st st'
  /\ forall x d d', handles st !! x = Some d -> handles st' !! x = Some d' ->
       _begin d = true -> _begin d' = true.

(** The handle itself or one of its bound handles. *)
Definition in_reach (h : HId) (d : Db) (x : HId) : Prop := x = h \/ x ∈ _bind d.

Definition flag_is {W} (st : State W) (x : HId) (b : bool) : Prop :=
  exists d, handles st !! x = Some d /\ _begin d = b.

(** ** A transaction from its beginning to its end *)

(** The driver accepts every command on a connection. *)
Definition commands_succeed {W} (drv : Driver W) : Prop :=
  forall cmd c w, (command drv cmd c w).2 = inr tt.

(** What the end of a transaction asks of the driver for a handle [d]
    without bound handles: the commit or the rollback of the transaction
    that is open, then the release of the connection. *)
Definition wind_up (d : Db) (committed : bool) : Trace :=
  match _conn d with
  | Some c =>
      ((if _begin d
        then [(Command (if committed then Commit else Rollback) c, Finished)]
        else [])
       ++ [(Command Release c, Finished)])%list
  | None => []
  end.

Definition succeeded {A} (r : Err + A) : bool :=
  match r with
  | inr _ => true
  | inl _ => false
  end.

(** The handle has no connection and no transaction. *)
Definition at_rest {W} (st : State W) (h : HId) : Prop :=
  exists d, handles st !! h = Some d /\ _conn d = None /\ _begin d = false.

(** The options that [safeCall] gives to its handle: those of the caller,
    with [mustInTrans] set by the third argument when there is one. *)
Definition safe_options (options : Options) (must : option bool) : Options :=
  match must with
  | Some b => mkOptions (name options) (database options) (VBool b) (others options)
  | None => options
  end.

(** The driver ends every pool. *)
Definition pools_end {W} (drv : Driver W) : Prop :=
  forall p w, (poolEnd drv p w).2 = inr tt.

(** ** Drivers that fail *)

Definition driver_error (msg : string) : Err := mkErr DriverError msg.

(** The pool is there but hands out no connection. *)
Definition down_driver : Driver nat :=
  mkDriver nat
    (fun _ w => (S w, inr w))
    (fun _ w => (w, inl (driver_error "connect ECONNREFUSED")))
    (fun _ _ w => (w, inr tt))
    (fun _ _ _ _ _ w => (w, inr (mkResponse (Rows []) [])))
    (fun _ _ w => (w, inr tt))
    (fun _ w => (w, inr tt)).


(** A statement is answered with one row for each of its parameters. *)
Definition echo_driver : Driver nat :=
  mkDriver nat
    (fun _ w => (S w, inr w))
    (fun _ w => (S w, inr w))
    (fun _ _ w => (w, inr tt))
    (fun _ _ _ params _ w => (w, inr (mkResponse (Rows (map (fun v => [v]) params)) ["id"])))
    (fun _ _ w => (w, inr tt))
    (fun _ w => (w, inr tt)).

(** A statement is answered with no row: with a header that counts its
    parameters. *)
Definition header_driver : Driver nat :=
  mkDriver nat
    (fun _ w => (S w, inr w))
    (fun _ w => (S w, inr w))
    (fun _ _ w => (w, inr tt))
    (fun _ _ _ params _ w => (w, inr (mkResponse (Header (length params)) [])))
    (fun _ _ w => (w, inr tt))
    (fun _ w => (w, inr tt)).

(** Batches of one value a group: three groups, and one more than the cap
    of an INSERT. *)
Definition one_column_insert : string := "INSERT INTO t (a) VALUES {(?)}, ...".
Definition three_heap : Heap := {[ 0 := [VRef 1]; 1 := map VNum (seq 0 3) ]}.
Definition over_cap_heap : Heap := {[ 0 := [VRef 1]; 1 := map VNum (seq 0 1001) ]}.

(** The lazy-init callback of the application fails. *)
Definition strict_driver : Driver nat :=
  mkDriver nat
    (fun _ w => (S w, inr w))
    (fun _ w => (S w, inr w))
    (fun _ _ w => (w, inr tt))
    (fun _ _ _ _ _ w => (w, inr (mkResponse (Rows []) [])))
    (fun _ _ w => (w, inl (driver_error "SET NAMES refused")))
    (fun _ w => (w, inr tt)).

(** A handle before its first use that has a lazy-init callback. *)
Definition prepared_db : Db := mkDb demo_options None false (Some 4) None [].

(** A batch of three groups of two values, and caps of two and of five. *)
Definition six_heap : Heap := {[ 0 := [VRef 1]; 1 := map VNum (seq 0 6) ]}.
Definition cap_2 : ExecOptions := mkExecOptions false None (Some 2).
Definition cap_5 : ExecOptions := mkExecOptions false None (Some 5).
Definition cap_0 : ExecOptions := mkExecOptions false None (Some 0).

(** A handle in a transaction on connection [7] beside a handle before its
    first use. *)
Definition leader_db : Db := mkDb demo_options (Some 7) true None None [].
Definition pair_state : State nat :=
  mkState 10 [] {[ "main" := 3 ]} {[ 0 := leader_db; 1 := fresh_db ]} ∅.

(** A callback that sends one statement on the handle that it is given. *)
Definition demo_update (h : HId) : Async (State nat) Result :=
  _exec demo_driver demo_stringify h TExecute "UPDATE t SET a = 1" VUndef no_options.

(** * The server (class of [server.js])

    The application object wraps a Koa application.  Koa, koa-compose,
    koa-bodyparser, the controller and the http modules are taken by what
    they are given: a middleware is a term over the middlewares of the
    application, and a server is the callback and the port that it was
    created with. *)

Module Server.

Inductive Middleware : Type :=
| Bodyparser                                (* bodyparser() *)
| BatchCall (inner : option Middleware)     (* controller.batchCall(inner) *)
| Compose (l : list Middleware)             (* compose(array) *)
| Given (id : nat).                         (* a middleware of the application *)

Inductive Thrown : Type :=
| TypeErr (msg : string)
| Started (msg : string)     (* the error of [checkServerStart] *)
| FsErr (msg : string).      (* thrown by [fs.readFileSync] *)

(** [koa.callback()]: the request handler over the middlewares that Koa
    holds. *)
Record Callback : Type := mkCallback { composed : list Middleware }.

(** [http.createServer(callback).listen(port)], and the same of [https]
    with the key and the certificate when they are given. *)
Record HttpServer : Type := mkHttp { http_callback : option Callback; http_port : val }.
Record HttpsServer : Type := mkHttps {
  https_files : option (string * string);
  https_callback : option Callback;
  https_port : val
}.

Record App : Type := mkApp {
  koa : list Middleware;                  (* what [koa.use] was given, in order *)
  _middlewares : list Middleware;
  _actionMiddlewares : list Middleware;
  _callback : option Callback;
  http : option HttpServer;
  https : option HttpsServer
}.

Definition with_koa (l : list Middleware) (app : App) : App :=
  mkApp l (_middlewares app) (_actionMiddlewares app) (_callback app) (http app) (https app).
Definition with_middlewares (l : list Middleware) (app : App) : App :=
  mkApp (koa app) l (_actionMiddlewares app) (_callback app) (http app) (https app).
Definition with_actionMiddlewares (l : list Middleware) (app : App) : App :=
  mkApp (koa app) (_middlewares app) l (_callback app) (http app) (https app).
Definition with_callback (cb : option Callback) (app : App) : App :=
  mkApp (koa app) (_middlewares app) (_actionMiddlewares app) cb (http app) (https app).
Definition with_http (s : option HttpServer) (app : App) : App :=
  mkApp (koa app) (_middlewares app) (_actionMiddlewares app) (_callback app) s (https app).
Definition with_https (s : option HttpsServer) (app : App) : App :=
  mkApp (koa app) (_middlewares app) (_actionMiddlewares app) (_callback app) (http app) s.

(** [checkServerStart(fn)], where [fn] is the value of the property [_name]
    of the argument, and [None] when there is no argument: the message is
    built from [fn._name] before anything else, and reading a property of
    [undefined] throws. *)
Definition checkServerStart (fn : option val) (app : App) : Thrown + unit :=
  match _callback app with
  | Some _ =>
      match fn with
      | None => inl (TypeErr "Cannot read properties of undefined (reading '_name')")
      | Some _name =>
          inl (Started ("Must add middleware before server starts,  middleware:"
                        ++ key_of _name))
      end
  | None => inr tt
  end.

(** [useBefore], [use] and [actionUse] call [checkServerStart] without an
    argument. *)
Definition useBefore (middleware : Middleware) (app : App) : App * (Thrown + unit) :=
  match checkServerStart None app with
  | inl e => (app, inl e)
  | inr _ => (with_middlewares (middleware :: _middlewares app) app, inr tt)
  end.

Definition use (middleware : Middleware) (app : App) : App * (Thrown + unit) :=
  match checkServerStart None app with
  | inl e => (app, inl e)
  | inr _ => (with_middlewares (_middlewares app ++ [middleware]) app, inr tt)
  end.

Definition actionUse (middleware : Middleware) (app : App) : App * (Thrown + unit) :=
  match checkServerStart None app with
  | inl e => (app, inl e)
  | inr _ => (with_actionMiddlewares (_actionMiddlewares app ++ [middleware]) app, inr tt)
  end.

(** [new Koa(...args)], two empty arrays, and [this.use(bodyparser())] *)
Definition constructor : App :=
  (use Bodyparser (mkApp [] [] [] None None None)).1.

(** A property of an array read by its name: an array has a [length], and
    no property of another spelling. *)
Definition array_property (prop : string) (l : list Middleware) : option nat :=
  if String.eqb prop "length" then Some (length l) else None.

(** [x > 0], which is false of [undefined]. *)
Definition greater_than_zero (x : option nat) : bool :=
  match x with
  | Some n => (0 <? n)%nat
  | None => false
  end.

Definition registerMiddlewares (app : App) : App * (Thrown + unit) :=
  let (app1, r) :=
    if greater_than_zero (array_property "lenght" (_actionMiddlewares app))
    then use (BatchCall (Some (Compose (_actionMiddlewares app)))) app
    else use (BatchCall None) app in
  match r with
  | inl e => (app1, inl e)
  | inr _ =>
      let app2 := with_koa (koa app1 ++ [Compose (_middlewares app1)]) app1 in
      (with_callback (Some (mkCallback (koa app2))) app2, inr tt)
  end.

(** [runHttp()], with [theone.config['port']] *)
Definition runHttp (port : val) (app : App) : App * (Thrown + unit) :=
  let (app1, r) :=
    match _callback app with
    | None => registerMiddlewares app
    | Some _ => (app, inr tt)
    end in
  match r with
  | inl e => (app1, inl e)
  | inr _ => (with_http (Some (mkHttp (_callback app1) port)) app1, inr tt)
  end.

(** [theone.config['https']] *)
Record HttpsConfig : Type := mkHttpsConfig {
  keyFilename : val;
  certFilename : val;
  port : val
}.

Section Files.
(** [fs.readFileSync(path)] *)
Variable readFileSync : val -> Thrown + string.

Definition runHttps (httpsCfg : HttpsConfig) (app : App) : App * (Thrown + unit) :=
  let (app1, r) :=
    match _callback app with
    | None => registerMiddlewares app
    | Some _ => (app, inr tt)
    end in
  match r with
  | inl e => (app1, inl e)
  | inr _ =>
      if truthy (keyFilename httpsCfg) && truthy (certFilename httpsCfg)
      then
        match readFileSync (keyFilename httpsCfg) with
        | inl e => (app1, inl e)
        | inr key =>
            match readFileSync (certFilename httpsCfg) with
            | inl e => (app1, inl e)
            | inr cert =>
                (with_https (Some (mkHttps (Some (key, cert)) (_callback app1)
                                     (port httpsCfg))) app1, inr tt)
            end
        end
      else (with_https (Some (mkHttps None (_callback app1) (port httpsCfg))) app1, inr tt)
  end.
End Files.

(** The calls by which an application adds its middlewares. *)
Inductive Op : Type :=
| OUse (m : Middleware)
| OUseBefore (m : Middleware)
| OActionUse (m : Middleware).

Definition call (op : Op) : App -> App * (Thrown + unit) :=
  match op with
  | OUse m => use m
  | OUseBefore m => useBefore m
  | OActionUse m => actionUse m
  end.

(** The calls [ops] made one after the other, up to the first that
    throws. *)
Fixpoint play (ops : list Op) (app : App) : App * (Thrown + unit) :=
  match ops with
  | [] => (app, inr tt)
  | op :: ops' =>
      match call op app with
      | (app1, inr _) => play ops' app1
      | (app1, inl e) => (app1, inl e)
      end
  end.

(** The middlewares given to [use], and those given to [useBefore], in the
    order of the calls. *)
Definition used (ops : list Op) : list Middleware :=
  flat_map (fun op => match op with OUse m => [m] | _ => [] end) ops.
Definition used_before (ops : list Op) : list Middleware :=
  flat_map (fun op => match op with OUseBefore m => [m] | _ => [] end) ops.

End Server.

(** * The models (module [lib/modle.js])

    The file system, the module loader and the constructors of the model
    classes are an oracle; [path.join] and [path.basename] are taken as
    they are. *)

Module Modle.

Inductive Thrown : Type :=
| TypeErr (msg : string)
| Raised (msg : string).      (* thrown by fs, by require or by a constructor *)

(** What a module exports: a class, [null], or a value that a class cannot
    extend. *)
Inductive Exported : Type :=
| EClass (id : nat)
| ENull
| EOther.

(** [fs.Stats] *)
Record Stats : Type := mkStats { isFile : bool; isDirectory : bool }.

Record Fs : Type := mkFs {
  readdirSync : string -> Thrown + list string;
  statSync : string -> Thrown + Stats;
  require : string -> Thrown + Exported
}.

(** The class that [extends(parent)] returns. *)
Inductive Model : Type := Extends (parent : Exported).

(** [class extends parent { ... }] is refused when [parent] is neither a
    constructor nor [null]. *)
Definition extends (parent : Exported) : Thrown + Model :=
  match parent with
  | EOther => inl (TypeErr "Class extends value is not a constructor or null")
  | _ => inr (Extends parent)
  end.

(** [s.endsWith(suffix)] *)
Fixpoint endsWith (s suffix : string) : bool :=
  String.eqb s suffix
  || match s with
     | String _ s' => endsWith s' suffix
     | EmptyString => false
     end.

Section Load.
Variable fs : Fs.
Variable path_join : string -> string -> string.
Variable path_basename : string -> string -> string.

(** The body of the loop of [loadModle] over the entries of the directory.
    [this.loadModule] is not a method of the module: calling it throws. *)
Fixpoint load_files (dir modlePath : string) (files : list string) (data : gmap string Model)
  : gmap string Model * (Thrown + unit) :=
  match files with
  | [] => (data, inr tt)
  | file :: files' =>
      let filePath := path_join dir file in
      match statSync fs filePath with
      | inl e => (data, inl e)
      | inr stat =>
          if endsWith file ".js" && isFile stat then
            let m := path_basename filePath ".js" in
            match require fs filePath with
            | inl e => (data, inl e)
            | inr exported =>
                match extends exported with
                | inl e => (data, inl e)
                | inr cls => load_files dir modlePath files' (<[modlePath ++ m ++ "/" := cls]> data)
                end
            end
          else if isDirectory stat then (data, inl (TypeErr "this.loadModule is not a function"))
          else load_files dir modlePath files' data
      end
  end.

(** [loadModle(dir, modlePath = '', data = {})]: the object [data] as the
    call leaves it, and the outcome; when the call returns, it returns
    [data]. *)
Definition loadModle (dir modlePath : string) (data : gmap string Model)
  : gmap string Model * (Thrown + unit) :=
  match readdirSync fs dir with
  | inl e => (data, inl e)
  | inr files => load_files dir modlePath files data
  end.

(** The constructors of the classes that the modules export: the fields
    that the constructor of class [id] sets. *)
Variable construct : nat -> Thrown + gmap string val.
(** [theone.config['modle_dir']], and the names of the options in
    [theone.config['database']]. *)
Variable modle_dir : string.
Variable database : list val.

(** What [creatModle] returns: an instance of a model with its fields, or,
    for the name [constructor] that every object inherits, the controller
    itself or an empty object. *)
Inductive Made : Type :=
| MInstance (cls : Model) (fields : gmap string val)
| MCtrl
| MEmpty.

(** The controller by all its properties, or nothing when it is
    [undefined] or [null]. *)
Definition Ctrl : Type := option (gmap string val).

(** [for (let options of database) this[options.name] = ctrl[options.name]] *)
Fixpoint copy_handles (names : list val) (ctrl : Ctrl) (fields : gmap string val)
  : Thrown + gmap string val :=
  match names with
  | [] => inr fields
  | n :: names' =>
      match ctrl with
      | None => inl (TypeErr "Cannot read properties of undefined")
      | Some props =>
          copy_handles names' ctrl (<[key_of n := default VUndef (props !! key_of n)]> fields)
      end
  end.

(** [new cls(ctrl)] for a class made by [extends] *)
Definition new_model (cls : Model) (ctrl : Ctrl) : Thrown + Made :=
  match cls with
  | Extends (EClass id) =>
      match construct id with
      | inl e => inl e
      | inr fields =>
          match copy_handles database ctrl fields with
          | inl e => inl e
          | inr fields' => inr (MInstance cls fields')
          end
      end
  | Extends _ => inl (TypeErr "Super constructor null of anonymous class is not a constructor")
  end.

(** [new allModles[name](ctrl)]: an own property is a model; [constructor]
    is inherited and is [Object]; any other name is [undefined] or an
    inherited value that is no constructor. *)
Definition new_named (data : gmap string Model) (name : string) (ctrl : Ctrl) : Thrown + Made :=
  match data !! name with
  | Some cls => new_model cls ctrl
  | None =>
      if String.eqb name "constructor"
      then inr (match ctrl with Some _ => MCtrl | None => MEmpty end)
      else inl (TypeErr "allModles[name] is not a constructor")
  end.

(** [creatModle(ctrl, name)] on the variable [allModles] of the module *)
Definition creatModle (ctrl : Ctrl) (name : string) (allModles : option (gmap string Model))
  : option (gmap string Model) * (Thrown + Made) :=
  match allModles with
  | Some data => (Some data, new_named data name ctrl)
  | None =>
      match loadModle modle_dir EmptyString ∅ with
      | (_, inl e) => (None, inl e)
      | (data, inr _) => (Some data, new_named data name ctrl)
      end
  end.

(** An entry that [loadModle] takes for a model, one that it takes for a
    directory, and the key of a model. *)
Definition is_model (dir file : string) : bool :=
  endsWith file ".js"
  && match statSync fs (path_join dir file) with
     | inr stat => isFile stat
     | inl _ => false
     end.

Definition is_subdirectory (dir file : string) : bool :=
  negb (is_model dir file)
  && match statSync fs (path_join dir file) with
     | inr stat => isDirectory stat
     | inl _ => false
     end.

Definition model_key (dir modlePath file : string) : string :=
  modlePath ++ path_basename (path_join dir file) ".js" ++ "/".

(** Nothing fails in the directory: every entry has its [Stats] and every
    model file exports a class or [null]. *)
Definition loads_well (dir : string) (files : list string) : Prop :=
  forall file, file ∈ files ->
    (exists stat, statSync fs (path_join dir file) = inr stat)
    /\ (is_model dir file = true ->
        exists exported, require fs (path_join dir file) = inr exported /\ exported <> EOther).
End Load.

End Modle.

(** A directory of two models and a note, and one that holds a
    sub-directory beside a model. *)
Definition flat_fs : Modle.Fs :=
  Modle.mkFs
    (fun _ => inr ["user.js"; "notes.md"; "order.js"])
    (fun _ => inr (Modle.mkStats true false))
    (fun _ => inr (Modle.EClass 1)).

Definition nested_fs : Modle.Fs :=
  Modle.mkFs
    (fun _ => inr ["user.js"; "admin"])
    (fun p => inr (if String.eqb p "models/admin" then Modle.mkStats false true
                   else Modle.mkStats true false))
    (fun _ => inr (Modle.EClass 1)).

Definition demo_join (dir file : string) : string := dir ++ "/" ++ file.

(** A stand-in for [path.basename] that is right on the two models of the
    example. *)
Definition demo_basename (p ext : string) : string :=
  if String.eqb p "models/user.js" then "user" else "order".

(** * Properties *)

(** ** Strings *)

Example match_code_comment :
  Str.search Str.default_regexp "a = ? or {(id > ? and a < ?)} or ...  "
  = Some ["{(id > ? and a < ?)} or ..."; "(id > ? and a < ?)"; " or "].
Proof. reflexivity. Qed.

Example match_is_greedy :
  Str.search Str.default_regexp "x {a} b {c}, ... d ... e"
  = Some ["{a} b {c}, ... d ..."; "a} b {c"; ", ... d "].
Proof. reflexivity. Qed.

Example replace_first_only :
  Str.replace "a-b-c" "-" "+$&+" = "a+-+b-c".
Proof. reflexivity. Qed.

Example insert_or_replace_ex :
  Str.insert_or_replace "  insert into t values {(?,?)},..." = true
  /\ Str.insert_or_replace "SELECT 1" = false.
Proof. split; reflexivity. Qed.

(** *** Matching, splitting and replacing *)

Lemma append_cons c (a b : string) : String c a ++ b = String c (a ++ b).
Proof. reflexivity. Qed.

Lemma append_nil_l (b : string) : EmptyString ++ b = b.
Proof. reflexivity. Qed.

Ltac app := rewrite ?append_cons, ?append_nil_l.

Lemma append_assoc (a b c : string) : (a ++ b) ++ c = a ++ b ++ c.
Proof. induction a as [| x a IH]; app; [done | by rewrite IH]. Qed.

Lemma match_here_render re :
  forall s caps m,
    Str.match_here re s = Some (caps, m) ->
    render re caps = Some m /\ exists a, s = m ++ a.
Proof.
  induction re as [| [c |] re IH]; intros s caps m.
  - simpl. intros [= <- <-]. split; [done |]. by exists s.
  - destruct s as [| c' s]; simpl; [done |].
    destruct (Ascii.eqb c c') eqn:E; [| done]. apply Ascii.eqb_eq in E as <-.
    destruct (Str.match_here re s) as [[caps' m'] |] eqn:Em; [| done].
    intros [= <- <-]. destruct (IH _ _ _ Em) as [Hr [a ->]].
    split; [by simpl; rewrite Hr |]. by exists a.
  - cbn [Str.match_here].
    assert (Hstop : forall s caps m,
              match Str.match_here re s with
              | Some (caps0, m0) => Some (EmptyString :: caps0, m0)
              | None => None
              end = Some (caps, m) ->
              render (Str.TAnyStar :: re) caps = Some m /\ exists a, s = m ++ a).
    { intros s0 caps0 m0. destruct (Str.match_here re s0) as [[caps' m'] |] eqn:Em; [| done].
      intros [= <- <-]. destruct (IH _ _ _ Em) as [Hr [a ->]].
      split; [by simpl; rewrite Hr |]. by exists a. }
    revert caps m. induction s as [| c s IHs]; intros caps m.
    + apply Hstop.
    + destruct (Str.line_terminator (String c s)); [apply Hstop |].
      match goal with
      | |- match ?x with _ => _ end = _ -> _ => destruct x as [[[| g caps'] m'] |] eqn:Es
      end; try apply Hstop.
      intros [= <- <-]. destruct (IHs _ _ eq_refl) as [Hr [a Ha]].
      simpl in Hr. destruct (render re caps') as [m0 |] eqn:Er; [| done].
      simpl in Hr. injection Hr as <-.
      split; [by simpl; rewrite Er |]. exists a. app. by rewrite <- Ha.
Qed.

Lemma search_render re s m caps :
  Str.search re s = Some (m :: caps) ->
  render re caps = Some m /\ exists b a, s = b ++ m ++ a.
Proof.
  induction s as [| c s IH]; simpl.
  - destruct (Str.match_here re EmptyString) as [[caps' m'] |] eqn:Em; [| done].
    intros [= <- <-]. destruct (match_here_render _ _ _ _ Em) as [Hr [a Ha]].
    split; [done |]. by exists EmptyString, a.
  - destruct (Str.match_here re (String c s)) as [[caps' m'] |] eqn:Em.
    + intros [= <- <-]. destruct (match_here_render _ _ _ _ Em) as [Hr [a Ha]].
      split; [done |]. by exists EmptyString, a.
    + intros Hs. destruct (IH Hs) as [Hr (b & a & ->)].
      split; [done |]. by exists (String c b), a.
Qed.

Lemma substring_all s m : (String.length s <= m)%nat -> String.substring 0 m s = s.
Proof.
  revert m. induction s as [| c s IH]; intros [| m] Hm; simpl in *; try done; try lia.
  rewrite IH; [done | lia].
Qed.

Lemma prefix_split pat :
  forall s m, String.prefix pat s = true -> (String.length s <= m)%nat ->
    s = pat ++ String.substring (String.length pat) m s.
Proof.
  induction pat as [| a pat IH]; intros s m Hp Hm; app.
  - simpl. by rewrite substring_all.
  - destruct s as [| b s]; simpl in *; [done |].
    destruct (ascii_dec a b) as [-> | ?]; [| done].
    destruct m as [| m]; [lia |]. simpl.
    f_equal. apply IH; [done | lia].
Qed.

Lemma prefix_append pat a : String.prefix pat (pat ++ a) = true.
Proof.
  induction pat as [| c pat IH]; app; simpl; [by destruct a |].
  by destruct (ascii_dec c c).
Qed.

Lemma split_at_eq pat s :
  Str.split_at pat s
  = if String.prefix pat s
    then Some (EmptyString, String.substring (String.length pat) (String.length s) s)
    else match s with
         | EmptyString => None
         | String c s' =>
             match Str.split_at pat s' with
             | Some (b, a) => Some (String c b, a)
             | None => None
             end
         end.
Proof. by destruct s. Qed.

Lemma split_at_spec pat s b a : Str.split_at pat s = Some (b, a) -> s = b ++ pat ++ a.
Proof.
  revert b. induction s as [| c s IH]; intros b; rewrite split_at_eq.
  - destruct (String.prefix pat EmptyString) eqn:Ep; [| done].
    intros [= <- <-]. exact (prefix_split pat EmptyString _ Ep (le_n _)).
  - destruct (String.prefix pat (String c s)) eqn:Ep.
    + intros [= <- <-]. exact (prefix_split pat (String c s) _ Ep (le_n _)).
    + destruct (Str.split_at pat s) as [[b' a'] |]; [| done].
      intros [= <- <-]. app. f_equal. by apply IH.
Qed.

Lemma split_at_occurs pat b a : is_Some (Str.split_at pat (b ++ pat ++ a)).
Proof.
  induction b as [| c b IH]; app; rewrite split_at_eq.
  - rewrite prefix_append. eauto.
  - destruct (String.prefix pat _); [eauto |].
    destruct IH as [[b' a'] ->]. eauto.
Qed.

Lemma count_append c a b : Str.count c (a ++ b) = Str.count c a + Str.count c b.
Proof. induction a as [| x a IH]; app; simpl; [done | rewrite IH; lia]. Qed.

Lemma count_repeatStr c s n : Str.count c (Str.repeatStr s n) = n * Str.count c s.
Proof. induction n as [| n IH]; simpl; [done | by rewrite count_append, IH]. Qed.

(** A replacement text without a dollar stands for itself. *)
Lemma substitution_plain b m a repl :
  Str.count "$" repl = 0 -> Str.substitution b m a repl = repl.
Proof.
  induction repl as [| c r IH]; [done |].
  cbn [Str.count]. intros Hc.
  destruct (Ascii.eqb "$" c) eqn:E; [done |].
  assert (Hr : Str.substitution b m a r = r) by (apply IH; lia).
  destruct c as [[] [] [] [] [] [] [] []]; try done; simpl; by rewrite ?Hr.
Qed.









(** White space of more than one byte counts before INSERT, and a line
    separator is no character of a template. *)
Example insert_after_wide_space :
  Str.insert_or_replace (String "194" (String "160" "INSERT INTO t VALUES {(?)}, ...")) = true
  /\ Str.insert_or_replace
       (String "239" (String "187" (String "191" "replace into t values {(?)}, ..."))) = true
  /\ Str.insert_or_replace (String "195" (String "160" "INSERT INTO t VALUES {(?)}, ...")) = false.
Proof. repeat split; reflexivity. Qed.

Example line_separator_in_template :
  Str.search Str.default_regexp
    ("SELECT {(a = ?" ++ String "226" (String "128" (String "168" ")} OR ..."))) = None
  /\ Str.search Str.default_regexp
       ("SELECT {(a = ?" ++ String "226" (String "128" (String "160" ")} OR ...")))
     <> None.
Proof. split; [reflexivity | vm_compute; congruence]. Qed.

(** ** One task run alone *)

Section RunLaws.
Context {St : Type}.
Implicit Types st : St.

Lemma Step_induction {A} (P : Step St A -> Prop) :
  (forall x, P (Done x)) ->
  (forall k, (forall st, P (k st).2) -> P (Susp k)) ->
  forall r, P r.
Proof.
  intros HD HS. fix IH 1. intros [x | k].
  - apply HD.
  - apply HS. intros st. apply IH.
Qed.

Lemma run_ret {A} (a : A) st : run (ret a) st = (st, inr a).
Proof. done. Qed.

Lemma run_throw {A} (e : Err) st : run (throw (A:=A) e) st = (st, inl e).
Proof. done. Qed.

Lemma run_gets {A} (f : St -> A) st : run (gets f) st = (st, inr (f st)).
Proof. done. Qed.

Lemma run_modify (f : St -> St) st : run (modify f) st = (f st, inr tt).
Proof. done. Qed.

Lemma run_bind_step {A B} (r : Step St A) (f : A -> Async St B) st :
  (let (st1, r1) := bind_step r f st in run_step r1 st1)
  = then_run (run_step r st) (fun a => run (f a)).
Proof.
  revert st. induction r as [[e | a] | k IH] using Step_induction; intros st; simpl; try done.
  specialize (IH st). destruct (k st) as [st1 r1]. apply IH.
Qed.

Lemma run_bind {A B} (m : Async St A) (f : A -> Async St B) st :
  run (bind m f) st = then_run (run m st) (fun a => run (f a)).
Proof.
  unfold run at 1 2, bind. destruct (m st) as [st1 r]. apply run_bind_step.
Qed.

Lemma run_settle {A} (r : Step St A) st : run_step (settle r) st = run_step r st.
Proof.
  revert st. induction r as [x | k IH] using Step_induction; intros st; simpl; try done.
  specialize (IH st). destruct (k st) as [st1 r1]. apply IH.
Qed.

Lemma run_await {A} (m : Async St A) st : run (await m) st = run m st.
Proof.
  unfold run, await. destruct (m st) as [st1 r]. apply run_settle.
Qed.

Lemma run_catch_step {A} (r : Step St A) (hd : Err -> Async St A) st :
  (let (st1, r1) := catch_step r hd st in run_step r1 st1)
  = or_handle (run_step r st) (fun e => run (hd e)).
Proof.
  revert st. induction r as [[e | a] | k IH] using Step_induction; intros st; simpl; try done.
  specialize (IH st). destruct (k st) as [st1 r1]. apply IH.
Qed.

Lemma run_try_catch {A} (m : Async St A) (hd : Err -> Async St A) st :
  run (try_catch m hd) st = or_handle (run m st) (fun e => run (hd e)).
Proof.
  unfold run at 1 2, try_catch. destruct (m st) as [st1 r]. apply run_catch_step.
Qed.

Lemma run_finally_step {A} (r : Step St A) (fin : Async St unit) st :
  (let (st1, r1) := finally_step r fin st in run_step r1 st1)
  = and_finally (run_step r st) (run fin).
Proof.
  revert st. induction r as [x | k IH] using Step_induction; intros st; simpl.
  - change (run (bind fin (fun _ st1 => (st1, Done x))) st = and_finally (st, x) (run fin)).
    rewrite run_bind. unfold and_finally, then_run.
    by destruct (run fin st) as [st1 [e | []]].
  - specialize (IH st). destruct (k st) as [st1 r1]. apply IH.
Qed.

Lemma run_try_finally {A} (m : Async St A) (fin : Async St unit) st :
  run (try_finally m fin) st = and_finally (run m st) (run fin).
Proof.
  unfold run at 1 2, try_finally. destruct (m st) as [st1 r]. apply run_finally_step.
Qed.

Lemma run_for_of_nil {A} (body : A -> Async St unit) st : run (for_of [] body) st = (st, inr tt).
Proof. done. Qed.

Lemma run_for_of_cons {A} (x : A) l (body : A -> Async St unit) st :
  run (for_of (x :: l) body) st = then_run (run (body x) st) (fun _ => run (for_of l body)).
Proof. simpl. apply run_bind. Qed.
End RunLaws.

(** ** Frames *)

Section Frames.
Context {St : Type} (R : St -> St -> Prop) `{!PreOrder R}.

Lemma keeps_ret {A} (a : A) : keeps R (ret a).
Proof. intros st. by rewrite run_ret. Qed.

Lemma keeps_throw {A} e : keeps R (throw (A:=A) e).
Proof. intros st. by rewrite run_throw. Qed.

Lemma keeps_gets {A} (f : St -> A) : keeps R (gets f).
Proof. intros st. by rewrite run_gets. Qed.

Lemma keeps_modify (f : St -> St) : (forall st, R st (f st)) -> keeps R (modify f).
Proof. intros H st. rewrite run_modify. apply H. Qed.

Lemma keeps_bind {A B} (m : Async St A) (f : A -> Async St B) :
  keeps R m -> (forall a, keeps R (f a)) -> keeps R (bind m f).
Proof.
  intros Hm Hf st. rewrite run_bind. specialize (Hm st).
  destruct (run m st) as [st1 [e | a]]; simpl in *; [done |].
  by etrans; [| apply Hf].
Qed.

Lemma keeps_await {A} (m : Async St A) : keeps R m -> keeps R (await m).
Proof. intros Hm st. rewrite run_await. apply Hm. Qed.

Lemma keeps_try_catch {A} (m : Async St A) hd :
  keeps R m -> (forall e, keeps R (hd e)) -> keeps R (try_catch m hd).
Proof.
  intros Hm Hh st. rewrite run_try_catch. specialize (Hm st).
  destruct (run m st) as [st1 [e | a]]; simpl in *; [| done].
  by etrans; [| apply Hh].
Qed.

Lemma keeps_try_finally {A} (m : Async St A) fin :
  keeps R m -> keeps R fin -> keeps R (try_finally m fin).
Proof.
  intros Hm Hf st. rewrite run_try_finally. specialize (Hm st).
  destruct (run m st) as [st1 r]; simpl in *. specialize (Hf st1).
  destruct (run fin st1) as [st2 [e | []]]; simpl in *; by etrans.
Qed.

Lemma keeps_for_of {A} (l : list A) body :
  (forall x, keeps R (body x)) -> keeps R (for_of l body).
Proof.
  intros Hb. induction l as [| x l IH]; simpl.
  - apply keeps_ret.
  - by apply keeps_bind.
Qed.
End Frames.

(** ** The first segment of a call *)

Section Segments.
Context {St : Type}.
Implicit Types st : St.

Lemma bind_done {A B} (m : Async St A) (f : A -> Async St B) st st1 a :
  m st = (st1, Done (inr a)) -> bind m f st = f a st1.
Proof. intros H. unfold bind. by rewrite H. Qed.

Lemma suspends_bind_l {A B} (m : Async St A) (f : A -> Async St B) st st1 :
  suspends m st st1 -> suspends (bind m f) st st1.
Proof. intros [k H]. unfold suspends, bind. rewrite H. simpl. by eexists. Qed.

Lemma suspends_bind_r {A B} (m : Async St A) (f : A -> Async St B) st st' a st1 :
  m st = (st', Done (inr a)) -> suspends (f a) st' st1 -> suspends (bind m f) st st1.
Proof. intros H [k Hk]. exists k. by rewrite (bind_done _ _ _ _ _ H). Qed.

Lemma suspends_await {A} (m : Async St A) st : suspends (await m) st (m st).1.
Proof. unfold suspends, await. destruct (m st) as [st1 [x | k]]; simpl; by eexists. Qed.

Lemma suspends_try_catch {A} (m : Async St A) hd st st1 :
  suspends m st st1 -> suspends (try_catch m hd) st st1.
Proof. intros [k H]. unfold suspends, try_catch. rewrite H. simpl. by eexists. Qed.

Lemma suspends_try_finally {A} (m : Async St A) fin st st1 :
  suspends m st st1 -> suspends (try_finally m fin) st st1.
Proof. intros [k H]. unfold suspends, try_finally. rewrite H. simpl. by eexists. Qed.
End Segments.

(** ** The constructor *)

(** C7, as the code has it: the constructor asks for a name that is a
    string, of any length.  Options whose name is missing or is not a string
    are refused with the name error; options whose name is a string, the
    empty one included, give a handle that holds the options, no connection,
    no transaction, no callback, no statement and no bound handle. *)
Theorem constructor_requires_string_name (options : Options) :
  if is_string (name options)
  then constructor options = inr (mkDb options None false None None [])
  else exists msg, constructor options = inl (mkErr NameRequired msg).
Proof.
  unfold constructor. destruct (name options); simpl; eauto.
Qed.

(** C7, as stated, fails for the empty name: the handle is constructed. *)
Lemma constructor_accepts_empty_name :
  let options := mkOptions (VStr EmptyString) VUndef VUndef [] in
  name options = VStr EmptyString
  /\ constructor options = inr (mkDb options None false None None []).
Proof. split; reflexivity. Qed.

(** ** The length test of [queryOne] and [executeOne] *)

Section One.
Context {W : Type}.
Variable drv : Driver W.
Variable JSON_stringify : Heap -> Summary -> string.

Lemma run_one (m : Async (State W) Result) (st : State W) :
  run (rt <- await m ;; match one_of rt with inl e => throw e | inr r => ret r end) st
  = then_run (run m st) (fun rt st1 => (st1, one_of rt)).
Proof.
  rewrite run_bind, run_await. destruct (run m st) as [st1 [e | rt]]; simpl; [done |].
  by destruct (one_of rt).
Qed.

End One.

(** ** [_exec] run alone *)

Section Exec.
Context {W : Type}.
Variable drv : Driver W.
Variable JSON_stringify : Heap -> Summary -> string.
Implicit Types st : State W.

Lemma run_this h d st : handles st !! h = Some d -> run (this h) st = (st, inr d).
Proof. intros H. unfold this. rewrite run_bind, run_gets. simpl. by rewrite H. Qed.

Lemma run_update h f st : run (update h f) st = (with_handles (alter f h) st, inr tt).
Proof. done. Qed.

Lemma run_ask {A} (c : Call) (f : W -> W * (Err + A)) show st :
  run (ask c f show) st
  = (answered st (f (world st)).1 c (reply_of show (f (world st)).2), (f (world st)).2).
Proof. unfold run, ask. by destruct (f (world st)). Qed.

Lemma run_the_conn h d c st :
  handles st !! h = Some d -> _conn d = Some c -> run (the_conn h) st = (st, inr c).
Proof.
  intros H Hc. unfold the_conn. rewrite run_bind, (run_this _ _ _ H). simpl. by rewrite Hc.
Qed.

Lemma run_conn_type h d c type sql ps st :
  handles st !! h = Some d -> _conn d = Some c ->
  run (conn_type drv h type sql ps) st
  = run (ask (Statement type c sql ps) (statement drv type c sql ps (heap st)) Responded) st.
Proof.
  intros H Hc. unfold conn_type. rewrite run_bind, (run_the_conn _ _ _ _ H Hc). simpl.
  unfold conn_statement. by rewrite run_bind, run_gets.
Qed.

Lemma run_cap_nested d st :
  run (cap_nested d) st = (with_heap (fun hp => cap_heap hp d) st, inr tt).
Proof.
  unfold cap_nested. rewrite run_bind, run_gets. simpl.
  unfold cap_heap, with_heap. destruct st as [w tr dp hs hp]. simpl.
  destruct d; try done. destruct (hp !! a); try done. by destruct (5 <? length l)%nat.
Qed.

Lemma run_caps l st :
  run (for_of l cap_nested) st = (with_heap (fun hp => foldl cap_heap hp l) st, inr tt).
Proof.
  revert st. induction l as [| d l IH]; intros st.
  - by destruct st.
  - rewrite run_for_of_cons, run_cap_nested. simpl. rewrite IH. by destruct st.
Qed.

(** The catch block on a parameter array. *)
Lemma run_report_array {A} e sql params ps st :
  as_array (heap st) params = Some ps ->
  run (report (A:=A) JSON_stringify e sql params) st
  = (with_heap (fun hp => foldl cap_heap hp (summary_of ps)) st,
     inl (mkErr (ekind e)
            (message e ++ "  sql:" ++ sql ++ "  params:"
             ++ JSON_stringify (foldl cap_heap (heap st) (summary_of ps))
                  (SArray (summary_of ps))))).
Proof.
  intros H. unfold report. rewrite run_bind, run_gets. simpl. rewrite H.
  fold (summary_of ps). rewrite run_bind, run_caps. simpl.
  by rewrite run_bind, run_gets.
Qed.

Lemma run_exec_connected h d c type sql arg options st :
  handles st !! h = Some d -> guards_pass d -> _conn d = Some c ->
  run (_exec drv JSON_stringify h type sql arg options) st
  = let st1 := with_handles (alter (with_currentSql (Some sql)) h) st in
    let params := normalize (heap st) (default_params arg) in
    and_finally
      (or_handle (run (statement_of drv h type sql params options) st1)
         (fun e => run (report JSON_stringify e sql params)))
      (run (update h (with_currentSql None))).
Proof.
  intros H [Hcur Hmust] Hc. unfold _exec.
  rewrite run_bind, (run_this _ _ _ H). simpl. rewrite Hcur, Hmust.
  rewrite run_try_finally. f_equal.
  rewrite run_bind, run_try_catch, run_bind, (run_this _ _ _ H). simpl. rewrite Hc.
  rewrite run_ret. simpl. rewrite run_bind, run_update. simpl.
  rewrite run_bind, run_gets. simpl. by rewrite run_try_catch.
Qed.

(** ** An empty batch *)


(** ** The example of the template expansion *)

Lemma report_trace {A} e sql params st :
  trace (run (report (A:=A) JSON_stringify e sql params) st).1 = trace st.
Proof.
  destruct (as_array (heap st) params) as [ps |] eqn:E.
  - by rewrite (run_report_array _ _ _ _ _ E).
  - unfold report. rewrite run_bind, run_gets. simpl. rewrite E.
    destruct params as [[] |]; try done.
    by destruct (_ <? _)%nat.
Qed.

(** What the [catch] and [finally] blocks add to the trace: nothing. *)
Lemma exec_wrap_trace (x : State W * (Err + Result)) h sql params :
  trace (and_finally (or_handle x (fun e => run (report JSON_stringify e sql params)))
           (run (update h (with_currentSql None)))).1
  = trace x.1.
Proof.
  assert (Hf : forall y : State W * (Err + Result),
             trace (and_finally y (run (update h (with_currentSql None)))).1 = trace y.1).
  { intros [st2 r2]. unfold and_finally. by rewrite run_update. }
  rewrite Hf. destruct x as [st1 [e | r]]; [| done].
  apply report_trace.
Qed.

Lemma run_one_statement {A} h d c type sql ps (g : Response -> A) st :
  handles st !! h = Some d -> _conn d = Some c ->
  run (rt <- await (conn_type drv h type sql ps) ;; ret (g rt)) st
  = (answered st (statement drv type c sql ps (heap st) (world st)).1
       (Statement type c sql ps)
       (reply_of Responded (statement drv type c sql ps (heap st) (world st)).2),
     match (statement drv type c sql ps (heap st) (world st)).2 with
     | inl e => inl e
     | inr rt => inr (g rt)
     end).
Proof.
  intros H Hc. rewrite run_bind, run_await, (run_conn_type _ _ _ _ _ _ _ H Hc), run_ask.
  by destruct (statement drv type c sql ps (heap st) (world st)) as [w [e | rt]].
Qed.

Lemma lookup_marked h d f st :
  handles st !! h = Some d -> handles (with_handles (alter f h) st) !! h = Some (f d).
Proof. intros H. simpl. by rewrite lookup_alter_eq, H. Qed.

Lemma template_expansion_connected h d c type a0 options st :
  handles st !! h = Some d -> guards_pass d -> _conn d = Some c ->
  flat_params (heap st) a0 \/ nested_params (heap st) a0 ->
  regexp options = None -> maxRow options = None ->
  sql_equiv expanded_statement spec_expansion = true
  /\ exists reply,
      trace (run (_exec drv JSON_stringify h type separated_statement (VRef a0) options) st).1
      = (trace st
         ++ [(Statement type c expanded_statement [VNum 0; VNum 1; VNum 2; VNum 3; VNum 4],
              reply)])%list.
Proof.
  intros H Hg Hc Hshape Hre Hmax. split; [reflexivity |].
  rewrite (run_exec_connected _ _ _ _ _ _ _ _ H Hg Hc). cbv zeta.
  rewrite exec_wrap_trace.
  assert (Ha0 : exists a1, heap st !! a0 = Some [VNum 0; VRef a1] /\ is_Some (heap st !! a1)).
  { destruct Hshape as [(a1 & ? & ?) | (a1 & ? & ? & ? & ? & ?)]; eauto. }
  destruct Ha0 as (a1 & Ha0 & Ha1).
  assert (Hn : normalize (heap st) (default_params (VRef a0)) = Caller (VRef a0)).
  { simpl. by rewrite Ha0, bool_decide_eq_true_2. }
  rewrite Hn. unfold statement_of. rewrite run_bind, run_gets. simpl.
  rewrite Ha0. simpl. rewrite bool_decide_eq_true_2 by done. simpl.
  rewrite Hre, Hmax. simpl.
  change (Str.search Str.default_regexp separated_statement)
    with (Some ["{(id > ? AND a < ?)} OR ..."; "(id > ? AND a < ?)"; " OR "]).
  cbv iota beta.
  change (Str.count "?" "{(id > ? AND a < ?)} OR ...") with 2.
  change (Str.insert_or_replace separated_statement) with false.
  pose proof (lookup_marked h d (with_currentSql (Some separated_statement)) st H) as H1.
  destruct Hshape as [(a1' & E0 & E1) | (a1' & a2 & a3 & E0 & E1 & E2 & E3)];
    rewrite Ha0 in E0; injection E0 as <-; rewrite E1.
  - simpl. change (realSql_of _ _ _ _ 2) with expanded_statement.
    rewrite (run_one_statement _ _ c _ _ _ _ _ H1 Hc). simpl. eauto.
  - unfold patternNum_of. simpl. rewrite E2, E3. simpl.
    rewrite ?bool_decide_eq_true_2 by done. simpl.
    change (realSql_of _ _ _ _ 2) with expanded_statement.
    rewrite (run_one_statement _ _ c _ _ _ _ _ H1 Hc). simpl. eauto.
Qed.

(** ** The batches of the specification *)




Lemma patternNum_length hp p ds N :
  patternNum_of hp p ds = Some N ->
  length ds = N * (if is2d_of hp ds then 1 else p).
Proof.
  unfold patternNum_of. fold (is2d_of hp ds). destruct (is2d_of hp ds).
  - intros [= <-]. lia.
  - unfold whole_quotient. destruct (p =? 0)%nat eqn:Ep; [done |].
    destruct (length ds mod p =? 0)%nat eqn:E; [| done].
    intros [= <-]. apply Nat.eqb_eq in E. apply Nat.Div0.div_exact in E. lia.
Qed.



(** ** Batches *)

Lemma serve_app c l1 l2 st :
  serve drv c (l1 ++ l2) st
  = match serve drv c l1 st with
    | (st1, inr fs1) =>
        match serve drv c l2 st1 with
        | (st2, inr fs2) => (st2, inr (fs1 ++ fs2)%list)
        | (st2, inl e) => (st2, inl e)
        end
    | (st1, inl e) => (st1, inl e)
    end.
Proof.
  revert st. induction l1 as [| [[type sql] params] l1 IH]; intros st; simpl.
  - by destruct (serve drv c l2 st) as [st2 [e | fs2]].
  - destruct (statement drv type c sql params (heap st) (world st)) as [w [e | rt]]; [done |].
    rewrite IH. destruct (serve drv c l1 _) as [st1 [e | fs1]]; [done |].
    by destruct (serve drv c l2 st1) as [st2 [e | fs2]].
Qed.

Lemma serve_frame c calls st :
  handles (serve drv c calls st).1 = handles st /\ heap (serve drv c calls st).1 = heap st.
Proof.
  revert st. induction calls as [| [[type sql] params] calls IH]; intros st; simpl; [done |].
  destruct (statement drv type c sql params (heap st) (world st)) as [w [e | rt]]; [done |].
  specialize (IH (answered st w (Statement type c sql params) (reply_of Responded (inr rt)))).
  by destruct (serve drv c calls _) as [st2 [e | fs]].
Qed.

(** The loop of [_exec] sends the full batches in order. *)
Lemma run_batches h d c type realSql leftParams rightParams data ds dataNum k i results st :
  handles st !! h = Some d -> _conn d = Some c -> elems (heap st) data = Some ds ->
  run (batches drv h type realSql leftParams rightParams data dataNum k i results) st
  = match serve drv c
            (map (fun j => (type, realSql,
                            (leftParams
                             ++ spread (heap st) (slice ds (j * dataNum) ((j + 1) * dataNum))
                             ++ rightParams)%list))
               (seq i k)) st with
    | (st1, inr fs) => (st1, inr (results ++ fs)%list)
    | (st1, inl e) => (st1, inl e)
    end.
Proof.
  revert i results st. induction k as [| k IH]; intros i results st H Hc Hd; simpl.
  - by rewrite run_ret, app_nil_r.
  - rewrite run_bind, run_gets. simpl. rewrite Hd.
    rewrite run_bind, run_await, (run_conn_type _ _ _ _ _ _ _ H Hc), run_ask.
    destruct (statement drv type c realSql _ (heap st) (world st)) as [w [e | rt]]; simpl; [done |].
    rewrite IH by done. simpl.
    destruct (serve drv c _ _) as [st1 [e | fs]]; [done |].
    by rewrite <- app_assoc.
Qed.


(** ** The store outside the [catch] block *)

#[local] Instance same_heap_preorder : PreOrder (same_heap (W:=W)).
Proof. split; [done |]. intros x y z. unfold same_heap. congruence. Qed.

Ltac keep lem := apply lem; try (by apply _).

Lemma keeps_this {R : relation (State W)} `{!PreOrder R} h : keeps R (this h).
Proof.
  unfold this. keep @keeps_bind; [keep @keeps_gets |]. intros hs.
  destruct (hs !! h); [keep @keeps_ret | keep @keeps_throw].
Qed.

Lemma keeps_the_conn {R : relation (State W)} `{!PreOrder R} h : keeps R (the_conn h).
Proof.
  unfold the_conn. keep @keeps_bind; [keep @keeps_this |]. intros d.
  destruct (_conn d); [keep @keeps_ret | keep @keeps_throw].
Qed.

Lemma keeps_ask {R : relation (State W)} {A} c (f : W -> W * (Err + A)) show :
  (forall st w r, R st (answered st w c r)) -> keeps R (ask c f show).
Proof. intros H st. rewrite run_ask. apply H. Qed.

Ltac frame :=
  repeat first
    [ keep @keeps_this | keep @keeps_the_conn
    | keep @keeps_ret | keep @keeps_throw | keep @keeps_gets
    | keep @keeps_await
    | keep @keeps_bind; [| intros ?]
    | apply keeps_ask; by intros
    | apply keeps_modify; by intros
    | match goal with
      | |- keeps _ (match ?x with _ => _ end) => destruct x
      | |- keeps _ (if ?x then _ else _) => destruct x
      end ].

Lemma init_same_heap h : keeps same_heap (_init drv h).
Proof.
  unfold _init, update, mysql_createPool, pool_getConnection, conn_command, call_lazyInit,
    type_error.
  frame.
Qed.

Lemma conn_type_same_heap h type sql ps : keeps same_heap (conn_type drv h type sql ps).
Proof. unfold conn_type, conn_statement. frame. Qed.

Lemma batches_same_heap h type realSql l r data dataNum k i results :
  keeps same_heap (batches drv h type realSql l r data dataNum k i results).
Proof.
  revert i results. induction k as [| k IH]; intros i results; simpl.
  - frame.
  - unfold type_error. frame; first [apply conn_type_same_heap | apply IH].
Qed.

Lemma statement_of_same_heap h type sql params options :
  keeps same_heap (statement_of drv h type sql params options).
Proof.
  unfold statement_of, type_error.
  frame; try apply conn_type_same_heap; try apply batches_same_heap.
Qed.

(** ** The parameters of a failing call *)

Lemma cap_heap_other hp d b : d <> VRef b -> cap_heap hp d !! b = hp !! b.
Proof.
  intros Hd. unfold cap_heap. destruct d as [| | | | | | a]; try done.
  destruct (hp !! a) as [l |] eqn:E; [| done].
  destruct (5 <? length l)%nat; [| done].
  rewrite lookup_insert_ne; [done | congruence].
Qed.

Lemma cap_heap_hit hp b old :
  hp !! b = Some old -> (5 < length old)%nat ->
  exists cur, cap_heap hp (VRef b) !! b = Some cur /\ is_capped old cur.
Proof.
  intros E Hlen. unfold cap_heap. rewrite E.
  apply Nat.ltb_lt in Hlen. rewrite Hlen. rewrite lookup_insert_eq.
  eexists. split; [done |]. by eexists.
Qed.

Lemma cap_heap_stays hp d b old cur :
  (5 < length old)%nat -> hp !! b = Some cur -> is_capped old cur ->
  exists cur', cap_heap hp d !! b = Some cur' /\ is_capped old cur'.
Proof.
  intros Hlen E [note ->].
  destruct (decide (d = VRef b)) as [-> | Hne].
  - unfold cap_heap. rewrite E.
    destruct (5 <? _)%nat; [| by eexists; split; [| eexists]].
    rewrite lookup_insert_eq. eexists. split; [done |].
    rewrite take_app_le by (rewrite length_take; lia).
    rewrite take_take. by eexists.
  - rewrite cap_heap_other by done. eexists. split; [done | by eexists].
Qed.

Lemma caps_stay l hp b old cur :
  (5 < length old)%nat -> hp !! b = Some cur -> is_capped old cur ->
  exists cur', foldl cap_heap hp l !! b = Some cur' /\ is_capped old cur'.
Proof.
  intros Hlen. revert hp cur. induction l as [| d l IH]; intros hp cur E Hc; simpl.
  - eauto.
  - destruct (cap_heap_stays hp d b old cur Hlen E Hc) as (cur' & E' & Hc'). eauto.
Qed.

(** An array of more than five elements that the loop of the [catch] block
    meets is cut down, whatever else the loop meets. *)
Lemma caps_capped l hp b old :
  hp !! b = Some old -> (5 < length old)%nat -> VRef b ∈ l ->
  exists cur, foldl cap_heap hp l !! b = Some cur /\ is_capped old cur.
Proof.
  intros E Hlen. revert hp E. induction l as [| d l IH]; intros hp E Hin; simpl.
  - by apply elem_of_nil in Hin.
  - destruct (decide (d = VRef b)) as [-> | Hne].
    + destruct (cap_heap_hit hp b old E Hlen) as (cur & E' & Hc).
      by apply (caps_stay l _ b old cur).
    + apply IH.
      * by rewrite cap_heap_other.
      * apply elem_of_cons in Hin as [? | ?]; [congruence | done].
Qed.

Lemma summary_of_elem ps i v : (i < 50)%nat -> ps !! i = Some v -> v ∈ summary_of ps.
Proof.
  intros Hi E. unfold summary_of.
  assert (v ∈ take 50 ps).
  { apply list_elem_of_lookup. exists i. by rewrite lookup_take_lt. }
  destruct (_ <? _)%nat; [apply elem_of_app; by left | done].
Qed.

(** A call that the guards let through and that fails leaves the store as
    the loop of the [catch] block makes it. *)
Lemma failing_exec_heap h d type sql a0 ps options st st' e :
  handles st !! h = Some d -> guards_pass d -> heap st !! a0 = Some ps ->
  run (_exec drv JSON_stringify h type sql (VRef a0) options) st = (st', inl e) ->
  heap st' = foldl cap_heap (heap st) (summary_of ps).
Proof.
  intros H [Hcur Hmust] Ha0. unfold _exec.
  rewrite run_bind, (run_this _ _ _ H). simpl. rewrite Hcur, Hmust.
  rewrite run_try_finally, run_bind, run_try_catch.
  set (init := bind (this h) _).
  assert (Hinit : keeps same_heap init).
  { unfold init. frame; apply init_same_heap. }
  specialize (Hinit st). unfold same_heap in Hinit.
  destruct (run init st) as [s1 [e1 | []]]; simpl in *.
  - erewrite run_report_array by (simpl; by rewrite Hinit).
    simpl. rewrite ?run_update. intros [= <- <-]. simpl. by rewrite Hinit.
  - rewrite run_bind, run_update. simpl. rewrite run_bind, run_gets. simpl.
    rewrite Hinit. rewrite Ha0, bool_decide_eq_true_2 by done.
    rewrite run_try_catch.
    pose proof (statement_of_same_heap h type sql (Caller (VRef a0)) options
                  (with_handles (alter (with_currentSql (Some sql)) h) s1)) as Hbody.
    unfold same_heap in Hbody. simpl in Hbody.
    destruct (run (statement_of _ _ _ _ _ _) _) as [s2 [e2 | r]]; simpl in *.
    + erewrite run_report_array by (simpl; by rewrite Hbody, Hinit).
      simpl. rewrite ?run_update. intros [= <- <-]. simpl. by rewrite Hbody, Hinit.
    + rewrite ?run_update. by intros [= <- ?].
Qed.

(** C8: when [_exec] fails past its guards, every array of more than five
    elements among the first fifty parameters of the caller is cut down in
    the caller's own store to its first five elements followed by a note;
    an array of more than six elements is thereby changed. *)
Theorem failing_exec_truncates_params h d type sql a0 ps options st st' e i b l :
  handles st !! h = Some d -> guards_pass d -> heap st !! a0 = Some ps ->
  run (_exec drv JSON_stringify h type sql (VRef a0) options) st = (st', inl e) ->
  (i < 50)%nat -> ps !! i = Some (VRef b) ->
  heap st !! b = Some l -> (5 < length l)%nat ->
  (exists note, heap st' !! b = Some (take 5 l ++ [VStr note])%list)
  /\ ((6 < length l)%nat -> heap st' !! b <> heap st !! b).
Proof.
  intros H Hg Ha0 Hrun Hi Hb Hl Hlen.
  rewrite (failing_exec_heap _ _ _ _ _ _ _ _ _ _ H Hg Ha0 Hrun).
  destruct (caps_capped (summary_of ps) (heap st) b l Hl Hlen) as (cur & E & note & ->).
  { by apply (summary_of_elem ps i). }
  split; [by eexists |].
  intros H6. rewrite E, Hl. intros [= Heq].
  apply (f_equal length) in Heq. rewrite length_app, length_take in Heq.
  change (length [VStr note]) with 1 in Heq. lia.
Qed.

(** ** Transactions on one handle and its bound handles *)

#[local] Instance same_links_preorder : PreOrder (same_links (W:=W)).
Proof.
  split; [done |]. intros x y z Hxy Hyz k. by rewrite Hyz, Hxy.
Qed.

Lemma same_links_begin h b st : same_links st (with_handles (alter (with_begin b) h) st).
Proof.
  intros x. simpl. destruct (decide (x = h)) as [-> | Hne].
  - rewrite lookup_alter_eq. by destruct (handles st !! h).
  - by rewrite lookup_alter_ne.
Qed.

Lemma same_links_lookup h d st st' :
  same_links st st' -> handles st !! h = Some d ->
  exists d', handles st' !! h = Some d' /\ links d' = links d.
Proof.
  intros HR H. specialize (HR h). rewrite H in HR.
  destruct (handles st' !! h) as [d' |]; [| done]. simpl in HR.
  exists d'. split; [done | congruence].
Qed.

Ltac links_frame :=
  repeat first
    [ keep @keeps_this | keep @keeps_the_conn
    | keep @keeps_ret | keep @keeps_throw | keep @keeps_gets
    | keep @keeps_await
    | keep @keeps_for_of; intros ?
    | keep @keeps_bind; [| intros ?]
    | apply keeps_ask; by intros
    | apply keeps_modify; intros ?; apply same_links_begin
    | match goal with
      | |- keeps _ (match ?x with _ => _ end) => destruct x
      | |- keeps _ (if ?x then _ else _) => destruct x
      end ].


Lemma rollback_same_links depth h : keeps same_links (rollback drv depth h).
Proof.
  revert h. induction depth as [| depth IH]; intros h; simpl.
  - unfold unbounded. links_frame.
  - unfold update, conn_command. links_frame; apply IH.
Qed.



(** ** [rollback] and [release] *)

#[local] Instance rolled_preorder : PreOrder (rolled (W:=W)).
Proof.
  split.
  - intros st. split; [done |]. exists []. split; [by rewrite app_nil_r |].
    intros x d d' H H'. rewrite H in H'. injection H' as <-. split; [done | congruence].
  - intros s1 s2 s3 [Hl1 (evs1 & Ht1 & H1)] [Hl2 (evs2 & Ht2 & H2)].
    split; [by etrans |]. exists (evs1 ++ evs2)%list.
    split; [by rewrite Ht2, Ht1, app_assoc |].
    intros x d d3 Hx Hx3.
    destruct (same_links_lookup x d s1 s2 Hl1 Hx) as (d2 & Hx2 & Hl).
    destruct (H1 x d d2 Hx Hx2) as [Hd1 Hf1]. destruct (H2 x d2 d3 Hx2 Hx3) as [Hd2 Hf2].
    split; [auto |]. intros c Hb Hb3 Hc. apply elem_of_app.
    destruct (_begin d2) eqn:Hb2.
    + right. apply Hf2; [done | done |]. injection Hl. congruence.
    + left. by apply Hf1.
Qed.

#[local] Instance calmer_preorder : PreOrder (calmer (W:=W)).
Proof.
  split.
  - intros st x d H. eauto.
  - intros s1 s2 s3 H12 H23 x d Hx.
    destruct (H12 x d Hx) as (d2 & Hx2 & Hb2 & Hf2).
    destruct (H23 x d2 Hx2) as (d3 & Hx3 & Hb3 & Hf3).
    exists d3. split; [done |]. split; [congruence | auto].
Qed.

Lemma rolled_calmer st st' : rolled st st' -> calmer st st'.
Proof.
  intros [Hl (evs & _ & Hf)] x d Hx.
  destruct (same_links_lookup x d st st' Hl Hx) as (d' & Hx' & Hl').
  exists d'. split; [done |]. split; [injection Hl'; congruence |].
  by apply (Hf x d d').
Qed.

Lemma rolled_answered st w c r : rolled st (answered st w c r).
Proof.
  split; [done |]. exists [(c, r)]. split; [done |].
  intros x d d' H H'. simpl in H'. rewrite H in H'. injection H' as <-.
  split; [done | congruence].
Qed.

(** The end of [rollback]: the connection of the handle rolls back if the
    flag is up, and the flag comes down. *)
Lemma rollback_own_rolled h :
  keeps rolled
    (d <- this h ;;
     (match _conn d with
      | Some c => if _begin d then await (conn_command drv Rollback c) else ret tt
      | None => ret tt
      end) ;;
     update h (with_begin false)).
Proof.
  intros st. rewrite run_bind.
  destruct (handles st !! h) as [d |] eqn:H.
  2: { unfold this. rewrite run_bind, run_gets. simpl. by rewrite H. }
  rewrite (run_this _ _ _ H). simpl. rewrite run_bind.
  assert (Hdown : forall evs, (forall c, _conn d = Some c -> _begin d = true ->
                                (Command Rollback c, Finished) ∈ evs) ->
            forall s, handles s = handles st -> trace s = (trace st ++ evs)%list ->
            rolled st (with_handles (alter (with_begin false) h) s)).
  { intros evs Hev s Hs Ht. split.
    - etrans; [| apply same_links_begin]. intros x. by rewrite Hs.
    - exists evs. split; [done |]. intros x dx dx' Hx Hx'. simpl in Hx'. rewrite Hs in Hx'.
      destruct (decide (x = h)) as [-> | Hne].
      + rewrite lookup_alter_eq, Hx in Hx'. injection Hx' as <-.
        rewrite H in Hx. injection Hx as <-. split; [done |]. intros c ? _ ?. by apply Hev.
      + rewrite lookup_alter_ne, Hx in Hx' by done. injection Hx' as <-.
        split; [done | congruence]. }
  destruct (_conn d) as [c |] eqn:Hc; [destruct (_begin d) eqn:Hb |].
  - rewrite run_await. unfold conn_command. rewrite run_ask.
    destruct (command drv Rollback c (world st)) as [w [e | []]]; simpl.
    + apply rolled_answered.
    + rewrite ?run_update. simpl.
      apply (Hdown [(Command Rollback c, Finished)]); [| done | done].
      intros c' [= <-] _. by apply list_elem_of_singleton.
  - rewrite run_ret. simpl. rewrite ?run_update. simpl.
    apply (Hdown []); [congruence | done | by rewrite app_nil_r].
  - rewrite run_ret. simpl. rewrite ?run_update. simpl.
    apply (Hdown []); [congruence | done | by rewrite app_nil_r].
Qed.

Lemma rollback_rolled depth h : keeps rolled (rollback drv depth h).
Proof.
  revert h. induction depth as [| depth IH]; intros h; simpl.
  - unfold unbounded. keep @keeps_throw.
  - intros st. rewrite run_bind.
    destruct (handles st !! h) as [d |] eqn:H.
    2: { unfold this. rewrite run_bind, run_gets. simpl. by rewrite H. }
    rewrite (run_this _ _ _ H). simpl.
    assert (Hk : keeps rolled
              (bind (for_of (_bind d) (fun db => await (rollback drv depth db)))
                 (fun _ =>
                    d <- this h ;;
                    (match _conn d with
                     | Some c => if _begin d then await (conn_command drv Rollback c) else ret tt
                     | None => ret tt
                     end) ;;
                    update h (with_begin false)))).
    { keep @keeps_bind.
      - keep @keeps_for_of. intros db. keep @keeps_await. apply IH.
      - intros _. apply rollback_own_rolled. }
    apply Hk.
Qed.

Lemma update_id h d f (t : State W) :
  handles t !! h = Some d -> f d = d -> with_handles (alter f h) t = t.
Proof.
  intros H Hf. destruct t as [w tr dp hs hp]. unfold with_handles. simpl in *. f_equal.
  apply map_eq. intros x. destruct (decide (x = h)) as [-> | Hne].
  - by rewrite lookup_alter_eq, H; simpl; rewrite Hf.
  - by rewrite lookup_alter_ne.
Qed.




Lemma rollback_flag_down depth h st st' :
  run (rollback drv depth h) st = (st', inr tt) ->
  exists d', handles st' !! h = Some d' /\ _begin d' = false.
Proof.
  destruct depth as [| depth]; simpl; [done |].
  rewrite run_bind.
  destruct (run (this h) st) as [s0 [e | d]]; simpl; [done |].
  rewrite run_bind.
  destruct (run (for_of (_bind d) _) s0) as [s1 [e | []]]; simpl; [done |].
  rewrite run_bind.
  destruct (handles s1 !! h) as [d1 |] eqn:H1.
  2: { unfold this. rewrite run_bind, run_gets. simpl. by rewrite H1. }
  rewrite (run_this _ _ _ H1). simpl. rewrite run_bind.
  destruct (run (match _conn d1 with Some _ => _ | None => _ end) s1) as [s2 [e | []]] eqn:Hown;
    simpl; [done |].
  assert (Hs2 : handles s2 = handles s1).
  { destruct (_conn d1) as [c |]; [destruct (_begin d1) |].
    - rewrite run_await in Hown. unfold conn_command in Hown. rewrite run_ask in Hown.
      by injection Hown as <- _.
    - rewrite run_ret in Hown. by injection Hown as <-.
    - rewrite run_ret in Hown. by injection Hown as <-. }
  rewrite ?run_update. intros [= <-]. simpl. rewrite Hs2, lookup_alter_eq, H1.
  by eexists.
Qed.

Lemma release_alone_eq depth h d st :
  handles st !! h = Some d -> _bind d = [] ->
  run (release drv (S depth) h) st = run (release_alone drv h d) st.
Proof.
  intros H Hb. unfold release, release_alone. simpl.
  rewrite !run_bind, run_await, !run_bind, (run_this _ _ _ H). simpl.
  rewrite Hb, run_bind, run_for_of_nil. simpl.
  rewrite run_bind, (run_this _ _ _ H). simpl. rewrite run_bind.
  assert (Hfin : forall s : State W, handles s = handles st ->
            then_run (run (this h) (with_handles (alter (with_begin false) h) s))
              (fun d0 => run match _conn d0 with
                             | Some c0 => bind (await (conn_command drv Release c0))
                                            (fun _ => update h (with_conn None))
                             | None => ret tt
                             end)
            = run (match _conn d with
                   | Some c0 => bind (conn_command drv Release c0)
                                  (fun _ => update h (with_conn None))
                   | None => ret tt
                   end) (with_handles (alter (with_begin false) h) s)).
  { intros s Hs. erewrite run_this; last first.
    { simpl. by rewrite Hs, lookup_alter_eq, H. }
    simpl. destruct (_conn d); [| done]. by rewrite !run_bind, run_await. }
  destruct (_conn d) as [c |] eqn:Hc; [destruct (_begin d) eqn:Hbg |].
  - rewrite run_await, run_bind.
    destruct (run (conn_command drv Rollback c) st) as [s1 [e | []]] eqn:E; simpl; [done |].
    assert (Hs1 : handles s1 = handles st).
    { unfold conn_command in E. rewrite run_ask in E. by injection E as <- _. }
    rewrite run_bind. simpl. rewrite (Hfin s1 Hs1). by repeat (rewrite run_bind; simpl).
  - rewrite run_ret. simpl. rewrite run_bind. simpl. rewrite (Hfin st eq_refl).
    by repeat (rewrite run_bind; simpl).
  - rewrite run_ret. simpl. rewrite run_bind. simpl. by rewrite (Hfin st eq_refl).
Qed.


(** ** The first segment of [_exec] *)

Lemma this_done h d st : handles st !! h = Some d -> this h st = (st, Done (inr d)).
Proof. intros H. unfold this, bind, gets. simpl. by rewrite H. Qed.

Lemma ask_state {A} (c : Call) (f : W -> W * (Err + A)) show st :
  (ask c f show st).1 = answered st (f (world st)).1 c (reply_of show (f (world st)).2).
Proof. unfold ask. by destruct (f (world st)). Qed.

(** A call on a handle with a statement in flight is refused at once, and
    changes nothing. *)
Lemma exec_refused h d cur type sql arg options st :
  handles st !! h = Some d -> executing (_currentSql d) = Some cur ->
  _exec drv JSON_stringify h type sql arg options st
  = (st, Done (inl (mkErr SqlIsExecuting ("Sql is executing: " ++ cur)))).
Proof.
  intros H Hcur. unfold _exec. rewrite (bind_done _ _ _ _ _ (this_done _ _ _ H)).
  by rewrite Hcur.
Qed.

(** The first call on a handle without connection stops in [_init], at the
    creation of the pool or at the lease of the connection, before the
    statement is marked as in flight. *)
Lemma init_suspends h d st :
  handles st !! h = Some d -> _conn d = None ->
  let n := key_of (name (_options d)) in
  exists call w reply,
    suspends (_init drv h) st (answered st w call reply)
    /\ call = match dbPools st !! n with
              | None => CreatePool (pool_options (_options d))
              | Some p => GetConnection p
              end.
Proof.
  intros H Hc n. unfold _init.
  destruct (dbPools st !! n) as [p |] eqn:Hp.
  - eexists (GetConnection p), _, _. split; [| done].
    eapply suspends_bind_r; [by apply this_done |]. rewrite Hc. fold n.
    eapply suspends_bind_r; [reflexivity |]. simpl. rewrite Hp.
    eapply suspends_bind_r; [reflexivity |].
    eapply suspends_bind_r; [reflexivity |]. unfold property. simpl. rewrite Hp.
    apply suspends_bind_l.
    pose proof (suspends_await (pool_getConnection drv p) st) as Hs.
    unfold pool_getConnection in Hs. rewrite ask_state in Hs. exact Hs.
  - eexists (CreatePool _), _, _. split; [| done].
    eapply suspends_bind_r; [by apply this_done |]. rewrite Hc. fold n.
    eapply suspends_bind_r; [reflexivity |]. simpl. rewrite Hp.
    apply suspends_bind_l. apply suspends_bind_l.
    pose proof (suspends_await (mysql_createPool drv (pool_options (_options d))) st) as Hs.
    unfold mysql_createPool in Hs. rewrite ask_state in Hs. exact Hs.
Qed.

Lemma exec_first_use_suspends h d type sql arg options st :
  handles st !! h = Some d -> guards_pass d -> _conn d = None ->
  exists call w reply,
    suspends (_exec drv JSON_stringify h type sql arg options) st (answered st w call reply)
    /\ call = match dbPools st !! key_of (name (_options d)) with
              | None => CreatePool (pool_options (_options d))
              | Some p => GetConnection p
              end.
Proof.
  intros H [Hcur Hmust] Hc.
  destruct (init_suspends h d st H Hc) as (call & w & reply & [k Hs] & Hcall).
  exists call, w, reply. split; [| done].
  unfold _exec. eapply suspends_bind_r; [by apply this_done |]. rewrite Hcur, Hmust.
  apply suspends_try_finally, suspends_bind_l, suspends_try_catch.
  eapply suspends_bind_r; [by apply this_done |]. rewrite Hc.
  pose proof (suspends_await (_init drv h) st) as Ha. by rewrite Hs in Ha.
Qed.

(** On a handle without connection, a second call made while the first is
    suspended is not refused: it is let in and suspends in its turn. *)
Lemma second_call_let_in h d type1 sql1 arg1 options1 type2 sql2 arg2 options2 st :
  handles st !! h = Some d -> guards_pass d -> _conn d = None ->
  exists st1 st2,
    suspends (_exec drv JSON_stringify h type1 sql1 arg1 options1) st st1
    /\ suspends (_exec drv JSON_stringify h type2 sql2 arg2 options2) st1 st2.
Proof.
  intros H Hg Hc.
  destruct (exec_first_use_suspends h d type1 sql1 arg1 options1 st H Hg Hc)
    as (c1 & w1 & r1 & Hs1 & _).
  destruct (exec_first_use_suspends h d type2 sql2 arg2 options2
              (answered st w1 c1 r1) H Hg Hc) as (c2 & w2 & r2 & Hs2 & _).
  eauto.
Qed.

(** Two first uses of one name at once: the second handle does not see the
    pool that the first is creating, and asks for another. *)
Lemma two_first_uses_two_pools h1 d1 h2 d2 type1 sql1 arg1 options1 type2 sql2 arg2 options2 st :
  handles st !! h1 = Some d1 -> guards_pass d1 -> _conn d1 = None ->
  handles st !! h2 = Some d2 -> guards_pass d2 -> _conn d2 = None ->
  key_of (name (_options d1)) = key_of (name (_options d2)) ->
  dbPools st !! key_of (name (_options d1)) = None ->
  exists st1 st2 r1 r2,
    suspends (_exec drv JSON_stringify h1 type1 sql1 arg1 options1) st st1
    /\ suspends (_exec drv JSON_stringify h2 type2 sql2 arg2 options2) st1 st2
    /\ trace st2
       = (trace st ++ [(CreatePool (pool_options (_options d1)), r1);
                       (CreatePool (pool_options (_options d2)), r2)])%list.
Proof.
  intros H1 Hg1 Hc1 H2 Hg2 Hc2 Hn Hp.
  destruct (exec_first_use_suspends h1 d1 type1 sql1 arg1 options1 st H1 Hg1 Hc1)
    as (c1 & w1 & r1 & Hs1 & E1).
  destruct (exec_first_use_suspends h2 d2 type2 sql2 arg2 options2
              (answered st w1 c1 r1) H2 Hg2 Hc2) as (c2 & w2 & r2 & Hs2 & E2).
  simpl in E2. rewrite <- Hn, Hp in E2. rewrite Hp in E1. subst c1 c2.
  eexists _, _, r1, r2. split; [exact Hs1 |]. split; [exact Hs2 |].
  simpl. by rewrite <- app_assoc.
Qed.

(** The marker is cleared on the way out of a call that the guards have let
    through, whatever its outcome. *)
Lemma exec_clears_marker h d type sql arg options st d' :
  handles st !! h = Some d -> guards_pass d ->
  handles (run (_exec drv JSON_stringify h type sql arg options) st).1 !! h = Some d' ->
  _currentSql d' = None.
Proof.
  intros H [Hcur Hmust]. unfold _exec. rewrite run_bind, (run_this _ _ _ H). simpl.
  rewrite Hcur, Hmust, run_try_finally.
  destruct (run (bind _ _) st) as [s1 r]. unfold and_finally. rewrite run_update. simpl.
  rewrite lookup_alter_eq. destruct (handles s1 !! h) as [d1 |]; [| done].
  by intros [= <-].
Qed.

(** ** The lease of the connection *)

#[local] Instance same_flags_preorder : PreOrder (same_flags (W:=W)).
Proof.
  split; [done |]. intros x y z Hxy Hyz k. by rewrite Hyz, Hxy.
Qed.

Lemma same_flags_conn h c st : same_flags st (with_handles (alter (with_conn c) h) st).
Proof.
  intros x. simpl. destruct (decide (x = h)) as [-> | Hne].
  - rewrite lookup_alter_eq. by destruct (handles st !! h).
  - by rewrite lookup_alter_ne.
Qed.

Lemma init_same_flags h : keeps same_flags (_init drv h).
Proof.
  unfold _init, update, mysql_createPool, pool_getConnection, conn_command, call_lazyInit,
    type_error.
  repeat first
    [ keep @keeps_this | keep @keeps_the_conn
    | keep @keeps_ret | keep @keeps_throw | keep @keeps_gets
    | keep @keeps_await
    | keep @keeps_bind; [| intros ?]
    | apply keeps_ask; by intros
    | apply keeps_modify; intros ?; first [apply same_flags_conn | done]
    | match goal with
      | |- keeps _ (match ?x with _ => _ end) => destruct x
      | |- keeps _ (if ?x then _ else _) => destruct x
      end ].
Qed.

Lemma leased_connected h d c st :
  handles st !! h = Some d -> _conn d = Some c -> leased drv h st st c.
Proof.
  intros H Hc. split; [| eauto].
  rewrite run_bind, (run_this _ _ _ H). simpl. by rewrite Hc.
Qed.

(** The lease leaves the store, and the flags of the handle, as they were. *)
Lemma leased_frame h d c st s0 :
  handles st !! h = Some d -> guards_pass d -> leased drv h st s0 c ->
  heap s0 = heap st
  /\ exists d0, handles s0 !! h = Some d0 /\ guards_pass d0 /\ _conn d0 = Some c.
Proof.
  intros H Hg [Hrun (d0 & H0 & Hc0)].
  assert (Hk : keeps (fun st st' : State W => same_heap st st' /\ same_flags st st')
                 (d <- this h ;;
                  match _conn d with
                  | Some _ => ret tt
                  | None => await (_init drv h)
                  end)).
  { intros s. split.
    - assert (Hh : keeps same_heap
                     (d <- this h ;;
                      match _conn d with
                      | Some _ => ret tt
                      | None => await (_init drv h)
                      end)) by (frame; apply init_same_heap).
      apply Hh.
    - assert (Hf : keeps same_flags
                     (d <- this h ;;
                      match _conn d with
                      | Some _ => ret tt
                      | None => await (_init drv h)
                      end)).
      { keep @keeps_bind; [keep @keeps_this |]. intros d1.
        destruct (_conn d1); [keep @keeps_ret | keep @keeps_await; apply init_same_flags]. }
      apply Hf. }
  specialize (Hk st). rewrite Hrun in Hk. simpl in Hk. destruct Hk as [Hheap Hflags].
  split; [done |]. exists d0. split; [done |]. split; [| done].
  specialize (Hflags h). rewrite H, H0 in Hflags. simpl in Hflags.
  destruct Hg as [Hcur Hmust]. unfold guards_pass.
  assert (_currentSql d0 = _currentSql d /\ _begin d0 = _begin d /\ _options d0 = _options d)
    as (-> & -> & ->) by (injection Hflags; auto).
  done.
Qed.

(** Past the lease, the call goes on as a call on the connected handle. *)
Lemma exec_after_lease h d c type sql arg options st s0 :
  handles st !! h = Some d -> guards_pass d -> leased drv h st s0 c ->
  run (_exec drv JSON_stringify h type sql arg options) st
  = run (_exec drv JSON_stringify h type sql arg options) s0.
Proof.
  intros H Hg Hl.
  destruct (leased_frame h d c st s0 H Hg Hl) as (Hheap & d0 & H0 & Hg0 & Hc0).
  rewrite (run_exec_connected h d0 c type sql arg options s0 H0 Hg0 Hc0).
  destruct Hl as [Hrun _]. destruct Hg as [Hcur Hmust]. unfold _exec.
  rewrite run_bind, (run_this _ _ _ H). simpl. rewrite Hcur, Hmust.
  rewrite run_try_finally. f_equal.
  rewrite run_bind, run_try_catch, Hrun. simpl.
  rewrite run_bind, run_update. simpl.
  rewrite run_bind, run_gets. simpl. by rewrite run_try_catch.
Qed.

(** A lease that ends well has connected the handle. *)
Lemma lease_connects h d st s0 :
  handles st !! h = Some d ->
  run (d <- this h ;;
       match _conn d with
       | Some _ => ret tt
       | None => await (_init drv h)
       end) st = (s0, inr tt) ->
  exists c, leased drv h st s0 c.
Proof.
  intros H Hrun.
  enough (exists d0 c, handles s0 !! h = Some d0 /\ _conn d0 = Some c) as (d0 & c & ? & ?).
  { exists c. split; [done | eauto]. }
  revert Hrun. rewrite run_bind, (run_this _ _ _ H). simpl.
  destruct (_conn d) as [c |] eqn:Hc.
  { rewrite run_ret. intros [= <-]. eauto. }
  rewrite run_await. unfold _init. rewrite run_bind, (run_this _ _ _ H). simpl. rewrite Hc.
  rewrite run_bind, run_gets. simpl. rewrite run_bind.
  set (n := key_of (name (_options d))).
  destruct (run (match dbPools st !! n with Some _ => _ | None => _ end) st)
    as [s1 [e | proto]] eqn:Hpool; simpl; [done |].
  assert (H1 : handles s1 = handles st).
  { destruct (dbPools st !! n).
    - rewrite run_ret in Hpool. by injection Hpool as <-.
    - rewrite run_bind, run_await in Hpool. unfold mysql_createPool in Hpool.
      rewrite run_ask in Hpool.
      destruct (createPool drv _ (world st)) as [w [e | p]]; simpl in Hpool; [done |].
      rewrite ?run_bind, ?run_modify, ?run_ret in Hpool. simpl in Hpool.
      rewrite ?run_ret in Hpool. by injection Hpool as <-. }
  rewrite run_bind, run_gets. simpl.
  destruct (property n proto (dbPools s1)) as [p |]; [| done].
  rewrite run_bind, run_await. unfold pool_getConnection. rewrite run_ask.
  destruct (getConnection drv p (world s1)) as [w [e | c]]; simpl; [done |].
  rewrite run_bind, run_update. simpl.
  set (s2 := with_handles _ _).
  assert (H2 : handles s2 !! h = Some (with_conn (Some c) d)).
  { unfold s2. simpl. by rewrite H1, lookup_alter_eq, H. }
  rewrite run_bind, (run_this _ _ _ H2). simpl. rewrite run_bind.
  destruct (run (if _begin d then _ else _) s2) as [s3 [e | []]] eqn:Hbegin; simpl; [done |].
  assert (H3 : handles s3 = handles s2).
  { destruct (_begin d).
    - rewrite run_bind, (run_the_conn _ _ c _ H2 eq_refl) in Hbegin. simpl in Hbegin.
      rewrite run_await in Hbegin. unfold conn_command in Hbegin. rewrite run_ask in Hbegin.
      by injection Hbegin as <- _.
    - rewrite run_ret in Hbegin. by injection Hbegin as <-. }
  assert (H3' : handles s3 !! h = Some (with_conn (Some c) d)) by by rewrite H3.
  rewrite run_bind, (run_this _ _ _ H3'). simpl.
  destruct (_lazyInit d) as [cb |].
  - rewrite run_await. unfold call_lazyInit. rewrite run_ask.
    intros [= <- _]. simpl. eauto.
  - rewrite run_ret. intros [= <-]. eauto.
Qed.

(** ** The claims on the batches, for a connection held or leased *)


(** C2, as the code has it: with the separator written between the closing
    brace and the dots, the statement is expanded to two copies of the
    fragment joined by [ OR ], which differs from the expansion of the
    specification in white space only, and the parameters are flattened to
    [[0, 1, 2, 3, 4]]; the flat and the nested shape of the batch lead to
    the same single call of the driver, on the connection held or leased. *)
Theorem template_expansion_example h d c type a0 options st s0 :
  handles st !! h = Some d -> guards_pass d -> leased drv h st s0 c ->
  flat_params (heap st) a0 \/ nested_params (heap st) a0 ->
  regexp options = None -> maxRow options = None ->
  sql_equiv expanded_statement spec_expansion = true
  /\ exists reply,
      trace (run (_exec drv JSON_stringify h type separated_statement (VRef a0) options) st).1
      = (trace s0
         ++ [(Statement type c expanded_statement [VNum 0; VNum 1; VNum 2; VNum 3; VNum 4],
              reply)])%list.
Proof.
  intros H Hg Hl Hshape Hre Hmax.
  destruct (leased_frame h d c st s0 H Hg Hl) as (Hheap & d0 & H0 & Hg0 & Hc0).
  rewrite (exec_after_lease h d c type separated_statement (VRef a0) options st s0 H Hg Hl).
  rewrite <- Hheap in Hshape.
  by apply (template_expansion_connected h d0 c type a0 options s0).
Qed.





(** ** Further properties of [_exec] *)

Lemma as_array_params_of hp arg :
  as_array hp (normalize hp (default_params arg)) = Some (params_of hp arg).
Proof.
  destruct arg; simpl; try done.
  unfold isArray. destruct (hp !! a) as [l |] eqn:E; simpl; by rewrite ?E.
Qed.

(** Past the guards and the lease, [_exec] is its statement between the
    [catch] and the [finally] block. *)
Lemma run_exec_leased h d c type sql arg options st s0 :
  handles st !! h = Some d -> guards_pass d -> leased drv h st s0 c ->
  heap s0 = heap st
  /\ (exists d1, handles (marked h sql s0) !! h = Some d1 /\ _conn d1 = Some c)
  /\ run (_exec drv JSON_stringify h type sql arg options) st
     = and_finally
         (or_handle
            (run (statement_of drv h type sql (normalize (heap st) (default_params arg)) options)
               (marked h sql s0))
            (fun e => run (report JSON_stringify e sql (normalize (heap st) (default_params arg)))))
         (run (update h (with_currentSql None))).
Proof.
  intros H Hg Hl.
  destruct (leased_frame h d c st s0 H Hg Hl) as (Hheap & d0 & H0 & Hg0 & Hc0).
  split; [done |]. split.
  - exists (with_currentSql (Some sql) d0). split; [| done].
    unfold marked. simpl. by rewrite lookup_alter_eq, H0.
  - rewrite (exec_after_lease h d c type sql arg options st s0 H Hg Hl).
    rewrite (run_exec_connected h d0 c type sql arg options s0 H0 Hg0 Hc0). cbv zeta.
    by rewrite Hheap.
Qed.



Lemma run_plain_statement h d c type sql arg options st s0 w rt :
  handles st !! h = Some d -> guards_pass d -> leased drv h st s0 c ->
  findIndex (isArray (heap st)) (params_of (heap st) arg) = None ->
  statement drv type c sql (params_of (heap st) arg) (heap st) (world s0) = (w, inr rt) ->
  run (_exec drv JSON_stringify h type sql arg options) st
  = (cleared h (answered (marked h sql s0) w
                  (Statement type c sql (params_of (heap st) arg)) (Responded rt)),
     inr (if fields options then RResponse rt else RFirst (first rt))).
Proof.
  intros H Hg Hl Hnone Hst.
  destruct (run_exec_leased h d c type sql arg options st s0 H Hg Hl)
    as (Hheap & (d1 & H1 & Hc1) & ->).
  unfold statement_of. rewrite run_bind, run_gets. simpl. rewrite Hheap.
  rewrite as_array_params_of, Hnone.
  rewrite (run_one_statement _ _ c _ _ _ _ _ H1 Hc1). simpl. rewrite Hheap, Hst. simpl.
  by rewrite ?run_update.
Qed.

(** X1: a call without an array among its parameters sends the statement as
    it is, once, on the connection held or leased: with no argument the
    parameters are the empty array, an array is passed as it is and a lone
    value is wrapped in an array.  When the driver answers, the call returns
    the first component of the response, or the whole response under the
    option [fields], and the handle is free for the next statement. *)
Theorem plain_statement_sent h d c type sql arg options st s0 w rt :
  handles st !! h = Some d -> guards_pass d -> leased drv h st s0 c ->
  findIndex (isArray (heap st)) (params_of (heap st) arg) = None ->
  statement drv type c sql (params_of (heap st) arg) (heap st) (world s0) = (w, inr rt) ->
  run (_exec drv JSON_stringify h type sql arg options) st
  = (cleared h (answered (marked h sql s0) w
                  (Statement type c sql (params_of (heap st) arg)) (Responded rt)),
     inr (if fields options then RResponse rt else RFirst (first rt))).
Proof. apply run_plain_statement. Qed.


(** ** An array among the parameters *)



Lemma run_expanded_once h d c type sql arg options st s0 i data ds p0 p1 p2 N w rt :
  handles st !! h = Some d -> guards_pass d -> leased drv h st s0 c ->
  let ps := params_of (heap st) arg in
  findIndex (isArray (heap st)) ps = Some i ->
  ps !! i = Some data -> elems (heap st) data = Some ds ->
  default (Str.search Str.default_regexp) (regexp options) sql = Some [p0; p1; p2] ->
  patternNum_of (heap st) (Str.count "?" p0) ds = Some N -> (0 < N)%nat ->
  maxRow options = None -> Str.insert_or_replace sql = false ->
  let realSql := realSql_of sql p0 p1 p2 N in
  let allParams := (take i ps ++ spread (heap st) ds ++ drop (i + 1) ps)%list in
  statement drv type c realSql allParams (heap st) (world s0) = (w, inr rt) ->
  run (_exec drv JSON_stringify h type sql arg options) st
  = (cleared h (answered (marked h sql s0) w (Statement type c realSql allParams)
                  (Responded rt)),
     inr (if fields options then RResponse rt else RFirst (first rt))).
Proof.
  intros H Hg Hl ps Hi Hdata Hds Hre HN Hpos Hmax Hins realSql allParams Hst.
  destruct (run_exec_leased h d c type sql arg options st s0 H Hg Hl)
    as (Hheap & (d1 & H1 & Hc1) & ->).
  unfold statement_of. rewrite run_bind, run_gets. simpl. rewrite Hheap.
  rewrite as_array_params_of. fold ps. rewrite Hi, Hre, Hdata. simpl. rewrite Hds. simpl.
  rewrite HN. simpl.
  assert (HNpos : (0 <? N)%nat = true) by (apply Nat.ltb_lt; lia).
  rewrite HNpos, Hmax, Hins. simpl.
  fold realSql. fold allParams.
  rewrite (run_one_statement _ _ c _ _ _ _ _ H1 Hc1). simpl. rewrite Hheap, Hst. simpl.
  by rewrite ?run_update.
Qed.


(** ** [queryOne] and [executeOne] *)

(** C6, as the code has it: where the call sends one statement and no
    batches (no array among the parameters, or a template in a statement
    that is neither an INSERT nor a REPLACE) and the driver answers that
    statement with rows, [queryOne] and [executeOne] return nothing when
    there is no row, the row when there is one, and fail with the
    too-many-rows error when there are two or more. *)
Theorem queryOne_executeOne_rows h d c sql arg st s0 realSql allParams :
  handles st !! h = Some d -> guards_pass d -> leased drv h st s0 c ->
  sent_once (heap st) sql arg realSql allParams ->
  (forall w rows cols,
     statement drv TQuery c realSql allParams (heap st) (world s0)
     = (w, inr (mkResponse (Rows rows) cols)) ->
     run (queryOne drv JSON_stringify h sql arg) st
     = (cleared h (answered (marked h sql s0) w (Statement TQuery c realSql allParams)
                     (Responded (mkResponse (Rows rows) cols))),
        one_row rows))
  /\ (forall w rows cols,
        statement drv TExecute c realSql allParams (heap st) (world s0)
        = (w, inr (mkResponse (Rows rows) cols)) ->
        run (executeOne drv JSON_stringify h sql arg) st
        = (cleared h (answered (marked h sql s0) w (Statement TExecute c realSql allParams)
                        (Responded (mkResponse (Rows rows) cols))),
           one_row rows)).
Proof.
  intros H Hg Hl Hsent.
  assert (Hexec : forall type w rows cols,
            statement drv type c realSql allParams (heap st) (world s0)
            = (w, inr (mkResponse (Rows rows) cols)) ->
            run (_exec drv JSON_stringify h type sql arg no_options) st
            = (cleared h (answered (marked h sql s0) w (Statement type c realSql allParams)
                            (Responded (mkResponse (Rows rows) cols))),
               inr (RFirst (Rows rows)))).
  { intros type w rows cols Hst. unfold sent_once in Hsent. cbv zeta in Hsent.
    destruct (findIndex (isArray (heap st)) (params_of (heap st) arg)) as [i |] eqn:Hi.
    - destruct Hsent as (data & ds & p0 & p1 & p2 & N & Hdata & Hds & Hre & HN & Hpos & Hins
                         & -> & ->).
      exact (run_expanded_once h d c type sql arg no_options st s0 i data ds p0 p1 p2 N w _
               H Hg Hl Hi Hdata Hds Hre HN Hpos eq_refl Hins Hst).
    - destruct Hsent as [-> ->].
      exact (run_plain_statement h d c type sql arg no_options st s0 w _ H Hg Hl Hi Hst). }
  assert (Hone : forall rows, one_of (RFirst (Rows rows)) = one_row rows).
  { intros [| row [| row2 rows]]; reflexivity. }
  split; intros w rows cols Hst.
  - unfold queryOne, query. rewrite run_one, (Hexec _ _ _ _ Hst).
    cbn [then_run]. by rewrite Hone.
  - unfold executeOne, execute. rewrite run_one, (Hexec _ _ _ _ Hst).
    cbn [then_run]. by rewrite Hone.
Qed.

(** ** A lease that fails *)

(** X5: the [catch] block of [_exec] reads the parameters as an array, which
    they become after the lease only.  When the lease fails on a call whose
    parameter is a lone number, boolean or [null], the failure of the lease
    is lost: the caller gets a type error in its place.
    When no parameter is given, the failure of the lease reaches the caller
    with its kind. *)
Theorem lease_failure_masked h d type sql arg options st s1 e :
  handles st !! h = Some d -> guards_pass d -> _conn d = None ->
  run (_init drv h) st = (s1, inl e) ->
  (is_scalar arg = true ->
   exists msg,
     run (_exec drv JSON_stringify h type sql arg options) st
     = (cleared h s1, inl (mkErr TypeError msg)))
  /\ run (_exec drv JSON_stringify h type sql VUndef options) st
     = (cleared h s1,
        inl (mkErr (ekind e) (message e ++ report_note JSON_stringify (heap st) sql []))).
Proof.
  intros H [Hcur Hmust] Hc Hinit.
  pose proof (init_same_heap h st) as Hheap. rewrite Hinit in Hheap.
  unfold same_heap in Hheap. simpl in Hheap.
  assert (Hexec : forall a, exists k,
            run (_exec drv JSON_stringify h type sql a options) st
            = and_finally
                (then_run (run (report (A:=unit) JSON_stringify e sql (default_params a)) s1) k)
                (run (update h (with_currentSql None)))).
  { intros a. eexists. unfold _exec. rewrite run_bind, (run_this _ _ _ H). simpl.
    rewrite Hcur, Hmust.
    rewrite run_try_finally. f_equal.
    rewrite run_bind, run_try_catch, run_bind, (run_this _ _ _ H). simpl. rewrite Hc.
    rewrite run_await, Hinit. simpl. reflexivity. }
  split.
  - intros Hscalar. destruct (Hexec arg) as [k ->].
    exists "params.slice is not a function".
    unfold report. rewrite run_bind, run_gets. simpl.
    destruct arg; try done.
  - destruct (Hexec VUndef) as [k ->]. simpl. by rewrite Hheap.
Qed.

(** ** A capped statement, whatever the driver answers *)

Lemma run_capped h d c type sql arg options st s0 i data ds p0 p1 p2 N :
  handles st !! h = Some d -> guards_pass d -> leased drv h st s0 c ->
  let ps := params_of (heap st) arg in
  findIndex (isArray (heap st)) ps = Some i ->
  ps !! i = Some data -> elems (heap st) data = Some ds ->
  default (Str.search Str.default_regexp) (regexp options) sql = Some [p0; p1; p2] ->
  patternNum_of (heap st) (Str.count "?" p0) ds = Some N -> (0 < N)%nat ->
  negb (bool_decide (is_Some (maxRow options))) && negb (Str.insert_or_replace sql) = false ->
  let m := if (default 1000 (maxRow options) =? 0)%nat then N
           else default 1000 (maxRow options) in
  let perGroup := if is2d_of (heap st) ds then 1 else Str.count "?" p0 in
  run (_exec drv JSON_stringify h type sql arg options) st
  = and_finally
      (or_handle
         (match serve drv c
                  (map (fun b => (batch_type b, realSql_of sql p0 p1 p2 (batch_groups b),
                                  (take i ps ++ spread (heap st) (batch_data b)
                                   ++ drop (i + 1) ps)%list))
                     (batches_of type N m perGroup ds))
                  (marked h sql s0) with
          | (st2, inr fs) => (st2, inr (RBatches fs))
          | (st2, inl e) => (st2, inl e)
          end)
         (fun e => run (report JSON_stringify e sql (normalize (heap st) (default_params arg)))))
      (run (update h (with_currentSql None))).
Proof.
  intros H Hg Hl ps Hi Hdata Hds Hre HN Hpos Hbranch m perGroup.
  destruct (run_exec_leased h d c type sql arg options st s0 H Hg Hl)
    as (Hheap & (d1 & H1 & Hc1) & ->).
  f_equal. f_equal.
  unfold statement_of. rewrite run_bind, run_gets. simpl. rewrite Hheap.
  rewrite as_array_params_of. fold ps. rewrite Hi, Hre, Hdata. simpl. rewrite Hds. simpl.
  rewrite HN. simpl.
  assert (HNpos : (0 <? N)%nat = true) by (apply Nat.ltb_lt; lia).
  rewrite HNpos, Hbranch. simpl. fold m.
  assert (Hds1 : elems (heap (marked h sql s0)) data = Some ds) by (simpl; by rewrite Hheap).
  rewrite run_bind.
  rewrite (run_batches h _ c type _ _ _ data ds _ _ _ _ (marked h sql s0) H1 Hc1 Hds1).
  assert (Hrest : N - m * (N / m) = N mod m) by (rewrite Nat.Div0.mod_eq; lia).
  rewrite !Hrest.
  assert (Hdn : (if is2d_of (heap st) ds then m else m * Str.count "?" p0) = m * perGroup).
  { unfold perGroup. destruct (is2d_of (heap st) ds); lia. }
  assert (Hoff : (if is2d_of (heap st) ds then N / m * m else N / m * m * Str.count "?" p0)
                 = N / m * (m * perGroup)).
  { unfold perGroup. destruct (is2d_of (heap st) ds); by rewrite ?Nat.mul_1_r, ?Nat.mul_assoc. }
  rewrite Hdn, Hoff.
  unfold batches_of. rewrite map_app, map_map, serve_app.
  simpl. rewrite Hheap.
  erewrite (map_ext _ (fun j => (type, realSql_of sql p0 p1 p2 m,
      (take i ps ++ spread (heap st) (take (m * perGroup) (drop (j * (m * perGroup)) ds))
       ++ drop (i + 1) ps)%list))); last first.
  { intros j. unfold slice. generalize (m * perGroup). intros X.
    by replace ((j + 1) * X - j * X) with X by nia. }
  destruct (serve drv c _ (marked h sql s0)) as [st3 [e | fs]] eqn:Efull; [done |].
  simpl.
  destruct (N mod m =? 0)%nat eqn:E0.
  - apply Nat.eqb_eq in E0. rewrite E0. simpl. by rewrite run_ret, !app_nil_r.
  - apply Nat.eqb_neq in E0.
    assert (Hp : (0 <? N mod m)%nat = true) by (apply Nat.ltb_lt; lia).
    rewrite Hp. simpl.
    pose proof (serve_frame c (map (fun j => (type, realSql_of sql p0 p1 p2 m,
      (take i ps ++ spread (heap st) (take (m * perGroup) (drop (j * (m * perGroup)) ds))
       ++ drop (i + 1) ps)%list)) (seq 0 (N / m))) (marked h sql s0)) as [Hh3 Hp3].
    rewrite Efull in Hh3, Hp3. simpl in Hh3, Hp3.
    assert (H3 : handles st3 !! h = Some d1) by by rewrite Hh3.
    rewrite run_bind, run_gets. simpl. rewrite Hp3, Hheap, Hds. simpl.
    rewrite (run_one_statement _ _ c _ _ _ _ _ H3 Hc1). rewrite Hp3, Hheap.
    by destruct (statement drv _ c _ _ (heap st) (world st3)) as [w [e | rt]].
Qed.

Lemma cap_in_force options sql m N :
  effective_cap options sql = Some m ->
  negb (bool_decide (is_Some (maxRow options))) && negb (Str.insert_or_replace sql) = false
  /\ (if (default 1000 (maxRow options) =? 0)%nat then N else default 1000 (maxRow options)) = m.
Proof.
  unfold effective_cap. destruct (maxRow options) as [[| k] |]; simpl.
  - done.
  - by intros [= <-].
  - destruct (Str.insert_or_replace sql); [by intros [= <-] | done].
Qed.

(** X7: under a cap (the one of the caller, or one thousand for an INSERT
    or a REPLACE) that the group count does not reach, the statement is sent
    once, for all the groups; by [query] when there are more than ten
    groups, whichever method was called, by the method called otherwise.
    The call returns an array that holds the one result. *)
Theorem batch_under_cap h d c type sql arg options st s0 i data ds p0 p1 p2 N m w rt :
  handles st !! h = Some d -> guards_pass d -> leased drv h st s0 c ->
  let ps := params_of (heap st) arg in
  findIndex (isArray (heap st)) ps = Some i ->
  ps !! i = Some data -> elems (heap st) data = Some ds ->
  default (Str.search Str.default_regexp) (regexp options) sql = Some [p0; p1; p2] ->
  patternNum_of (heap st) (Str.count "?" p0) ds = Some N ->
  effective_cap options sql = Some m -> (0 < N < m)%nat ->
  let method := if (10 <? N)%nat then TQuery else type in
  let realSql := realSql_of sql p0 p1 p2 N in
  let allParams := (take i ps ++ spread (heap st) ds ++ drop (i + 1) ps)%list in
  statement drv method c realSql allParams (heap st) (world s0) = (w, inr rt) ->
  run (_exec drv JSON_stringify h type sql arg options) st
  = (cleared h (answered (marked h sql s0) w (Statement method c realSql allParams)
                  (Responded rt)),
     inr (RBatches [first rt])).
Proof.
  intros H Hg Hl ps Hi Hdata Hds Hre HN Hcap [Hpos Hlt] method realSql allParams Hst.
  destruct (cap_in_force options sql m N Hcap) as [Hbranch Hm].
  rewrite (run_capped h d c type sql arg options st s0 i data ds p0 p1 p2 N
             H Hg Hl Hi Hdata Hds Hre HN Hpos Hbranch).
  destruct (leased_frame h d c st s0 H Hg Hl) as (Hheap & _).
  rewrite Hm. unfold batches_of.
  rewrite (Nat.div_small N m Hlt), (Nat.mod_small N m Hlt).
  assert (E0 : (N =? 0)%nat = false) by (apply Nat.eqb_neq; lia).
  rewrite E0. simpl. rewrite Hheap, drop_0. fold ps method realSql allParams. rewrite Hst. simpl.
  by rewrite ?run_update.
Qed.

(** X8: with the option [maxRow] set to zero, or with a cap that is exactly
    the group count, the statement is sent once, for all the groups, by the
    method called, and the call returns an array that holds the one
    result. *)
Theorem batch_of_all_groups h d c type sql arg options st s0 i data ds p0 p1 p2 N w rt :
  handles st !! h = Some d -> guards_pass d -> leased drv h st s0 c ->
  let ps := params_of (heap st) arg in
  findIndex (isArray (heap st)) ps = Some i ->
  ps !! i = Some data -> elems (heap st) data = Some ds ->
  default (Str.search Str.default_regexp) (regexp options) sql = Some [p0; p1; p2] ->
  patternNum_of (heap st) (Str.count "?" p0) ds = Some N -> (0 < N)%nat ->
  maxRow options = Some 0 \/ effective_cap options sql = Some N ->
  let realSql := realSql_of sql p0 p1 p2 N in
  let allParams := (take i ps ++ spread (heap st) ds ++ drop (i + 1) ps)%list in
  statement drv type c realSql allParams (heap st) (world s0) = (w, inr rt) ->
  run (_exec drv JSON_stringify h type sql arg options) st
  = (cleared h (answered (marked h sql s0) w (Statement type c realSql allParams)
                  (Responded rt)),
     inr (RBatches [first rt])).
Proof.
  intros H Hg Hl ps Hi Hdata Hds Hre HN Hpos Hcap realSql allParams Hst.
  assert (Hbm : negb (bool_decide (is_Some (maxRow options)))
                && negb (Str.insert_or_replace sql) = false
                /\ (if (default 1000 (maxRow options) =? 0)%nat then N
                    else default 1000 (maxRow options)) = N).
  { destruct Hcap as [-> | Hcap]; [done | by apply cap_in_force]. }
  destruct Hbm as [Hbranch Hm].
  rewrite (run_capped h d c type sql arg options st s0 i data ds p0 p1 p2 N
             H Hg Hl Hi Hdata Hds Hre HN Hpos Hbranch).
  destruct (leased_frame h d c st s0 H Hg Hl) as (Hheap & _).
  rewrite Hm. unfold batches_of.
  rewrite Nat.div_same, Nat.Div0.mod_same by lia. simpl.
  assert (Htake : take (N * (if is2d_of (heap st) ds then 1 else Str.count "?" p0)) ds = ds).
  { apply take_ge. rewrite (patternNum_length _ _ _ _ HN). lia. }
  rewrite drop_0, Htake.
  rewrite Hheap. fold ps realSql allParams. rewrite Hst. simpl.
  by rewrite ?run_update.
Qed.



(** ** The first use of a handle *)

(** [_init] from the lease of the connection on. *)
Lemma run_init_tail h d p st :
  handles st !! h = Some d -> _conn d = None ->
  run (c <- await (pool_getConnection drv p) ;;
       update h (with_conn (Some c)) ;;
       d <- this h ;;
       (if _begin d then c <- the_conn h ;; await (conn_command drv BeginTransaction c)
        else ret tt) ;;
       d <- this h ;;
       match _lazyInit d with
       | Some cb => await (call_lazyInit drv cb h)
       | None => ret tt
       end) st
  = lease_from drv h d p st.
Proof.
  intros H Hc. unfold lease_from.
  rewrite run_bind, run_await. unfold pool_getConnection. rewrite run_ask.
  destruct (getConnection drv p (world st)) as [w [e | c]]; simpl; [done |].
  rewrite run_bind, run_update. simpl.
  set (s2 := with_handles _ _).
  assert (H2 : handles s2 !! h = Some (with_conn (Some c) d)).
  { unfold s2. simpl. by rewrite lookup_alter_eq, H. }
  rewrite run_bind, (run_this _ _ _ H2). simpl. rewrite run_bind.
  assert (Hb : run (if _begin d
                    then c0 <- the_conn h ;; await (conn_command drv BeginTransaction c0)
                    else ret tt) s2
               = if _begin d then run (conn_command drv BeginTransaction c) s2
                 else (s2, inr tt)).
  { destruct (_begin d); [| by rewrite run_ret].
    rewrite run_bind, (run_the_conn _ _ c _ H2 eq_refl). simpl. by rewrite run_await. }
  rewrite Hb.
  destruct (_begin d).
  - unfold conn_command. rewrite !run_ask.
    destruct (command drv BeginTransaction c (world s2)) as [w2 [e | []]]; simpl; [done |].
    set (s3 := answered _ _ _ _).
    assert (H3 : handles s3 !! h = Some (with_conn (Some c) d)) by done.
    rewrite run_bind, (run_this _ _ _ H3). simpl.
    destruct (_lazyInit d); [by rewrite run_await | by rewrite run_ret].
  - simpl. rewrite run_bind, (run_this _ _ _ H2). simpl.
    destruct (_lazyInit d); [by rewrite run_await | by rewrite run_ret].
Qed.

(** [_init] on a handle without a connection whose name has a pool. *)
Lemma run_init_pooled h d p st :
  handles st !! h = Some d -> _conn d = None ->
  dbPools st !! key_of (name (_options d)) = Some p ->
  run (_init drv h) st
  = then_run (run (pool_getConnection drv p) st)
      (fun c st1 =>
         let st2 := with_handles (alter (with_conn (Some c)) h) st1 in
         then_run
           (if _begin d then run (conn_command drv BeginTransaction c) st2 else (st2, inr tt))
           (fun _ st3 =>
              match _lazyInit d with
              | Some cb => run (call_lazyInit drv cb h) st3
              | None => (st3, inr tt)
              end)).
Proof.
  intros H Hc Hp. unfold _init. rewrite run_bind, (run_this _ _ _ H). simpl. rewrite Hc.
  rewrite run_bind, run_gets. simpl. rewrite Hp.
  rewrite run_bind, run_ret. simpl. rewrite run_bind, run_gets. simpl.
  unfold property. rewrite Hp.
  exact (run_init_tail h d p st H Hc).
Qed.

(** A property that has been assigned is there. *)
Lemma pools_lookup_insert (k : string) (p : PoolId) (r : Pools) : <[k := p]> r !! k = Some p.
Proof.
  destruct r as [l]. unfold insert, lookup, pools_insert, pools_lookup. simpl.
  induction l as [| [k' p'] l IH]; simpl.
  - by rewrite String.eqb_refl.
  - destruct (String.eqb k k') eqn:E; simpl.
    + by rewrite String.eqb_refl.
    + destruct (precedes k k'); simpl; [by rewrite String.eqb_refl | by rewrite E].
Qed.

(** The properties are visited in their order. *)
Lemma pools_to_list (r : Pools) : map_to_list r = entries r.
Proof.
  destruct r as [l]. unfold map_to_list, map_fold, pools_fold. simpl.
  induction l as [| [k p] l IH]; simpl; [done | by rewrite IH].
Qed.

(** The pool that has just been assigned is the one that is read back. *)
Lemma property_assigned n p (pools : Pools) :
  pools !! n = None -> property n (installed n p) (assigned n p pools) = Some p.
Proof.
  intros Hn. unfold property, installed, assigned.
  destruct (String.eqb n "__proto__"); [by rewrite Hn | by rewrite pools_lookup_insert].
Qed.

(** [_init] on a handle without a connection whose name has no pool: the
    pool is created and assigned, and the connection is leased from it. *)
Lemma run_init_unpooled h d st :
  handles st !! h = Some d -> _conn d = None ->
  dbPools st !! key_of (name (_options d)) = None ->
  run (_init drv h) st
  = then_run (run (mysql_createPool drv (pool_options (_options d))) st)
      (fun p st1 =>
         lease_from drv h d p (with_dbPools (assigned (key_of (name (_options d))) p) st1)).
Proof.
  intros H Hc Hp. unfold _init. rewrite run_bind, (run_this _ _ _ H). simpl. rewrite Hc.
  rewrite run_bind, run_gets. simpl. rewrite Hp.
  rewrite run_bind, run_bind, run_await. unfold mysql_createPool. rewrite run_ask.
  destruct (createPool drv (pool_options (_options d)) (world st)) as [w [e | p]]; simpl;
    [done |].
  set (s1 := with_dbPools _ _).
  assert (H1 : handles s1 !! h = Some d) by done.
  rewrite run_bind, run_gets. simpl.
  rewrite property_assigned by done.
  exact (run_init_tail h d p s1 H1 Hc).
Qed.

(** What the lease asks of the driver. *)
Lemma lease_from_trace h d p st :
  let st' := (lease_from drv h d p st).1 in
  dbPools st' = dbPools st
  /\ exists r evs,
       trace st' = (trace st ++ (GetConnection p, r) :: evs)%list
       /\ Forall (fun ev : Call * Reply =>
                    (exists c, ev.1 = Command BeginTransaction c)
                    \/ (exists cb, ev.1 = LazyInit cb h)) evs.
Proof.
  cbv zeta. unfold lease_from.
  unfold pool_getConnection, conn_command, call_lazyInit. rewrite run_ask.
  destruct (getConnection drv p (world st)) as [w [e | c]]; simpl.
  { split; [done |]. by exists (Failed e), []. }
  destruct (_begin d).
  - rewrite run_ask.
    destruct (command drv BeginTransaction c _) as [w2 [e | []]]; simpl.
    { split; [done |]. exists (Conn c), [(Command BeginTransaction c, Failed e)].
      rewrite <- app_assoc. split; [done |]. rewrite ?Forall_cons; simpl; naive_solver. }
    destruct (_lazyInit d) as [cb |].
    + rewrite run_ask. simpl. split; [done |].
      eexists (Conn c), [_; _]. rewrite <- !app_assoc. split; [done |].
      rewrite ?Forall_cons; simpl; naive_solver.
    + simpl. split; [done |]. eexists (Conn c), [_]. rewrite <- !app_assoc.
      split; [done |]. rewrite ?Forall_cons; simpl; naive_solver.
  - simpl. destruct (_lazyInit d) as [cb |].
    + rewrite run_ask. simpl. split; [done |].
      eexists (Conn c), [_]. rewrite <- !app_assoc. split; [done |].
      rewrite ?Forall_cons; simpl; naive_solver.
    + simpl. split; [done |]. by exists (Conn c), [].
Qed.

Lemma init_pooled_trace h d p st :
  handles st !! h = Some d -> _conn d = None ->
  dbPools st !! key_of (name (_options d)) = Some p ->
  let st' := (run (_init drv h) st).1 in
  dbPools st' = dbPools st
  /\ exists r evs,
       trace st' = (trace st ++ (GetConnection p, r) :: evs)%list
       /\ Forall (fun ev : Call * Reply =>
                    (exists c, ev.1 = Command BeginTransaction c)
                    \/ (exists cb, ev.1 = LazyInit cb h)) evs.
Proof.
  intros H Hc Hp. cbv zeta. rewrite (run_init_pooled h d p st H Hc Hp).
  apply lease_from_trace.
Qed.

(** X10: a handle whose name has a pool leases its connection from that
    pool, whatever its own options are: no pool is created, the registry of
    the pools is left as it was, and past the lease the driver is asked only
    to begin the transaction and to run the lazy-init callback of the
    handle. *)
Theorem init_reuses_pool h d p st :
  handles st !! h = Some d -> _conn d = None ->
  dbPools st !! key_of (name (_options d)) = Some p ->
  let st' := (run (_init drv h) st).1 in
  dbPools st' = dbPools st
  /\ exists r evs,
       trace st' = (trace st ++ (GetConnection p, r) :: evs)%list
       /\ Forall (fun ev : Call * Reply =>
                    (exists c, ev.1 = Command BeginTransaction c)
                    \/ (exists cb, ev.1 = LazyInit cb h)) evs.
Proof. apply init_pooled_trace. Qed.

(** X11: on the first use of a name the pool is created from the options of
    the handle without its name and its [mustInTrans], and the connection is
    asked of that pool.  The pool is registered under the name and stays
    registered whatever follows, also when no connection can be leased from
    it; but under the name [__proto__] nothing is registered, so that the
    next first use under that name finds no pool and creates another.  When
    the pool cannot be created, the call fails with the failure of the
    driver, nothing is registered and no handle is changed. *)
Theorem init_registers_pool h d st :
  handles st !! h = Some d -> _conn d = None ->
  let n := key_of (name (_options d)) in
  dbPools st !! n = None ->
  let opt := pool_options (_options d) in
  match createPool drv opt (world st) with
  | (w, inl e) => run (_init drv h) st = (answered st w (CreatePool opt) (Failed e), inl e)
  | (w, inr p) =>
      let st' := (run (_init drv h) st).1 in
      dbPools st'
      = (if bool_decide (n = "__proto__") then dbPools st else <[n := p]> (dbPools st))
      /\ exists r evs,
           trace st' = (trace st ++ (CreatePool opt, Pool p) :: (GetConnection p, r) :: evs)%list
  end.
Proof.
  intros H Hc n Hp opt. rewrite (run_init_unpooled h d st H Hc Hp).
  unfold mysql_createPool. rewrite run_ask. fold opt n.
  destruct (createPool drv opt (world st)) as [w [e | p]]; simpl; [done |].
  set (s1 := with_dbPools _ _).
  destruct (lease_from_trace h d p s1) as [Hpools (r & evs & Ht & _)].
  split.
  - rewrite Hpools. unfold s1, assigned. simpl.
    destruct (String.eqb_spec n "__proto__") as [E | E].
    + by rewrite bool_decide_eq_true_2.
    + by rewrite bool_decide_eq_false_2.
  - exists r, evs. rewrite Ht. unfold s1. simpl. by rewrite <- app_assoc.
Qed.

Lemma report_fails {A} e sql params st :
  exists st' e',
    run (report (A:=A) JSON_stringify e sql params) st = (st', inl e')
    /\ handles st' = handles st.
Proof.
  destruct (as_array (heap st) params) as [ps |] eqn:E.
  - rewrite (run_report_array _ _ _ _ _ E). eexists _, _. split; [reflexivity | done].
  - unfold report. rewrite run_bind, run_gets. simpl. rewrite E.
    destruct params as [v | l]; [| done].
    destruct v; try (eexists _, _; split; [reflexivity | done]).
    destruct (_ <? _)%nat; eexists _, _; (split; [reflexivity | done]).
Qed.

(** X12: when the first use of a handle fails after the pool has handed out
    a connection (the transaction could not be begun on it, or the lazy-init
    callback failed), the call fails and the handle keeps the connection,
    with its transaction flag and its callback as they were. *)
Theorem failed_first_use_keeps_connection h d p type sql arg options st w c s1 e :
  handles st !! h = Some d -> guards_pass d -> _conn d = None ->
  dbPools st !! key_of (name (_options d)) = Some p ->
  getConnection drv p (world st) = (w, inr c) ->
  run (_init drv h) st = (s1, inl e) ->
  exists st' e' d',
    run (_exec drv JSON_stringify h type sql arg options) st = (st', inl e')
    /\ handles st' !! h = Some d'
    /\ _conn d' = Some c /\ _begin d' = _begin d /\ _lazyInit d' = _lazyInit d
    /\ _currentSql d' = None.
Proof.
  intros H [Hcur Hmust] Hc Hp Hgc Hinit.
  assert (H1 : handles s1 !! h = Some (with_conn (Some c) d)).
  { revert Hinit. rewrite (run_init_pooled h d p st H Hc Hp).
    unfold pool_getConnection, conn_command, call_lazyInit. rewrite run_ask, Hgc. simpl.
    destruct (_begin d).
    - rewrite run_ask. destruct (command drv BeginTransaction c _) as [w2 [e2 | []]]; simpl.
      + intros [= <- _]. simpl. by rewrite lookup_alter_eq, H.
      + destruct (_lazyInit d); [rewrite run_ask |]; intros [= <- _]; simpl;
          by rewrite lookup_alter_eq, H.
    - simpl. destruct (_lazyInit d); [rewrite run_ask |]; intros [= <- _]; simpl;
        by rewrite lookup_alter_eq, H. }
  destruct (report_fails (A:=unit) e sql (default_params arg) s1) as (s2 & e2 & Hrep & Hh2).
  exists (cleared h s2), e2, (with_currentSql None (with_conn (Some c) d)).
  split.
  - unfold _exec. rewrite run_bind, (run_this _ _ _ H). simpl. rewrite Hcur, Hmust.
    rewrite run_try_finally.
    rewrite run_bind, run_try_catch, run_bind, (run_this _ _ _ H). simpl. rewrite Hc.
    rewrite run_await, Hinit. simpl. rewrite Hrep. simpl. by rewrite ?run_update.
  - split; [| done]. unfold cleared. simpl. by rewrite lookup_alter_eq, Hh2, H1.
Qed.

(** X13: [beginTransaction] on a handle without a connection and without
    bound handles asks nothing of the driver: it raises the transaction
    flag.  The transaction is begun at the first use, on the connection
    that is then leased and before any statement is sent. *)
Theorem transaction_begins_at_first_use depth h d p st w1 c w2 :
  handles st !! h = Some d -> _conn d = None -> _bind d = [] -> _lazyInit d = None ->
  dbPools st !! key_of (name (_options d)) = Some p ->
  getConnection drv p (world st) = (w1, inr c) ->
  command drv BeginTransaction c w1 = (w2, inr tt) ->
  let st1 := with_handles (alter (with_begin true) h) st in
  run (beginTransaction drv (S depth) h) st = (st1, inr tt)
  /\ exists s0,
       leased drv h st1 s0 c
       /\ trace s0 = (trace st ++ [(GetConnection p, Conn c);
                                   (Command BeginTransaction c, Finished)])%list
       /\ world s0 = w2.
Proof.
  intros H Hc Hb Hl Hp Hgc Hcmd st1.
  assert (H1 : handles st1 !! h = Some (with_begin true d)).
  { unfold st1. simpl. by rewrite lookup_alter_eq, H. }
  split.
  - simpl. rewrite run_bind, (run_this _ _ _ H). simpl. rewrite Hc.
    rewrite run_bind, run_ret. simpl. rewrite run_bind, run_update. simpl. fold st1.
    rewrite run_bind, (run_this _ _ _ H1). simpl. by rewrite Hb.
  - assert (Hrun : run (_init drv h) st1
                   = (answered (with_handles (alter (with_conn (Some c)) h)
                                  (answered st1 w1 (GetConnection p) (Conn c)))
                        w2 (Command BeginTransaction c) Finished, inr tt)).
    { rewrite (run_init_pooled h (with_begin true d) p st1 H1 Hc Hp).
      unfold pool_getConnection, conn_command. rewrite run_ask. simpl. rewrite Hgc. simpl.
      rewrite run_ask. simpl. rewrite Hcmd. simpl. by rewrite Hl. }
    eexists. split; [split |].
    + rewrite run_bind, (run_this _ _ _ H1). simpl. rewrite Hc.
      rewrite run_await. exact Hrun.
    + exists (with_conn (Some c) (with_begin true d)). split; [| done].
      simpl. by rewrite !lookup_alter_eq, H.
    + simpl. by rewrite <- app_assoc.
Qed.

(** ** What a call on a connected handle asks of the driver *)

#[local] Instance only_statements_preorder h c : PreOrder (only_statements (W:=W) h c).
Proof.
  split.
  - intros st Hc. split; [done |]. split; [done |].
    exists []. by rewrite app_nil_r.
  - intros x y z Hxy Hyz Hc.
    destruct (Hxy Hc) as (Hcy & Hpy & evs1 & Ht1 & Hf1).
    destruct (Hyz Hcy) as (Hcz & Hpz & evs2 & Ht2 & Hf2).
    split; [done |]. split; [congruence |].
    exists (evs1 ++ evs2)%list. rewrite Ht2, Ht1, app_assoc. split; [done |].
    by apply Forall_app.
Qed.

Lemma only_marker h c h' s st :
  only_statements h c st (with_handles (alter (with_currentSql s) h') st).
Proof.
  intros Hc. split; [| split; [done | exists []; by rewrite app_nil_r]].
  unfold conn_of in *. simpl. destruct (decide (h' = h)) as [-> | Hne].
  - rewrite lookup_alter_eq. by destruct (handles st !! h).
  - by rewrite lookup_alter_ne.
Qed.

Lemma only_heap h c f st : only_statements h c st (with_heap f st).
Proof.
  intros Hc. split; [done |]. split; [done |]. exists []. by rewrite app_nil_r.
Qed.

Lemma conn_type_only h c type sql ps :
  keeps (only_statements (W:=W) h c) (conn_type drv h type sql ps).
Proof.
  intros st Hc. pose proof Hc as Hc'. unfold conn_of in Hc'.
  destruct (handles st !! h) as [d |] eqn:H; [| done]. simpl in Hc'.
  rewrite (run_conn_type _ _ _ _ _ _ _ H Hc'), run_ask. simpl.
  split; [done |]. split; [done |]. eexists [_]. split; [done |].
  apply Forall_singleton. by eexists _, _, _.
Qed.

Lemma init_only h c : keeps (only_statements (W:=W) h c) (_init drv h).
Proof.
  intros st Hc. pose proof Hc as Hc'. unfold conn_of in Hc'.
  destruct (handles st !! h) as [d |] eqn:H; [| done]. simpl in Hc'.
  unfold _init. rewrite run_bind, (run_this _ _ _ H). simpl. rewrite Hc', run_ret.
  by apply only_statements_preorder.
Qed.

Ltac only_step :=
  first
    [ keep @keeps_this | keep @keeps_the_conn
    | keep @keeps_ret | keep @keeps_throw | keep @keeps_gets
    | apply conn_type_only | apply init_only
    | keep @keeps_await
    | keep @keeps_for_of; intros ?
    | keep @keeps_try_catch; [| intros ?]
    | keep @keeps_try_finally
    | keep @keeps_bind; [| intros ?]
    | apply keeps_modify; intros ?; first [apply only_marker | apply only_heap]
    | match goal with
      | |- keeps _ (match ?x with _ => _ end) => destruct x
      | |- keeps _ (if ?x then _ else _) => destruct x
      end ].
Ltac only_frame := repeat only_step.

Lemma report_only {A} h c e sql params :
  keeps (only_statements (W:=W) h c) (report (A:=A) JSON_stringify e sql params).
Proof. unfold report, cap_nested, type_error. cbv zeta. only_frame. Qed.

Lemma batches_only h c type realSql l r data dataNum k i results :
  keeps (only_statements (W:=W) h c) (batches drv h type realSql l r data dataNum k i results).
Proof.
  revert i results. induction k as [| k IH]; intros i results; simpl.
  - only_frame.
  - unfold type_error. cbv zeta. repeat first [apply IH | only_step].
Qed.

Lemma statement_of_only h c type sql params options :
  keeps (only_statements (W:=W) h c) (statement_of drv h type sql params options).
Proof.
  unfold statement_of, type_error. cbv zeta.
  repeat first [apply batches_only | only_step].
Qed.

(** X14: on a handle that holds a connection, [_exec] asks the driver
    statements on that connection and nothing else, whatever its arguments
    and whatever the driver answers: it creates no pool, leases no
    connection, begins, commits and rolls back nothing and does not run the
    lazy-init callback.  The handle keeps its connection and the registry of
    the pools is left as it was. *)
Theorem exec_only_statements h d c type sql arg options st :
  handles st !! h = Some d -> _conn d = Some c ->
  let st' := (run (_exec drv JSON_stringify h type sql arg options) st).1 in
  (exists d', handles st' !! h = Some d' /\ _conn d' = Some c)
  /\ dbPools st' = dbPools st
  /\ exists evs, trace st' = (trace st ++ evs)%list /\ Forall (statement_on c) evs.
Proof.
  intros H Hc st'.
  assert (Hk : keeps (only_statements (W:=W) h c) (_exec drv JSON_stringify h type sql arg options)).
  { unfold _exec, update.
    repeat first [apply report_only | apply statement_of_only | only_step]. }
  destruct (Hk st) as (Hc' & Hp & Hev).
  { unfold conn_of. by rewrite H. }
  split; [| done]. fold st' in Hc'. unfold conn_of in Hc'.
  destruct (handles st' !! h) as [d' |]; [| done]. eauto.
Qed.

(** ** Bound handles *)

Lemma begin_same_links depth h : keeps same_links (beginTransaction drv depth h).
Proof.
  revert h. induction depth as [| depth IH]; intros h; simpl.
  - unfold unbounded. links_frame.
  - unfold update, conn_command. links_frame; apply IH.
Qed.

Lemma remove_first_last db l : db ∉ l -> remove_first db (l ++ [db]) = l.
Proof.
  induction l as [| x l IH]; intros Hn; simpl.
  - by rewrite bool_decide_eq_true_2.
  - apply not_elem_of_cons in Hn as [Hx Hl].
    rewrite bool_decide_eq_false_2 by done. by rewrite IH.
Qed.

Lemma remove_first_gone db l : NoDup l -> db ∉ remove_first db l.
Proof.
  induction 1 as [| x l Hx Hl IH]; simpl; [by apply not_elem_of_nil |].
  destruct (bool_decide (x = db)) eqn:E.
  - apply bool_decide_eq_true in E as <-. done.
  - apply bool_decide_eq_false in E. apply not_elem_of_cons. split; [congruence | done].
Qed.

Lemma remove_first_sub db l x : x ∈ remove_first db l -> x ∈ l.
Proof.
  induction l as [| y l IH]; simpl; [done |].
  destruct (bool_decide (y = db)).
  - intros. by apply elem_of_cons; right.
  - intros [-> | Hx]%elem_of_cons; apply elem_of_cons; [by left | right; by apply IH].
Qed.

Lemma remove_first_NoDup db l : NoDup l -> NoDup (remove_first db l).
Proof.
  induction 1 as [| x l Hx Hl IH]; simpl; [constructor |].
  destruct (bool_decide (x = db)); [done |].
  constructor; [| done]. intros Hin. by apply Hx, (remove_first_sub db).
Qed.

(** What [bind] leaves behind when it returns. *)
Lemma run_bind_db depth h db d st st1 r :
  handles st !! h = Some d ->
  run (bind_db drv depth h db) st = (st1, inr r) ->
  if bool_decide (db ∈ _bind d) then st1 = st /\ r = false
  else r = true
       /\ exists d1, handles st1 !! h = Some d1 /\ _bind d1 = (_bind d ++ [db])%list.
Proof.
  intros H. unfold bind_db. rewrite run_bind, (run_this _ _ _ H). simpl.
  destruct (bool_decide (db ∈ _bind d)).
  { rewrite run_ret. by intros [= <- <-]. }
  rewrite run_bind, run_update. simpl.
  set (s1 := with_handles _ st).
  assert (H1 : handles s1 !! h = Some (with_bind (_bind d ++ [db]) d)).
  { unfold s1. simpl. by rewrite lookup_alter_eq, H. }
  rewrite run_bind, (run_this _ _ _ H1). simpl.
  rewrite run_bind.
  assert (Hk : keeps same_links (this (W:=W) db)) by links_frame.
  specialize (Hk s1).
  destruct (run (this db) s1) as [s2 [e | other]]; simpl in *; [done |].
  rewrite run_bind.
  assert (Hb : keeps same_links
                 (if _begin d && negb (_begin other)
                  then await (beginTransaction drv depth db) else ret tt)).
  { destruct (_ && _); links_frame. apply begin_same_links. }
  specialize (Hb s2).
  destruct (run (if _ && _ then _ else _) s2) as [s3 [e | []]]; simpl in *; [done |].
  rewrite run_ret. intros [= <- <-]. split; [done |].
  assert (Hl : same_links s1 s3) by by etrans.
  destruct (same_links_lookup h _ s1 s3 Hl H1) as (d3 & H3 & Hl3).
  exists d3. split; [done |]. by injection Hl3.
Qed.

(** X15: [bind] appends the handle to the bound handles and [unbind] takes
    it out again: after a [bind] that returned true, [unbind] returns true
    and leaves the list of the bound handles as it was before the [bind]. *)
Theorem bind_then_unbind depth h db d st st1 :
  handles st !! h = Some d -> db ∉ _bind d ->
  run (bind_db drv depth h db) st = (st1, inr true) ->
  exists d1,
    handles st1 !! h = Some d1
    /\ _bind d1 = (_bind d ++ [db])%list
    /\ run (unbind h db) st1 = (with_handles (alter (with_bind (_bind d)) h) st1, inr true).
Proof.
  intros H Hn Hrun. pose proof (run_bind_db depth h db d st st1 true H Hrun) as Hb.
  rewrite bool_decide_eq_false_2 in Hb by done.
  destruct Hb as [_ (d1 & H1 & Hb1)]. exists d1. split; [done |]. split; [done |].
  unfold unbind. rewrite run_bind, (run_this _ _ _ H1). simpl.
  rewrite Hb1, bool_decide_eq_true_2 by (apply elem_of_app; right; apply list_elem_of_here).
  rewrite run_bind, run_update. simpl. by rewrite remove_first_last.
Qed.

(** X16: the bound handles of a handle are a set.  [bind] answers whether
    the handle was new and never binds a handle twice; [unbind] answers
    whether the handle was bound, and the handle is not bound afterwards;
    both keep the list free of duplicates. *)
Theorem bound_handles_are_a_set depth h db d st :
  handles st !! h = Some d -> NoDup (_bind d) ->
  (forall st1 r,
     run (bind_db drv depth h db) st = (st1, inr r) ->
     (r = false <-> db ∈ _bind d)
     /\ exists d1, handles st1 !! h = Some d1 /\ NoDup (_bind d1) /\ db ∈ _bind d1)
  /\ exists st1 d1,
       run (unbind h db) st = (st1, inr (bool_decide (db ∈ _bind d)))
       /\ handles st1 !! h = Some d1
       /\ NoDup (_bind d1) /\ (db ∉ _bind d1)
       /\ (forall x, x <> db -> (x ∈ _bind d1 <-> x ∈ _bind d)).
Proof.
  intros H Hnd. split.
  - intros st1 r Hrun. pose proof (run_bind_db depth h db d st st1 r H Hrun) as Hb.
    destruct (bool_decide (db ∈ _bind d)) eqn:E.
    + apply bool_decide_eq_true in E. destruct Hb as [-> ->]. split; [done | eauto].
    + apply bool_decide_eq_false in E. destruct Hb as [-> (d1 & H1 & Hb1)].
      split; [split; [done | by intros ?] |].
      exists d1. split; [done |]. rewrite Hb1. split.
      * apply NoDup_app. split; [done |]. split; [| apply NoDup_singleton].
        intros x Hx ->%list_elem_of_singleton. done.
      * apply elem_of_app. right. apply list_elem_of_here.
  - unfold unbind.
    destruct (bool_decide (db ∈ _bind d)) eqn:E.
    + eexists _, (with_bind (remove_first db (_bind d)) d).
      rewrite run_bind, (run_this _ _ _ H). simpl. rewrite E.
      rewrite run_bind, run_update. simpl. rewrite run_ret. split; [reflexivity |].
      simpl. split; [by rewrite lookup_alter_eq, H |].
      split; [by apply remove_first_NoDup |]. split; [by apply remove_first_gone |].
      intros x Hx. split; [apply remove_first_sub |].
      clear -Hx. induction (_bind d) as [| y l IH]; simpl; [done |].
      intros [-> | Hin]%elem_of_cons.
      * rewrite bool_decide_eq_false_2 by done. apply list_elem_of_here.
      * destruct (bool_decide (y = db)); [done |]. apply elem_of_cons. right. by apply IH.
    + exists st, d. rewrite run_bind, (run_this _ _ _ H). simpl. rewrite E, run_ret.
      apply bool_decide_eq_false in E. done.
Qed.

(** ** The transaction flag of the bound handles *)

#[local] Instance raised_preorder : PreOrder (raised (W:=W)).
Proof.
  split.
  - intros st. split; [done |]. intros x d d' H H'. rewrite H in H'. by injection H' as <-.
  - intros s1 s2 s3 [Hl1 H1] [Hl2 H2]. split; [by etrans |].
    intros x d d3 Hx Hx3 Hb.
    destruct (same_links_lookup x d s1 s2 Hl1 Hx) as (d2 & Hx2 & _).
    apply (H2 x d2 d3 Hx2 Hx3), (H1 x d d2 Hx Hx2 Hb).
Qed.

Lemma raised_begin h st : raised st (with_handles (alter (with_begin true) h) st).
Proof.
  split; [apply same_links_begin |].
  intros x d d' Hx Hx' Hb. simpl in Hx'.
  destruct (decide (x = h)) as [-> | Hne].
  - rewrite lookup_alter_eq, Hx in Hx'. by injection Hx' as <-.
  - rewrite lookup_alter_ne, Hx in Hx' by done. by injection Hx' as <-.
Qed.

Lemma raised_answered st w c r : raised st (answered st w c r).
Proof.
  split; [done |]. intros x d d' H H'. simpl in H'. rewrite H in H'. by injection H' as <-.
Qed.

Lemma begin_raised depth h : keeps raised (beginTransaction drv depth h).
Proof.
  revert h. induction depth as [| depth IH]; intros h; simpl.
  - unfold unbounded. keep @keeps_throw.
  - unfold update, conn_command.
    repeat first
      [ apply IH
      | keep @keeps_this | keep @keeps_ret | keep @keeps_await
      | keep @keeps_for_of; intros ?
      | keep @keeps_bind; [| intros ?]
      | apply keeps_ask; intros; apply raised_answered
      | apply keeps_modify; intros ?; apply raised_begin
      | match goal with
        | |- keeps _ (match ?x with _ => _ end) => destruct x
        | |- keeps _ (if ?x then _ else _) => destruct x
        end ].
Qed.

Lemma calmer_commit_flag h st : calmer st (with_handles (alter (with_begin false) h) st).
Proof.
  intros x d Hx. simpl. destruct (decide (x = h)) as [-> | Hne].
  - rewrite lookup_alter_eq, Hx. by eexists.
  - rewrite lookup_alter_ne, Hx by done. eauto.
Qed.

Lemma calmer_answered st w c r : calmer st (answered st w c r).
Proof. intros x d Hx. eauto. Qed.

Lemma commit_calmer depth h reinit : keeps calmer (commit drv depth h false reinit).
Proof.
  revert h. induction depth as [| depth IH]; intros h; simpl.
  - unfold unbounded. keep @keeps_throw.
  - unfold update, conn_command.
    repeat first
      [ apply IH
      | keep @keeps_this | keep @keeps_ret | keep @keeps_throw | keep @keeps_await
      | keep @keeps_for_of; intros ?
      | keep @keeps_bind; [| intros ?]
      | apply keeps_ask; intros; apply calmer_answered
      | apply keeps_modify; intros ?; apply calmer_commit_flag
      | match goal with
        | |- keeps _ (match ?x with _ => _ end) => destruct x
        | |- keeps _ (if ?x then _ else _) => destruct x
        end ].
Qed.

(** Each round of a loop that ends well has ended well. *)
Lemma for_of_each {A} (R : relation (State W)) `{!PreOrder R} (l : list A) body st st' :
  (forall x, keeps R (body x)) ->
  run (for_of l body) st = (st', inr tt) ->
  forall x, x ∈ l -> exists sa sb, run (body x) sa = (sb, inr tt) /\ R sb st'.
Proof.
  intros Hk. revert st. induction l as [| y l IH]; intros st Hrun x Hx.
  { by apply elem_of_nil in Hx. }
  rewrite run_for_of_cons in Hrun.
  destruct (run (body y) st) as [s1 [e | []]] eqn:Hy; simpl in Hrun; [done |].
  apply elem_of_cons in Hx as [-> | Hx].
  - exists st, s1. split; [done |].
    assert (Hf : keeps R (for_of l body)) by by apply keeps_for_of.
    specialize (Hf s1). by rewrite Hrun in Hf.
  - by apply (IH s1).
Qed.

Lemma begin_flag_up depth h st st' :
  run (beginTransaction drv depth h) st = (st', inr tt) -> flag_is st' h true.
Proof.
  destruct depth as [| depth]; simpl; [done |].
  rewrite run_bind.
  destruct (handles st !! h) as [d |] eqn:H.
  2: { unfold this. rewrite run_bind, run_gets. simpl. by rewrite H. }
  rewrite (run_this _ _ _ H). simpl. rewrite run_bind.
  destruct (run (match _conn d with Some _ => _ | None => _ end) st) as [s1 [e | []]] eqn:Hown;
    simpl; [done |].
  assert (Hs1 : handles s1 = handles st).
  { destruct (_conn d) as [c |]; [destruct (_begin d) |].
    - rewrite run_ret in Hown. by injection Hown as <-.
    - rewrite run_await in Hown. unfold conn_command in Hown. rewrite run_ask in Hown.
      by injection Hown as <- _.
    - rewrite run_ret in Hown. by injection Hown as <-. }
  rewrite run_bind, run_update. simpl.
  set (s2 := with_handles _ s1).
  assert (H2 : handles s2 !! h = Some (with_begin true d)).
  { unfold s2. simpl. by rewrite Hs1, lookup_alter_eq, H. }
  rewrite run_bind, (run_this _ _ _ H2). simpl. intros Hloop.
  assert (Hk : keeps raised (for_of (_bind d) (fun db => await (beginTransaction drv depth db)))).
  { keep @keeps_for_of. intros db. keep @keeps_await. apply begin_raised. }
  specialize (Hk s2). rewrite Hloop in Hk. destruct Hk as [Hl Hup].
  destruct (same_links_lookup h _ s2 st' Hl H2) as (d' & H' & _).
  exists d'. split; [done |]. by apply (Hup h _ d' H2 H').
Qed.

Lemma commit_flag_down depth h reinit st st' :
  run (commit drv depth h false reinit) st = (st', inr tt) -> flag_is st' h false.
Proof.
  destruct depth as [| depth]; simpl; [done |].
  rewrite run_bind.
  destruct (run (this h) st) as [s0 [e | d]]; simpl; [done |].
  destruct (executing (_currentSql d)); [done |].
  rewrite run_bind.
  destruct (run (for_of (_bind d) _) s0) as [s1 [e | []]]; simpl; [done |].
  rewrite run_bind.
  destruct (handles s1 !! h) as [d1 |] eqn:H1.
  2: { unfold this. rewrite run_bind, run_gets. simpl. by rewrite H1. }
  rewrite (run_this _ _ _ H1). simpl. rewrite run_bind.
  destruct (run (match _conn d1 with Some _ => _ | None => _ end) s1) as [s2 [e | []]] eqn:Hown;
    simpl; [done |].
  assert (Hs2 : handles s2 = handles s1).
  { destruct (_conn d1) as [c |]; [destruct (_begin d1) |].
    - rewrite run_await in Hown. unfold conn_command in Hown. rewrite run_ask in Hown.
      by injection Hown as <- _.
    - rewrite run_ret in Hown. by injection Hown as <-.
    - rewrite run_ret in Hown. by injection Hown as <-. }
  rewrite ?run_update. intros [= <-]. exists (with_begin false d1). split; [| done].
  simpl. by rewrite Hs2, lookup_alter_eq, H1.
Qed.

(** X17: the bound handles follow the handle.  When [beginTransaction]
    returns, the transaction flag of the handle and of every handle bound
    to it is up; when [commit] without its first argument or [rollback]
    returns, the flag of the handle and of every handle bound to it is
    down. *)
Theorem bound_handles_follow depth h d st :
  handles st !! h = Some d ->
  (forall st', run (beginTransaction drv depth h) st = (st', inr tt) ->
     forall x, in_reach h d x -> flag_is st' x true)
  /\ (forall reinit st', run (commit drv depth h false reinit) st = (st', inr tt) ->
        forall x, in_reach h d x -> flag_is st' x false)
  /\ (forall st', run (rollback drv depth h) st = (st', inr tt) ->
        forall x, in_reach h d x -> flag_is st' x false).
Proof.
  intros H. split; [| split].
  - intros st' Hrun x [-> | Hx]; [by apply (begin_flag_up depth h st) |].
    destruct depth as [| depth]; simpl in Hrun; [done |].
    revert Hrun. rewrite run_bind, (run_this _ _ _ H). simpl. rewrite run_bind.
    destruct (run (match _conn d with Some _ => _ | None => _ end) st) as [s1 [e | []]] eqn:Hown;
      simpl; [done |].
    assert (Hs1 : handles s1 = handles st).
    { destruct (_conn d) as [c |]; [destruct (_begin d) |].
      - rewrite run_ret in Hown. by injection Hown as <-.
      - rewrite run_await in Hown. unfold conn_command in Hown. rewrite run_ask in Hown.
        by injection Hown as <- _.
      - rewrite run_ret in Hown. by injection Hown as <-. }
    rewrite run_bind, run_update. simpl.
    set (s2 := with_handles _ s1).
    assert (H2 : handles s2 !! h = Some (with_begin true d)).
    { unfold s2. simpl. by rewrite Hs1, lookup_alter_eq, H. }
    rewrite run_bind, (run_this _ _ _ H2). simpl. intros Hloop.
    assert (Hkb : forall db, keeps raised (await (beginTransaction drv depth db))).
    { intros db. keep @keeps_await. apply begin_raised. }
    destruct (for_of_each raised _ _ _ _ Hkb Hloop x Hx) as (sa & sb & Hx1 & Hr).
    rewrite run_await in Hx1. destruct (begin_flag_up _ _ _ _ Hx1) as (dx & Hdx & Hbx).
    destruct Hr as [Hl Hup].
    destruct (same_links_lookup x _ sb st' Hl Hdx) as (d' & H' & _).
    exists d'. split; [done |]. by apply (Hup x dx d').
  - intros reinit st' Hrun x [-> | Hx]; [by apply (commit_flag_down depth h reinit st) |].
    destruct depth as [| depth]; simpl in Hrun; [done |].
    revert Hrun. rewrite run_bind, (run_this _ _ _ H). simpl.
    destruct (executing (_currentSql d)); [done |].
    rewrite run_bind.
    destruct (run (for_of (_bind d) _) st) as [s1 [e | []]] eqn:Hloop; simpl; [done |].
    intros Hrest.
    assert (Hkb : forall db, keeps calmer (await (commit drv depth db false reinit))).
    { intros db. keep @keeps_await. apply commit_calmer. }
    destruct (for_of_each calmer _ _ _ _ Hkb Hloop x Hx) as (sa & sb & Hx1 & Hr).
    rewrite run_await in Hx1. destruct (commit_flag_down _ _ _ _ _ Hx1) as (dx & Hdx & Hbx).
    assert (Hk : keeps calmer
              (d <- this h ;;
               (match _conn d with
                | Some c => if _begin d then await (conn_command drv Commit c) else ret tt
                | None => ret tt
                end) ;;
               update (W:=W) h (with_begin false))).
    { unfold update, conn_command.
      repeat first
        [ keep @keeps_this | keep @keeps_ret | keep @keeps_await
        | keep @keeps_bind; [| intros ?]
        | apply keeps_ask; intros; apply calmer_answered
        | apply keeps_modify; intros ?; apply calmer_commit_flag
        | match goal with
          | |- keeps _ (match ?x with _ => _ end) => destruct x
          | |- keeps _ (if ?x then _ else _) => destruct x
          end ]. }
    specialize (Hk s1). rewrite Hrest in Hk. simpl in Hk.
    destruct (Hr x dx Hdx) as (d1 & Hd1 & _ & Hf1).
    destruct (Hk x d1 Hd1) as (d' & Hd' & _ & Hf').
    exists d'. split; [done |]. auto.
  - intros st' Hrun x [-> | Hx]; [by apply (rollback_flag_down depth h st) |].
    destruct depth as [| depth]; simpl in Hrun; [done |].
    revert Hrun. rewrite run_bind, (run_this _ _ _ H). simpl.
    rewrite run_bind.
    destruct (run (for_of (_bind d) _) st) as [s1 [e | []]] eqn:Hloop; simpl; [done |].
    intros Hrest.
    assert (Hkb : forall db, keeps rolled (await (rollback drv depth db))).
    { intros db. keep @keeps_await. apply rollback_rolled. }
    destruct (for_of_each rolled _ _ _ _ Hkb Hloop x Hx) as (sa & sb & Hx1 & Hr).
    rewrite run_await in Hx1. destruct (rollback_flag_down _ _ _ _ Hx1) as (dx & Hdx & Hbx).
    pose proof (rollback_own_rolled h s1) as Hk. rewrite Hrest in Hk. simpl in Hk.
    assert (Hc : calmer sb st') by (etrans; apply rolled_calmer; done).
    destruct (Hc x dx Hdx) as (d' & Hd' & _ & Hf').
    exists d'. split; [done |]. auto.
Qed.

(** ** A transaction from its beginning to its end *)

Section Commands.
Hypothesis Hcmd : commands_succeed drv.

Lemma run_command cmd c st :
  run (conn_command drv cmd c) st
  = (answered st (command drv cmd c (world st)).1 (Command cmd c) Finished, inr tt).
Proof.
  unfold conn_command. rewrite run_ask. specialize (Hcmd cmd c (world st)).
  destruct (command drv cmd c (world st)) as [w r]. simpl in *. by rewrite Hcmd.
Qed.

Lemma commit_alone depth h d reinit st :
  handles st !! h = Some d -> _bind d = [] -> executing (_currentSql d) = None ->
  exists st',
    run (commit drv (S depth) h false reinit) st = (st', inr tt)
    /\ handles st' = alter (with_begin false) h (handles st)
    /\ trace st' = (trace st ++ match _conn d with
                                | Some c => if _begin d then [(Command Commit c, Finished)] else []
                                | None => []
                                end)%list.
Proof.
  intros H Hb Hcur. simpl. rewrite run_bind, (run_this _ _ _ H). simpl. rewrite Hcur, Hb.
  rewrite run_bind, run_for_of_nil. simpl. rewrite run_bind, (run_this _ _ _ H). simpl.
  rewrite run_bind.
  destruct (_conn d) as [c |]; [destruct (_begin d) |].
  - rewrite run_await, run_command. simpl. rewrite run_update. by eexists.
  - rewrite run_ret. simpl. rewrite run_update. eexists. by rewrite app_nil_r.
  - rewrite run_ret. simpl. rewrite run_update. eexists. by rewrite app_nil_r.
Qed.

Lemma rollback_alone depth h d st :
  handles st !! h = Some d -> _bind d = [] ->
  exists st',
    run (rollback drv (S depth) h) st = (st', inr tt)
    /\ handles st' = alter (with_begin false) h (handles st)
    /\ trace st' = (trace st ++ match _conn d with
                                | Some c => if _begin d then [(Command Rollback c, Finished)] else []
                                | None => []
                                end)%list.
Proof.
  intros H Hb. simpl. rewrite run_bind, (run_this _ _ _ H). simpl. rewrite Hb.
  rewrite run_bind, run_for_of_nil. simpl. rewrite run_bind, (run_this _ _ _ H). simpl.
  rewrite run_bind.
  destruct (_conn d) as [c |]; [destruct (_begin d) |].
  - rewrite run_await, run_command. simpl. rewrite run_update. by eexists.
  - rewrite run_ret. simpl. rewrite run_update. eexists. by rewrite app_nil_r.
  - rewrite run_ret. simpl. rewrite run_update. eexists. by rewrite app_nil_r.
Qed.

Lemma release_settled depth h d st :
  handles st !! h = Some d -> _bind d = [] -> _begin d = false ->
  exists st',
    run (release drv (S depth) h) st = (st', inr tt)
    /\ at_rest st' h
    /\ trace st' = (trace st ++ match _conn d with
                                | Some c => [(Command Release c, Finished)]
                                | None => []
                                end)%list.
Proof.
  intros H Hb Hf. rewrite (release_alone_eq _ _ _ _ H Hb). unfold release_alone.
  destruct (_conn d) as [c |] eqn:Hc.
  - rewrite Hf. rewrite run_bind, run_ret. simpl. rewrite run_bind, run_update. simpl.
    rewrite run_bind, run_command. simpl. rewrite run_update. eexists. split; [done |].
    split; [| done]. exists (with_conn None (with_begin false d)).
    simpl. by rewrite !lookup_alter_eq, H.
  - rewrite run_update. eexists. split; [done |]. split; [| by rewrite app_nil_r].
    exists (with_begin false d). simpl. by rewrite lookup_alter_eq, H.
Qed.

(** What follows the callback in [transaction]: the [try] block goes on to
    the commit or the [catch] block rolls back, and the [finally] block
    releases. *)
Lemma transaction_end {A} depth h d (r : Err + A) st :
  handles st !! h = Some d -> _bind d = [] -> executing (_currentSql d) = None ->
  exists st',
    and_finally
      (or_handle
         (then_run (st, r)
            (fun rt st1 =>
               then_run (run (await (commit drv (S depth) h false true)) st1)
                 (fun _ st2 => (st2, inr rt))))
         (fun e st1 =>
            then_run (run (await (rollback drv (S depth) h)) st1)
              (fun _ st2 => (st2, inl e))))
      (run (await (release drv (S depth) h)))
    = (st', r)
    /\ at_rest st' h
    /\ trace st' = (trace st ++ wind_up d (succeeded r))%list.
Proof.
  intros H Hb Hcur.
  assert (Hnext : forall s1 : State W,
            handles s1 = alter (with_begin false) h (handles st) ->
            handles s1 !! h = Some (with_begin false d)).
  { intros s1 ->. by rewrite lookup_alter_eq, H. }
  destruct r as [e | a]; cbn [then_run or_handle].
  - rewrite run_await.
    destruct (rollback_alone depth h d st H Hb) as (s1 & -> & Hh1 & Ht1).
    cbn [then_run and_finally]. rewrite run_await.
    destruct (release_settled depth h _ s1 (Hnext s1 Hh1) Hb eq_refl) as (s2 & -> & Hrest & Ht2).
    exists s2. split; [done |]. split; [done |].
    rewrite Ht2, Ht1, <- app_assoc. unfold wind_up. simpl.
    destruct (_conn d); [| done]. by destruct (_begin d).
  - rewrite run_await.
    destruct (commit_alone depth h d true st H Hb Hcur) as (s1 & -> & Hh1 & Ht1).
    cbn [then_run or_handle and_finally]. rewrite run_await.
    destruct (release_settled depth h _ s1 (Hnext s1 Hh1) Hb eq_refl) as (s2 & -> & Hrest & Ht2).
    exists s2. split; [done |]. split; [done |].
    rewrite Ht2, Ht1, <- app_assoc. unfold wind_up. simpl.
    destruct (_conn d); [| done]. by destruct (_begin d).
Qed.

Lemma run_transaction {A} depth h (cb : HId -> Async (State W) A) st :
  run (transaction drv (S depth) h cb) st
  = match run (beginTransaction drv (S depth) h) st with
    | (st1, inl e) =>
        and_finally
          (then_run (run (await (rollback drv (S depth) h)) st1) (fun _ st2 => (st2, inl e)))
          (run (await (release drv (S depth) h)))
    | (st1, inr _) =>
        let (st2, r) := run (cb h) st1 in
        and_finally
          (or_handle
             (then_run (st2, r)
                (fun rt st3 =>
                   then_run (run (await (commit drv (S depth) h false true)) st3)
                     (fun _ st4 => (st4, inr rt))))
             (fun e st3 =>
                then_run (run (await (rollback drv (S depth) h)) st3)
                  (fun _ st4 => (st4, inl e))))
          (run (await (release drv (S depth) h)))
    end.
Proof.
  unfold transaction. rewrite run_try_finally, run_try_catch, run_bind, run_await.
  assert (Hcatch : forall e (s : State W),
            run (await (rollback drv (S depth) h) ;; throw (A:=A) e) s
            = then_run (run (await (rollback drv (S depth) h)) s) (fun _ s2 => (s2, inl e))).
  { intros e s. rewrite run_bind.
    by destruct (run (await (rollback drv (S depth) h)) s) as [s2 [e2 | []]]. }
  destruct (run (beginTransaction drv (S depth) h) st) as [st1 [e | []]].
  - cbn [then_run or_handle]. by rewrite Hcatch.
  - cbn [then_run]. rewrite run_bind, run_await.
    destruct (run (cb h) st1) as [st2 [e | a]].
    + cbn [then_run or_handle]. by rewrite Hcatch.
    + cbn [then_run]. rewrite run_bind.
      destruct (run (await (commit drv (S depth) h false true)) st2) as [st3 [e | []]].
      * cbn [then_run or_handle]. by rewrite Hcatch.
      * cbn [then_run or_handle]. by rewrite run_ret.
Qed.


(** X19: [Db.transaction] runs the callback on a handle of its own, made
    from the options, with no connection and with its transaction flag up;
    where the driver accepts every command it passes on what the callback
    returns or throws, after the commit or the rollback and the release of
    the connection that the callback has leased.  Options without a name
    that is a string are refused before anything is done. *)
Theorem static_transaction_on_a_fresh_handle {A} depth options (cb : HId -> Async (State W) A) st :
  let db := fresh (dom (handles st)) in
  let st1 := with_handles <[db := mkDb options None true None None []]> st in
  if is_string (name options)
  then
    forall st2 r d2,
      run (cb db) st1 = (st2, r) ->
      handles st2 !! db = Some d2 -> _bind d2 = [] -> executing (_currentSql d2) = None ->
      exists st',
        run (static_transaction drv (S depth) cb options) st = (st', r)
        /\ at_rest st' db
        /\ trace st' = (trace st2 ++ wind_up d2 (succeeded r))%list
  else
    exists msg,
      run (static_transaction drv (S depth) cb options) st = (st, inl (mkErr NameRequired msg)).
Proof.
  intros db st1.
  set (d0 := mkDb options None false None None []).
  set (s0 := with_handles <[db := d0]> st).
  destruct (is_string (name options)) eqn:En.
  - assert (Hnew : run (static_transaction drv (S depth) cb options) st
                   = run (transaction drv (S depth) db cb) s0).
    { unfold static_transaction, new_Db, constructor.
      destruct (name options); try done. simpl.
      rewrite run_bind, run_bind, run_gets. simpl. fold db.
      by rewrite run_await. }
    intros st2 r d2 Hcb H2 Hb Hcur. rewrite Hnew.
    assert (H0 : handles s0 !! db = Some d0) by (unfold s0; simpl; by rewrite lookup_insert_eq).
    assert (Hbegin : run (beginTransaction drv (S depth) db) s0 = (st1, inr tt)).
    { simpl. rewrite run_bind, (run_this _ _ _ H0). simpl.
      rewrite run_bind, run_ret. simpl. rewrite run_bind, run_update. simpl.
      set (s1 := with_handles _ s0).
      assert (Hs1 : s1 = st1).
      { unfold s1, st1, s0, with_handles. simpl. f_equal.
        apply map_eq. intros x. destruct (decide (x = db)) as [-> | Hne].
        - by rewrite lookup_alter_eq, !lookup_insert_eq.
        - by rewrite lookup_alter_ne, !lookup_insert_ne. }
      rewrite Hs1.
      assert (H1 : handles st1 !! db = Some (with_begin true d0)).
      { unfold st1. simpl. by rewrite lookup_insert_eq. }
      rewrite run_bind, (run_this _ _ _ H1). by simpl. }
    rewrite run_transaction, Hbegin, Hcb.
    by apply transaction_end.
  - eexists. unfold static_transaction, new_Db, constructor.
    destruct (name options); try done; simpl; by rewrite run_bind, run_throw.
Qed.
End Commands.

(** ** [safeCall] *)

Lemma run_safeCall {A} depth options must (cb : HId -> Async (State W) A) st :
  is_string (name options) = true ->
  let db := fresh (dom (handles st)) in
  let st1 := with_handles <[db := mkDb (safe_options options must) None false None None []]> st in
  run (safeCall drv depth cb options must) st
  = and_finally (run (cb db) st1) (run (await (release drv depth db))).
Proof.
  intros Hn db st1. unfold st1, safeCall, safe_options, new_Db, constructor. cbv zeta.
  destruct must as [b |]; simpl; destruct (name options); try done; simpl;
    rewrite run_bind, run_bind, run_gets; simpl; fold db;
    by rewrite run_try_finally, run_await.
Qed.


(** X21: under [safeCall] with a true third argument, a statement that the
    callback sends outside a transaction is refused with the transaction
    error, whatever the options say: the driver is asked nothing and no
    connection is leased. *)
Theorem safeCall_refuses_outside_transaction depth options type sql arg eo st :
  is_string (name options) = true ->
  let db := fresh (dom (handles st)) in
  run (safeCall drv (S depth)
         (fun db => _exec drv JSON_stringify db type sql arg eo) options (Some true)) st
  = (with_handles <[db := mkDb (safe_options options (Some true)) None false None None []]> st,
     inl (mkErr NotInTransaction ("Not executed in a transaction: " ++ sql))).
Proof.
  intros Hn db.
  rewrite (run_safeCall (S depth) options (Some true) _ st Hn). fold db.
  set (d0 := mkDb _ None false None None []).
  set (st1 := with_handles <[db := d0]> st).
  assert (H1 : handles st1 !! db = Some d0) by (unfold st1; simpl; by rewrite lookup_insert_eq).
  assert (Hexec : run (_exec drv JSON_stringify db type sql arg eo) st1
                  = (st1, inl (mkErr NotInTransaction ("Not executed in a transaction: " ++ sql)))).
  { unfold _exec. rewrite run_bind, (run_this _ _ _ H1). by simpl. }
  rewrite Hexec. cbn [and_finally]. rewrite run_await.
  unfold release. rewrite run_bind, run_await. simpl.
  repeat (progress (rewrite ?run_bind, ?run_ret, ?(run_this _ _ _ H1), ?run_update,
                      ?(update_id db d0 (with_begin false) st1 H1 eq_refl); simpl)).
  done.
Qed.

(** ** [close] *)

Lemma close_loop l st :
  exists st' r,
    run (for_of l (fun np : string * PoolId => await (pool_end drv np.2))) st = (st', r)
    /\ dbPools st' = dbPools st /\ handles st' = handles st
    /\ (pools_end drv ->
        r = inr tt
        /\ trace st' = (trace st ++ map (fun np => (PoolEnd np.2, Finished)) l)%list).
Proof.
  revert st. induction l as [| [n p] l IH]; intros st.
  { exists st, (inr tt). rewrite run_for_of_nil. simpl. by rewrite app_nil_r. }
  rewrite run_for_of_cons, run_await. unfold pool_end at 1. rewrite run_ask. cbn [snd].
  destruct (poolEnd drv p (world st)) as [w [e | []]] eqn:Ep; cbn [then_run fst snd reply_of].
  - eexists _, _. split; [reflexivity |]. split; [done |]. split; [done |].
    intros Hall. specialize (Hall p (world st)). by rewrite Ep in Hall.
  - destruct (IH (answered st w (PoolEnd p) Finished)) as (st' & r & Hrun & Hp & Hh & Hok).
    exists st', r. split; [done |]. split; [done |]. split; [done |].
    intros Hall. destruct (Hok Hall) as [-> Ht]. split; [done |].
    rewrite Ht. simpl. by rewrite <- app_assoc.
Qed.

(** X22: [close] asks every registered pool to end and then forgets them
    all; when a pool fails to end, the registry is left as it was, with the
    pools that have ended still in it.  In both cases the handles are left
    as they were: a handle keeps the connection that it has leased from a
    pool that has ended. *)
Theorem close_forgets_all_or_nothing st :
  let st' := (run (close drv) st).1 in
  handles st' = handles st
  /\ (forall e, (run (close drv) st).2 = inl e -> dbPools st' = dbPools st)
  /\ (pools_end drv ->
      (run (close drv) st).2 = inr tt
      /\ dbPools st' = ∅
      /\ exists evs,
           trace st' = (trace st ++ evs)%list
           /\ evs ≡ₚ map (fun np => (PoolEnd np.2, Finished)) (map_to_list (dbPools st))).
Proof.
  cbv zeta. unfold close. rewrite run_bind, run_gets. cbn [then_run]. rewrite run_bind.
  destruct (close_loop (map_to_list (dbPools st)) st) as (s1 & r & -> & Hp & Hh & Hok).
  destruct r as [e | []]; cbn [then_run fst snd].
  - split; [done |]. split; [done |]. intros Hall. by destruct (Hok Hall).
  - rewrite run_modify. cbn [fst snd]. split; [done |]. split; [done |].
    intros Hall. destruct (Hok Hall) as [_ Ht]. split; [done |]. split; [done |].
    eexists. split; [exact Ht | done].
Qed.

(** ** The lazy-init callback and [commit] that keeps the transaction *)

(** X23: the callback given to [setLazyInit] before the first use is run
    once the connection is leased, right after the lease; from the moment it
    is set, and all the more once the handle holds a connection,
    [setLazyInit] is refused and the callback stays. *)
Theorem lazy_init_runs_at_first_use h d cb cb' p st w1 c w2 :
  handles st !! h = Some d -> _conn d = None -> _lazyInit d = None -> _begin d = false ->
  dbPools st !! key_of (name (_options d)) = Some p ->
  getConnection drv p (world st) = (w1, inr c) ->
  lazyInit drv cb h w1 = (w2, inr tt) ->
  let st1 := with_handles (alter (with_lazyInit (Some cb)) h) st in
  run (setLazyInit h cb) st = (st1, inr tt)
  /\ run (setLazyInit h cb') st1
     = (st1, inl (mkErr SetTooLate "Set too late, init has been completed"))
  /\ exists s0,
       leased drv h st1 s0 c
       /\ trace s0 = (trace st ++ [(GetConnection p, Conn c); (LazyInit cb h, Finished)])%list
       /\ run (setLazyInit h cb') s0
          = (s0, inl (mkErr SetTooLate "Set too late, init has been completed")).
Proof.
  intros H Hc Hl Hb Hp Hgc Hcb st1.
  assert (H1 : handles st1 !! h = Some (with_lazyInit (Some cb) d)).
  { unfold st1. simpl. by rewrite lookup_alter_eq, H. }
  split; [| split].
  - unfold setLazyInit. rewrite run_bind, (run_this _ _ _ H). simpl. by rewrite Hl, Hc.
  - unfold setLazyInit. by rewrite run_bind, (run_this _ _ _ H1).
  - assert (Hrun : run (_init drv h) st1
                   = (answered (with_handles (alter (with_conn (Some c)) h)
                                  (answered st1 w1 (GetConnection p) (Conn c)))
                        w2 (LazyInit cb h) Finished, inr tt)).
    { rewrite (run_init_pooled h _ p st1 H1 Hc Hp).
      unfold pool_getConnection, call_lazyInit. rewrite run_ask. simpl. rewrite Hgc. simpl.
      rewrite Hb. simpl. rewrite run_ask. simpl. by rewrite Hcb. }
    eexists. split; [split |]; [| | split].
    + rewrite run_bind, (run_this _ _ _ H1). simpl. rewrite Hc.
      rewrite run_await. exact Hrun.
    + exists (with_conn (Some c) (with_lazyInit (Some cb) d)). split; [| done].
      simpl. by rewrite !lookup_alter_eq, H.
    + simpl. by rewrite <- app_assoc.
    + unfold setLazyInit. rewrite run_bind.
      erewrite run_this; [| simpl; by rewrite !lookup_alter_eq, H]. done.
Qed.

(** X24: [commit] with a true first argument, on a handle that holds a
    connection and has no bound handle, never changes the transaction flag.
    Where the driver accepts every command, it commits when the flag is up,
    begins a transaction on the connection in any case, and then runs the
    lazy-init callback when there is one and the second argument is true.
    On a handle whose flag is down the connection is thereby left in a
    transaction that the flag does not show. *)
Theorem commit_keeping_transaction depth h d c reinit st :
  commands_succeed drv ->
  handles st !! h = Some d -> _conn d = Some c -> _bind d = [] ->
  executing (_currentSql d) = None ->
  let st' := (run (commit drv (S depth) h true reinit) st).1 in
  handles st' = handles st
  /\ exists r,
       trace st'
       = (trace st
          ++ (if _begin d then [(Command Commit c, Finished)] else [])
          ++ [(Command BeginTransaction c, Finished)]
          ++ match _lazyInit d with
             | Some cb => if reinit then [(LazyInit cb h, r)] else []
             | None => []
             end)%list.
Proof.
  intros Hcmd H Hc Hb Hcur. cbv zeta. simpl.
  rewrite run_bind, (run_this _ _ _ H). simpl. rewrite Hcur, Hb.
  rewrite run_bind, run_for_of_nil. simpl. rewrite run_bind, (run_this _ _ _ H). simpl.
  rewrite Hc. rewrite run_bind.
  assert (Hgo : forall s : State W,
            handles s = handles st ->
            let s' := (run (c0 <- the_conn h ;;
                            await (conn_command drv BeginTransaction c0) ;;
                            d0 <- this h ;;
                            match _lazyInit d0 with
                            | Some cb => if reinit then await (call_lazyInit drv cb h) else ret tt
                            | None => ret tt
                            end) s).1 in
            handles s' = handles st
            /\ exists r,
                 trace s'
                 = (trace s ++ [(Command BeginTransaction c, Finished)]
                    ++ match _lazyInit d with
                       | Some cb => if reinit then [(LazyInit cb h, r)] else []
                       | None => []
                       end)%list).
  { intros s Hs. cbv zeta.
    assert (Hh : handles s !! h = Some d) by by rewrite Hs.
    rewrite run_bind, (run_the_conn _ _ c _ Hh Hc). simpl.
    rewrite run_bind, run_await, (run_command Hcmd). simpl.
    set (s2 := answered s _ _ _).
    assert (H2 : handles s2 !! h = Some d) by done.
    rewrite run_bind, (run_this _ _ _ H2). simpl.
    destruct (_lazyInit d) as [cb |]; [destruct reinit |].
    - rewrite run_await. unfold call_lazyInit. rewrite run_ask. simpl.
      split; [done |]. eexists. by rewrite <- app_assoc.
    - rewrite run_ret. simpl. split; [done |]. by exists Finished.
    - rewrite run_ret. simpl. split; [done |]. by exists Finished. }
  destruct (_begin d).
  - rewrite run_await, (run_command Hcmd). simpl.
    set (s1 := answered st _ _ _).
    destruct (Hgo s1 eq_refl) as [Hh [r Ht]]. cbv zeta in *.
    split; [done |]. exists r. rewrite Ht. simpl. by rewrite <- app_assoc.
  - rewrite run_ret. simpl. apply (Hgo st eq_refl).
Qed.
End Exec.


Lemma template_expansion_example_witness :
  sql_equiv expanded_statement spec_expansion = true
  /\ exists reply,
      trace (run (_exec demo_driver demo_stringify 0 TExecute separated_statement (VRef 0)
                    no_options) (demo_state fresh_db nested_heap)).1
      = [(GetConnection 3, Conn 8);
         (Statement TExecute 8 expanded_statement [VNum 0; VNum 1; VNum 2; VNum 3; VNum 4],
          reply)].
Proof.
  apply (template_expansion_example demo_driver demo_stringify 0 fresh_db 8 TExecute 0
           no_options (demo_state fresh_db nested_heap) (leased_state nested_heap)).
  - reflexivity.
  - split; reflexivity.
  - split; [vm_compute; reflexivity | exists leased_db; split; reflexivity].
  - right. exists 1, 2, 3. repeat split; reflexivity.
  - reflexivity.
  - reflexivity.
Defined.

(** C2, as stated, fails: in the statement of the specification nothing
    stands between the closing brace and the dots, the separator is empty
    and the two copies of the fragment follow each other without [OR]. *)
Lemma spec_statement_has_no_separator :
  trace (run (_exec demo_driver demo_stringify 0 TExecute spec_statement (VRef 0) no_options)
           (demo_state connected_db flat_heap)).1
  = [(Statement TExecute 7
        "SELECT * FROM t WHERE id = ? OR (id > ? AND a < ?)(id > ? AND a < ?)"
        [VNum 0; VNum 1; VNum 2; VNum 3; VNum 4],
      Responded (mkResponse (Rows []) []))]
  /\ sql_equiv "SELECT * FROM t WHERE id = ? OR (id > ? AND a < ?)(id > ? AND a < ?)"
       spec_expansion = false.
Proof. split; vm_compute; reflexivity. Qed.


(** The example of the specification, run: 2500 groups under a cap of 1000
    are three statements, of 1000, 1000 and 500 placeholders and values, the
    values in the order of the data, the last statement by [query]. *)
Example batches_2500_run :
  let out :=
    run (_exec demo_driver demo_stringify 0 TExecute "DELETE FROM t WHERE id IN ({?}, ...)"
           (VRef 0) (mkExecOptions false None (Some 1000)))
      (demo_state connected_db {[ 0 := [VRef 1]; 1 := map VNum (seq 0 2500) ]}) in
  out.2 = inr (RBatches [Rows []; Rows []; Rows []])
  /\ map (fun ev : Call * Reply =>
            match ev.1 with
            | Statement type c sql ps => Some (type, c, Str.count "?" sql, length ps, head ps)
            | _ => None
            end) (trace out.1)
     = [Some (TExecute, 7, 1000, 1000, Some (VNum 0));
        Some (TExecute, 7, 1000, 1000, Some (VNum 1000));
        Some (TQuery, 7, 500, 500, Some (VNum 2000))].
Proof. split; vm_compute; reflexivity. Qed.

Lemma queryOne_executeOne_rows_witness :
  run (queryOne echo_driver demo_stringify 0 "SELECT * FROM t WHERE id = ?" (VNum 5))
    (demo_state fresh_db ∅)
  = (cleared 0 (answered (marked 0 "SELECT * FROM t WHERE id = ?" (leased_state ∅)) 9
                  (Statement TQuery 8 "SELECT * FROM t WHERE id = ?" [VNum 5])
                  (Responded (mkResponse (Rows [[VNum 5]]) ["id"]))),
     inr (ORow [VNum 5])).
Proof.
  destruct (queryOne_executeOne_rows echo_driver demo_stringify 0 fresh_db 8
              "SELECT * FROM t WHERE id = ?" (VNum 5) (demo_state fresh_db ∅) (leased_state ∅)
              "SELECT * FROM t WHERE id = ?" [VNum 5]) as [Hq _].
  - reflexivity.
  - split; reflexivity.
  - split; [vm_compute; reflexivity | exists leased_db; split; reflexivity].
  - split; reflexivity.
  - exact (Hq 9 [[VNum 5]] ["id"] eq_refl).
Defined.

(** No row, and two rows. *)
Example queryOne_none_and_two :
  (run (queryOne echo_driver demo_stringify 0 "SELECT * FROM t" VUndef)
     (demo_state connected_db ∅)).2
  = inr OUndefined
  /\ (run (executeOne echo_driver demo_stringify 0 "SELECT * FROM t WHERE id IN (?, ?)" (VRef 0))
        (demo_state connected_db {[ 0 := [VNum 1; VNum 2] ]})).2
     = inl (mkErr MoreThanOneRecord "More than one record").
Proof. split; vm_compute; reflexivity. Qed.

(** C6, as stated, fails on a statement that is sent in batches.  An INSERT
    with a template returns the array of the results of its batches, and the
    length test of [executeOne] counts batches, not rows: with one batch the
    call returns the header of that batch, which is not an empty result;
    with two batches it fails with the too-many-rows error, although the
    driver has answered both with a header and no row. *)
Lemma executeOne_on_batches :
  (run (executeOne header_driver demo_stringify 0 one_column_insert (VRef 0))
     (demo_state connected_db three_heap)).2
  = inr (OFirst (Header 3))
  /\ (let out := run (executeOne header_driver demo_stringify 0 one_column_insert (VRef 0))
                   (demo_state connected_db over_cap_heap) in
      out.2 = inl (mkErr MoreThanOneRecord "More than one record")
      /\ map snd (trace out.1)
         = [Responded (mkResponse (Header 1000) []); Responded (mkResponse (Header 1) [])]).
Proof. split; [| split]; vm_compute; reflexivity. Qed.

Lemma failing_exec_truncates_params_witness :
  let st := demo_state connected_db eight_heap in
  let st' := (run (_exec demo_driver demo_stringify 0 TQuery "SELECT * FROM t WHERE id IN (?)"
                     (VRef 0) no_options) st).1 in
  (exists note, heap st' !! 1 = Some (take 5 eight_values ++ [VStr note])%list)
  /\ ((6 < length eight_values)%nat -> heap st' !! 1 <> heap st !! 1).
Proof.
  intros st st'.
  eapply (failing_exec_truncates_params demo_driver demo_stringify 0 connected_db TQuery
            "SELECT * FROM t WHERE id IN (?)" 0 [VRef 1] no_options st st' _ 0 1 eight_values).
  - reflexivity.
  - split; reflexivity.
  - reflexivity.
  - vm_compute. reflexivity.
  - lia.
  - reflexivity.
  - reflexivity.
  - vm_compute. lia.
Defined.

Example failing_exec_note :
  heap (run (_exec demo_driver demo_stringify 0 TQuery "SELECT * FROM t WHERE id IN (?)"
               (VRef 0) no_options) (demo_state connected_db eight_heap)).1 !! 1
  = Some [VNum 1; VNum 2; VNum 3; VNum 4; VNum 5; VStr "... 3 items ..."].
Proof. vm_compute. reflexivity. Qed.



Example release_trace :
  trace (run (release demo_driver 2 0) bound_state).1
  = [(Command Rollback 9, Finished); (Command Rollback 7, Finished);
     (Command Release 7, Finished)].
Proof. vm_compute. reflexivity. Qed.

(** ** Two calls at once, on the example driver *)

(** C3, where the code departs from it: on a handle before its first use, a
    second query made while the first is suspended is not refused; both are
    let in, both lease a connection, and both statements run. *)
Lemma second_query_during_first_use :
  let (st1, t1) :=
    query demo_driver demo_stringify 0 "SELECT 1" VUndef no_options first_use_state in
  let (st2, t2) := query demo_driver demo_stringify 0 "SELECT 2" VUndef no_options st1 in
  let (st3, ts) := event_loop 10 [t1; t2] st2 in
  finished t1 = None
  /\ finished t2 = None
  /\ finished <$> ts = [Some (inr (RFirst (Rows []))); Some (inr (RFirst (Rows [])))]
  /\ trace st3
     = [(GetConnection 3, Conn 8); (GetConnection 3, Conn 9);
        (Statement TQuery 9 "SELECT 1" [], Responded (mkResponse (Rows []) []));
        (Statement TQuery 9 "SELECT 2" [], Responded (mkResponse (Rows []) []))].
Proof. vm_compute. repeat split; reflexivity. Qed.

(** On a connected handle the same second query is refused. *)
Example second_query_connected :
  let (st1, t1) :=
    query demo_driver demo_stringify 0 "SELECT 1" VUndef no_options
      (demo_state connected_db ∅) in
  finished t1 = None
  /\ finished (query demo_driver demo_stringify 0 "SELECT 2" VUndef no_options st1).2
     = Some (inl (mkErr SqlIsExecuting "Sql is executing: SELECT 1")).
Proof. vm_compute. split; reflexivity. Qed.

(** C4, where the code departs from it: two handles of one name make their
    first query at once; each finds no pool and creates one, the second
    creation replaces the first in the registry, and each handle leases its
    connection from the pool it has created. *)
Lemma two_pools_for_one_name :
  let (st, ts) :=
    both 10 (query demo_driver demo_stringify 0 "SELECT 1" VUndef no_options)
      (query demo_driver demo_stringify 1 "SELECT 2" VUndef no_options) two_handles_state in
  finished <$> ts = [Some (inr (RFirst (Rows []))); Some (inr (RFirst (Rows [])))]
  /\ trace st
     = [(CreatePool (mkPoolOptions (VStr "app") []), Pool 8);
        (CreatePool (mkPoolOptions (VStr "app") []), Pool 9);
        (GetConnection 8, Conn 10); (GetConnection 9, Conn 11);
        (Statement TQuery 10 "SELECT 1" [], Responded (mkResponse (Rows []) []));
        (Statement TQuery 11 "SELECT 2" [], Responded (mkResponse (Rows []) []))]
  /\ dbPools st = {[ "main" := 9 ]}
  /\ (_conn <$> handles st !! 0) = Some (Some 10)
  /\ (_conn <$> handles st !! 1) = Some (Some 11).
Proof. vm_compute. repeat split; reflexivity. Qed.

(** One after the other, the two handles share one pool. *)
Example one_pool_in_sequence :
  let (st1, _) :=
    run (query demo_driver demo_stringify 0 "SELECT 1" VUndef no_options) two_handles_state in
  let (st2, _) := run (query demo_driver demo_stringify 1 "SELECT 2" VUndef no_options) st1 in
  map fst (trace st2)
  = [CreatePool (mkPoolOptions (VStr "app") []); GetConnection 8;
     Statement TQuery 9 "SELECT 1" []; GetConnection 8; Statement TQuery 10 "SELECT 2" []].
Proof. vm_compute. reflexivity. Qed.

(** ** The template and its expansion *)

(** X6: the default template is an opening brace, the fragment, a closing
    brace, the separator and three dots.  Where the fragment and the
    separator hold no dollar sign, the statement that is sent for [N] groups
    is the text of the caller with the template replaced by the fragment
    followed by [N - 1] times the separator and the fragment. *)
Theorem template_expansion_verbatim sql p0 p1 p2 N :
  Str.search Str.default_regexp sql = Some [p0; p1; p2] ->
  Str.count "$" p1 = 0 -> Str.count "$" p2 = 0 ->
  p0 = "{" ++ p1 ++ "}" ++ p2 ++ "..."
  /\ exists before after,
       sql = before ++ p0 ++ after
       /\ realSql_of sql p0 p1 p2 N
          = before ++ p1 ++ Str.repeatStr (p2 ++ p1) (N - 1) ++ after.
Proof.
  intros Hs H1 H2. destruct (search_render _ _ _ _ Hs) as [Hr (b0 & a0 & Hsql)].
  split.
  { simpl in Hr. by injection Hr as <-. }
  destruct (split_at_occurs p0 b0 a0) as [[b a] Hsplit]. rewrite <- Hsql in Hsplit.
  exists b, a. split; [by apply split_at_spec |].
  unfold realSql_of, Str.replace. rewrite Hsplit.
  rewrite substitution_plain; [by rewrite append_assoc |].
  rewrite count_append, count_repeatStr, count_append. lia.
Qed.

(** ** The further properties on the example drivers *)

Lemma plain_statement_sent_witness :
  run (_exec demo_driver demo_stringify 0 TQuery "SELECT * FROM t WHERE id = ?" (VNum 5)
         no_options) (demo_state fresh_db ∅)
  = (cleared 0 (answered (marked 0 "SELECT * FROM t WHERE id = ?" (leased_state ∅)) 9
                  (Statement TQuery 8 "SELECT * FROM t WHERE id = ?" [VNum 5])
                  (Responded (mkResponse (Rows []) []))),
     inr (RFirst (Rows []))).
Proof.
  apply (plain_statement_sent demo_driver demo_stringify 0 fresh_db 8 TQuery
           "SELECT * FROM t WHERE id = ?" (VNum 5) no_options (demo_state fresh_db ∅)
           (leased_state ∅) 9 (mkResponse (Rows []) [])).
  - reflexivity.
  - split; reflexivity.
  - split; [vm_compute; reflexivity | exists leased_db; split; reflexivity].
  - reflexivity.
  - reflexivity.
Defined.




Lemma lease_failure_masked_witness :
  (exists msg,
     run (_exec down_driver demo_stringify 0 TQuery "SELECT * FROM t WHERE id = ?" (VNum 5)
            no_options) (demo_state fresh_db ∅)
     = (cleared 0 (answered (demo_state fresh_db ∅) 8 (GetConnection 3)
                     (Failed (driver_error "connect ECONNREFUSED"))),
        inl (mkErr TypeError msg)))
  /\ run (_exec down_driver demo_stringify 0 TQuery "SELECT * FROM t WHERE id = ?" VUndef
            no_options) (demo_state fresh_db ∅)
     = (cleared 0 (answered (demo_state fresh_db ∅) 8 (GetConnection 3)
                     (Failed (driver_error "connect ECONNREFUSED"))),
        inl (mkErr DriverError
               ("connect ECONNREFUSED"
                ++ report_note demo_stringify ∅ "SELECT * FROM t WHERE id = ?" []))).
Proof.
  destruct (lease_failure_masked down_driver demo_stringify 0 fresh_db TQuery
              "SELECT * FROM t WHERE id = ?" (VNum 5) no_options (demo_state fresh_db ∅)
              (answered (demo_state fresh_db ∅) 8 (GetConnection 3)
                 (Failed (driver_error "connect ECONNREFUSED")))
              (driver_error "connect ECONNREFUSED")) as [Hmasked Hkept].
  - reflexivity.
  - split; reflexivity.
  - reflexivity.
  - vm_compute. reflexivity.
  - split; [apply Hmasked; reflexivity | exact Hkept].
Defined.

Lemma template_expansion_verbatim_witness :
  "{(?, ?)}, ..." = "{" ++ "(?, ?)" ++ "}" ++ ", " ++ "..."
  /\ exists before after,
       insert_statement = before ++ "{(?, ?)}, ..." ++ after
       /\ realSql_of insert_statement "{(?, ?)}, ..." "(?, ?)" ", " 3
          = before ++ "(?, ?)" ++ Str.repeatStr (", " ++ "(?, ?)") (3 - 1) ++ after.
Proof.
  apply (template_expansion_verbatim insert_statement "{(?, ?)}, ..." "(?, ?)" ", " 3).
  - reflexivity.
  - reflexivity.
  - reflexivity.
Defined.

Lemma batch_under_cap_witness :
  run (_exec demo_driver demo_stringify 0 TExecute insert_statement (VRef 0) no_options)
    (demo_state connected_db batch_heap)
  = (cleared 0 (answered (marked 0 insert_statement (demo_state connected_db batch_heap)) 8
                  (Statement TQuery 7
                     (realSql_of insert_statement "{(?, ?)}, ..." "(?, ?)" ", " 35)
                     batch_values)
                  (Responded (mkResponse (Rows []) []))),
     inr (RBatches [Rows []])).
Proof.
  apply (batch_under_cap demo_driver demo_stringify 0 connected_db 7 TExecute insert_statement
           (VRef 0) no_options (demo_state connected_db batch_heap)
           (demo_state connected_db batch_heap) 0 (VRef 1) batch_values
           "{(?, ?)}, ..." "(?, ?)" ", " 35 1000 8 (mkResponse (Rows []) [])).
  - reflexivity.
  - split; reflexivity.
  - split; [vm_compute; reflexivity | exists connected_db; split; reflexivity].
  - reflexivity.
  - reflexivity.
  - reflexivity.
  - reflexivity.
  - vm_compute. reflexivity.
  - reflexivity.
  - lia.
  - reflexivity.
Defined.

Lemma batch_of_all_groups_witness :
  run (_exec demo_driver demo_stringify 0 TExecute insert_statement (VRef 0) cap_0)
    (demo_state connected_db six_heap)
  = (cleared 0 (answered (marked 0 insert_statement (demo_state connected_db six_heap)) 8
                  (Statement TExecute 7
                     "INSERT INTO t (a, b) VALUES (?, ?), (?, ?), (?, ?)"
                     (map VNum (seq 0 6)))
                  (Responded (mkResponse (Rows []) []))),
     inr (RBatches [Rows []])).
Proof.
  apply (batch_of_all_groups demo_driver demo_stringify 0 connected_db 7 TExecute
           insert_statement (VRef 0) cap_0 (demo_state connected_db six_heap)
           (demo_state connected_db six_heap) 0 (VRef 1) (map VNum (seq 0 6))
           "{(?, ?)}, ..." "(?, ?)" ", " 3 8 (mkResponse (Rows []) [])).
  - reflexivity.
  - split; reflexivity.
  - split; [vm_compute; reflexivity | exists connected_db; split; reflexivity].
  - reflexivity.
  - reflexivity.
  - reflexivity.
  - reflexivity.
  - reflexivity.
  - lia.
  - left. reflexivity.
  - reflexivity.
Defined.


Lemma init_reuses_pool_witness :
  let st' := (run (_init demo_driver 0) (demo_state prepared_db ∅)).1 in
  dbPools st' = dbPools (demo_state prepared_db ∅)
  /\ exists r evs,
       trace st' = (trace (demo_state prepared_db ∅) ++ (GetConnection 3, r) :: evs)%list
       /\ Forall (fun ev : Call * Reply =>
                    (exists c, ev.1 = Command BeginTransaction c)
                    \/ (exists cb, ev.1 = LazyInit cb 0)) evs.
Proof.
  apply (init_reuses_pool demo_driver 0 prepared_db 3 (demo_state prepared_db ∅)).
  - reflexivity.
  - reflexivity.
  - reflexivity.
Defined.

Lemma init_registers_pool_witness :
  let st' := (run (_init demo_driver 0) two_handles_state).1 in
  dbPools st' = <["main" := 8]> (dbPools two_handles_state)
  /\ exists r evs,
       trace st'
       = (trace two_handles_state
          ++ (CreatePool (pool_options demo_options), Pool 8) :: (GetConnection 8, r) :: evs)%list.
Proof.
  apply (init_registers_pool demo_driver 0 fresh_db two_handles_state).
  - reflexivity.
  - reflexivity.
  - reflexivity.
Defined.

(** Under the name [__proto__] no pool is ever found: two handles used one
    after the other create a pool each, and the registry stays empty. *)
Example proto_name_never_registered :
  let (st1, _) :=
    run (query demo_driver demo_stringify 0 "SELECT 1" VUndef no_options) proto_state in
  let (st2, _) := run (query demo_driver demo_stringify 1 "SELECT 2" VUndef no_options) st1 in
  map fst (trace st2)
  = [CreatePool (mkPoolOptions (VStr "app") []); GetConnection 8;
     Statement TQuery 9 "SELECT 1" [];
     CreatePool (mkPoolOptions (VStr "app") []); GetConnection 10;
     Statement TQuery 11 "SELECT 2" []]
  /\ dbPools st2 = ∅.
Proof. vm_compute. split; reflexivity. Qed.

Lemma failed_first_use_keeps_connection_witness :
  exists st' e' d',
    run (_exec strict_driver demo_stringify 0 TQuery "SELECT 1" VUndef no_options)
      (demo_state prepared_db ∅) = (st', inl e')
    /\ handles st' !! 0 = Some d'
    /\ _conn d' = Some 8 /\ _begin d' = _begin prepared_db
    /\ _lazyInit d' = _lazyInit prepared_db
    /\ _currentSql d' = None.
Proof.
  eapply (failed_first_use_keeps_connection strict_driver demo_stringify 0 prepared_db 3 TQuery
            "SELECT 1" VUndef no_options (demo_state prepared_db ∅) 9 8 _
            (driver_error "SET NAMES refused")).
  - reflexivity.
  - split; reflexivity.
  - reflexivity.
  - reflexivity.
  - reflexivity.
  - vm_compute. reflexivity.
Defined.

Lemma transaction_begins_at_first_use_witness :
  let st1 := with_handles (alter (with_begin true) 0) (demo_state fresh_db ∅) in
  run (beginTransaction demo_driver 1 0) (demo_state fresh_db ∅) = (st1, inr tt)
  /\ exists s0,
       leased demo_driver 0 st1 s0 8
       /\ trace s0 = (trace (demo_state fresh_db ∅)
                      ++ [(GetConnection 3, Conn 8);
                          (Command BeginTransaction 8, Finished)])%list
       /\ world s0 = 9.
Proof.
  apply (transaction_begins_at_first_use demo_driver 0 0 fresh_db 3 (demo_state fresh_db ∅)
           9 8 9).
  - reflexivity.
  - reflexivity.
  - reflexivity.
  - reflexivity.
  - reflexivity.
  - reflexivity.
  - reflexivity.
Defined.

Lemma exec_only_statements_witness :
  let st' := (run (_exec demo_driver demo_stringify 0 TExecute insert_statement (VRef 0) cap_2)
                (demo_state connected_db six_heap)).1 in
  (exists d', handles st' !! 0 = Some d' /\ _conn d' = Some 7)
  /\ dbPools st' = dbPools (demo_state connected_db six_heap)
  /\ exists evs,
       trace st' = (trace (demo_state connected_db six_heap) ++ evs)%list
       /\ Forall (statement_on 7) evs.
Proof.
  apply (exec_only_statements demo_driver demo_stringify 0 connected_db 7 TExecute
           insert_statement (VRef 0) cap_2 (demo_state connected_db six_heap)).
  - reflexivity.
  - reflexivity.
Defined.

Lemma bind_then_unbind_witness :
  exists st1 d1,
    run (bind_db demo_driver 2 0 1) pair_state = (st1, inr true)
    /\ handles st1 !! 0 = Some d1
    /\ _bind d1 = [1]
    /\ run (unbind 0 1) st1 = (with_handles (alter (with_bind []) 0) st1, inr true).
Proof.
  set (x := run (bind_db demo_driver 2 0 1) pair_state).
  destruct (bind_then_unbind demo_driver 2 0 1 leader_db pair_state x.1) as (d1 & H1 & Hb & Hu).
  - reflexivity.
  - vm_compute. by intros ?%elem_of_nil.
  - vm_compute. reflexivity.
  - exists x.1, d1. split; [vm_compute; reflexivity | done].
Defined.

Lemma bound_handles_are_a_set_witness :
  (forall st1 r,
     run (bind_db demo_driver 2 0 1) bound_state = (st1, inr r) ->
     (r = false <-> 1 ∈ _bind transacting_db)
     /\ exists d1, handles st1 !! 0 = Some d1 /\ NoDup (_bind d1) /\ 1 ∈ _bind d1)
  /\ exists st1 d1,
       run (unbind 0 1) bound_state = (st1, inr (bool_decide (1 ∈ _bind transacting_db)))
       /\ handles st1 !! 0 = Some d1
       /\ NoDup (_bind d1) /\ (1 ∉ _bind d1)
       /\ (forall x, x <> 1 -> (x ∈ _bind d1 <-> x ∈ _bind transacting_db)).
Proof.
  apply (bound_handles_are_a_set demo_driver 2 0 1 transacting_db bound_state).
  - reflexivity.
  - apply NoDup_singleton.
Defined.

Lemma bound_handles_follow_witness :
  (forall st', run (beginTransaction demo_driver 2 0) bound_state = (st', inr tt) ->
     forall x, in_reach 0 transacting_db x -> flag_is st' x true)
  /\ (forall reinit st', run (commit demo_driver 2 0 false reinit) bound_state = (st', inr tt) ->
        forall x, in_reach 0 transacting_db x -> flag_is st' x false)
  /\ (forall st', run (rollback demo_driver 2 0) bound_state = (st', inr tt) ->
        forall x, in_reach 0 transacting_db x -> flag_is st' x false).
Proof.
  apply (bound_handles_follow demo_driver 2 0 transacting_db bound_state).
  reflexivity.
Defined.

Lemma demo_commands : commands_succeed demo_driver.
Proof. intros cmd c w. reflexivity. Qed.


Lemma static_transaction_on_a_fresh_handle_witness :
  let db := fresh (dom (handles first_use_state)) in
  exists st',
    run (static_transaction demo_driver 1 demo_update demo_options) first_use_state
    = (st', inr (RFirst (Rows [])))
    /\ at_rest st' db
    /\ trace st'
       = [(GetConnection 3, Conn 8);
          (Command BeginTransaction 8, Finished);
          (Statement TExecute 8 "UPDATE t SET a = 1" [], Responded (mkResponse (Rows []) []));
          (Command Commit 8, Finished);
          (Command Release 8, Finished)].
Proof.
  intros db.
  set (st1 := with_handles <[db := mkDb demo_options None true None None []]> first_use_state).
  set (x := run (demo_update db) st1).
  pose proof (static_transaction_on_a_fresh_handle demo_driver demo_commands 0 demo_options
                demo_update first_use_state) as Hw.
  cbv zeta in Hw. change (is_string (name demo_options)) with true in Hw. cbv iota in Hw.
  destruct (Hw x.1 x.2 (mkDb demo_options (Some 8) true None None []))
    as (st' & Hrun & Hrest & Ht).
  - apply surjective_pairing.
  - vm_compute. reflexivity.
  - reflexivity.
  - reflexivity.
  - exists st'. split; [| split; [done |]].
    + rewrite Hrun. f_equal.
    + rewrite Ht. vm_compute. reflexivity.
Defined.


Lemma safeCall_refuses_outside_transaction_witness :
  let db := fresh (dom (handles first_use_state)) in
  run (safeCall demo_driver 1
         (fun db => _exec demo_driver demo_stringify db TExecute "UPDATE t SET a = 1" VUndef
                      no_options)
         demo_options (Some true)) first_use_state
  = (with_handles
       <[db := mkDb (safe_options demo_options (Some true)) None false None None []]>
       first_use_state,
     inl (mkErr NotInTransaction ("Not executed in a transaction: " ++ "UPDATE t SET a = 1"))).
Proof.
  apply (safeCall_refuses_outside_transaction demo_driver demo_stringify 0 demo_options TExecute
           "UPDATE t SET a = 1" VUndef no_options first_use_state).
  reflexivity.
Defined.

Lemma lazy_init_runs_at_first_use_witness :
  let st1 := with_handles (alter (with_lazyInit (Some 4)) 0) (demo_state fresh_db ∅) in
  run (setLazyInit 0 4) (demo_state fresh_db ∅) = (st1, inr tt)
  /\ run (setLazyInit 0 5) st1
     = (st1, inl (mkErr SetTooLate "Set too late, init has been completed"))
  /\ exists s0,
       leased demo_driver 0 st1 s0 8
       /\ trace s0 = (trace (demo_state fresh_db ∅)
                      ++ [(GetConnection 3, Conn 8); (LazyInit 4 0, Finished)])%list
       /\ run (setLazyInit 0 5) s0
          = (s0, inl (mkErr SetTooLate "Set too late, init has been completed")).
Proof.
  apply (lazy_init_runs_at_first_use demo_driver 0 fresh_db 4 5 3 (demo_state fresh_db ∅) 9 8 9).
  - reflexivity.
  - reflexivity.
  - reflexivity.
  - reflexivity.
  - reflexivity.
  - reflexivity.
  - reflexivity.
Defined.

Lemma commit_keeping_transaction_witness :
  let st' := (run (commit demo_driver 1 0 true true) (demo_state connected_db ∅)).1 in
  handles st' = handles (demo_state connected_db ∅)
  /\ exists r,
       trace st'
       = (trace (demo_state connected_db ∅)
          ++ (if _begin connected_db then [(Command Commit 7, Finished)] else [])
          ++ [(Command BeginTransaction 7, Finished)]
          ++ match _lazyInit connected_db with
             | Some cb => if true then [(LazyInit cb 0, r)] else []
             | None => []
             end)%list.
Proof.
  apply (commit_keeping_transaction demo_driver 0 0 connected_db 7 true
           (demo_state connected_db ∅)).
  - apply demo_commands.
  - reflexivity.
  - reflexivity.
  - reflexivity.
  - reflexivity.
Defined.

(** [close] on the example driver, and the pool that the next first use
    creates. *)
Example close_then_first_use :
  dbPools (run (close demo_driver) first_use_state).1 = ∅
  /\ trace (run (close demo_driver ;; _init demo_driver 0) first_use_state).1
     = [(PoolEnd 3, Finished);
        (CreatePool (pool_options demo_options), Pool 8);
        (GetConnection 8, Conn 9)].
Proof. split; vm_compute; reflexivity. Qed.

(** The pools are ended in the order of their names in the object: the
    names that are array indices first, in ascending order, then the others
    in the order of their first use. *)
Example close_in_the_order_of_the_names :
  let pools : Pools := <["2" := 5]> (<["a" := 4]> (<["10" := 3]> (<["b" := 2]> ∅))) in
  map_to_list pools = [("2", 5); ("10", 3); ("b", 2); ("a", 4)]
  /\ map fst (trace (run (close demo_driver) (mkState 8 [] pools ∅ ∅)).1)
     = [PoolEnd 5; PoolEnd 3; PoolEnd 2; PoolEnd 4]
  /\ array_index "10" = Some 10%N
  /\ array_index "010" = None
  /\ array_index "4294967295" = None.
Proof. repeat split; vm_compute; reflexivity. Qed.

(** * The server *)

Section ServerProperties.
Import Server.

Lemma play_unstarted ops app :
  _callback app = None ->
  exists app',
    play ops app = (app', inr tt)
    /\ _callback app' = None /\ koa app' = koa app
    /\ http app' = http app /\ https app' = https app
    /\ _middlewares app' = (rev (used_before ops) ++ _middlewares app ++ used ops)%list.
Proof.
  revert app. induction ops as [| op ops IH]; intros app Hcb.
  { exists app. simpl. by rewrite app_nil_r. }
  assert (Hstep : exists app1,
            call op app = (app1, inr tt)
            /\ _callback app1 = None /\ koa app1 = koa app
            /\ http app1 = http app /\ https app1 = https app
            /\ _middlewares app1
               = (rev (used_before [op]) ++ _middlewares app ++ used [op])%list).
  { destruct op as [m | m | m]; simpl;
      unfold use, useBefore, actionUse, checkServerStart; rewrite Hcb;
      eexists; (split; [reflexivity |]); simpl; by rewrite ?app_nil_r. }
  destruct Hstep as (app1 & Hcall & Hcb1 & Hk1 & Hh1 & Hs1 & Hm1).
  destruct (IH app1 Hcb1) as (app' & Hplay & Hcb' & Hk' & Hh' & Hs' & Hm').
  exists app'. simpl. rewrite Hcall. split; [done |]. split; [done |].
  split; [congruence |]. split; [congruence |]. split; [congruence |].
  rewrite Hm', Hm1. unfold used, used_before. simpl.
  change (flat_map _ ops) with (used_before ops) at 1.
  change (flat_map (fun op0 => match op0 with OUse m => [m] | _ => [] end) ops)
    with (used ops).
  destruct op as [m | m | m]; simpl; rewrite ?app_nil_r, ?rev_app_distr, ?rev_unit;
    simpl; by rewrite <- ?app_assoc.
Qed.

(** X25: the middlewares reach Koa in this order, whatever calls the
    application makes before the server starts: those given to [useBefore],
    the last given first, then the body parser, then those given to [use] in
    the order of the calls, then the batch-call middleware of the
    controller.  That middleware is always made without an argument: the
    middlewares given to [actionUse] are never composed into it. *)
Theorem middlewares_reach_koa_in_order ops :
  exists app app',
    play ops constructor = (app, inr tt)
    /\ registerMiddlewares app = (app', inr tt)
    /\ koa app'
       = [Compose (rev (used_before ops) ++ Bodyparser :: used ops ++ [BatchCall None])]
    /\ _callback app' = Some (mkCallback (koa app')).
Proof.
  destruct (play_unstarted ops constructor eq_refl) as (app & Hplay & Hcb & Hk & _ & _ & Hm).
  exists app. eexists. split; [done |].
  unfold registerMiddlewares. unfold array_property.
  change (String.eqb "lenght" "length") with false. cbn [greater_than_zero].
  unfold use, checkServerStart. rewrite Hcb. cbn.
  split; [reflexivity |]. rewrite Hk, Hm. cbn. split; [| done].
  by rewrite <- !app_assoc.
Qed.

(** X26: once [runHttp] has been called the server has started: [use],
    [useBefore] and [actionUse] throw and change nothing.  As they call
    [checkServerStart] without its argument, what they throw is the type
    error of reading a property of [undefined], not the error that names
    the middleware. *)
Theorem started_server_refuses_middlewares port app m :
  let app' := (runHttp port app).1 in
  exists msg,
    use m app' = (app', inl (TypeErr msg))
    /\ useBefore m app' = (app', inl (TypeErr msg))
    /\ actionUse m app' = (app', inl (TypeErr msg))
    /\ (registerMiddlewares app').1 = app'.
Proof.
  cbv zeta.
  assert (Hcb : exists cb, _callback (runHttp port app).1 = Some cb).
  { unfold runHttp. destruct (_callback app) as [cb |] eqn:E.
    - exists cb. by cbn.
    - unfold registerMiddlewares, array_property.
      change (String.eqb "lenght" "length") with false. cbn [greater_than_zero].
      unfold use, checkServerStart. rewrite E. cbn. by eexists. }
  destruct Hcb as [cb Hcb]. eexists.
  unfold use, useBefore, actionUse, registerMiddlewares, array_property, checkServerStart.
  rewrite Hcb. change (String.eqb "lenght" "length") with false. cbn [greater_than_zero].
  unfold use, checkServerStart. rewrite Hcb. by cbn.
Qed.

(** X27: [runHttp] and [runHttps] register the middlewares once, whichever
    is called first and however often: after [runHttp] Koa holds one
    composition more, and a [runHttps] that follows adds none, keeps the
    callback and, when it returns, serves the callback that the http server
    serves. *)
Theorem middlewares_registered_once readFileSync port cfg app :
  _callback app = None ->
  let app1 := (runHttp port app).1 in
  let app2 := (runHttps readFileSync cfg app1).1 in
  koa app1 = (koa app ++ [Compose (_middlewares app ++ [BatchCall None])])%list
  /\ koa app2 = koa app1
  /\ _callback app2 = _callback app1
  /\ (http_callback <$> http app2) = Some (_callback app1)
  /\ ((runHttps readFileSync cfg app1).2 = inr tt ->
      (https_callback <$> https app2) = Some (_callback app1)).
Proof.
  intros Hcb. cbv zeta.
  assert (H1 : runHttp port app
               = (let app0 := with_koa (koa app ++ [Compose (_middlewares app ++ [BatchCall None])])
                                (with_middlewares (_middlewares app ++ [BatchCall None]) app) in
                  let cb := Some (mkCallback (koa app0)) in
                  (with_http (Some (mkHttp cb port)) (with_callback cb app0), inr tt))).
  { unfold runHttp. rewrite Hcb.
    unfold registerMiddlewares, array_property.
    change (String.eqb "lenght" "length") with false. cbn [greater_than_zero].
    unfold use, checkServerStart. rewrite Hcb. by cbn. }
  rewrite H1. cbn -[runHttps]. split; [done |].
  unfold runHttps. cbn.
  destruct (truthy (keyFilename cfg) && truthy (certFilename cfg)); [| by cbn].
  destruct (readFileSync (keyFilename cfg)); [by cbn |].
  destruct (readFileSync (certFilename cfg)); by cbn.
Qed.
End ServerProperties.

Lemma middlewares_registered_once_witness :
  let app1 := (Server.runHttp (VNum 80) Server.constructor).1 in
  let app2 := (Server.runHttps (fun _ => inr "pem")
                 (Server.mkHttpsConfig (VStr "key.pem") (VStr "cert.pem") (VNum 443)) app1).1 in
  Server.koa app1
  = (Server.koa Server.constructor
     ++ [Server.Compose (Server._middlewares Server.constructor
                         ++ [Server.BatchCall None])])%list
  /\ Server.koa app2 = Server.koa app1
  /\ Server._callback app2 = Server._callback app1
  /\ (Server.http_callback <$> Server.http app2) = Some (Server._callback app1)
  /\ ((Server.runHttps (fun _ => inr "pem")
         (Server.mkHttpsConfig (VStr "key.pem") (VStr "cert.pem") (VNum 443)) app1).2 = inr tt ->
      (Server.https_callback <$> Server.https app2) = Some (Server._callback app1)).
Proof.
  apply (middlewares_registered_once (fun _ => inr "pem") (VNum 80)
           (Server.mkHttpsConfig (VStr "key.pem") (VStr "cert.pem") (VNum 443))
           Server.constructor).
  reflexivity.
Defined.

(** The middlewares of an application that calls [use], [useBefore] and
    [actionUse]. *)
Example middlewares_example :
  Server.koa (Server.registerMiddlewares
                (Server.play [Server.OUse (Server.Given 1); Server.OActionUse (Server.Given 2);
                              Server.OUseBefore (Server.Given 3);
                              Server.OUseBefore (Server.Given 4)]
                   Server.constructor).1).1
  = [Server.Compose [Server.Given 4; Server.Given 3; Server.Bodyparser; Server.Given 1;
                     Server.BatchCall None]].
Proof. reflexivity. Qed.

(** * The models *)

Section ModleProperties.
Import Modle.
Variable fs : Fs.
Variable path_join : string -> string -> string.
Variable path_basename : string -> string -> string.

Lemma load_files_outcome dir modlePath files data :
  loads_well fs path_join dir files ->
  if existsb (is_subdirectory fs path_join dir) files
  then exists data' msg,
         load_files fs path_join path_basename dir modlePath files data
         = (data', inl (TypeErr msg))
  else exists data',
         load_files fs path_join path_basename dir modlePath files data = (data', inr tt).
Proof.
  revert data. induction files as [| file files IH]; intros data Hw.
  { simpl. by eexists. }
  assert (Hw' : loads_well fs path_join dir files).
  { intros f Hf. apply Hw. by apply elem_of_cons; right. }
  destruct (Hw file (list_elem_of_here _ _)) as [[stat Hstat] Hreq].
  cbn [existsb load_files]. unfold is_subdirectory at 1. unfold is_model in *.
  rewrite Hstat in *.
  destruct (endsWith file ".js" && isFile stat) eqn:Em.
  - destruct (Hreq eq_refl) as (exported & -> & Hne).
    assert (Hext : extends exported = inr (Extends exported)) by by destruct exported.
    rewrite Hext. cbn [negb andb orb]. apply IH, Hw'.
  - cbn [negb andb]. destruct (isDirectory stat).
    + cbn [orb]. by eexists _, _.
    + cbn [orb]. apply IH, Hw'.
Qed.

Lemma load_files_keys dir modlePath files data data' :
  load_files fs path_join path_basename dir modlePath files data = (data', inr tt) ->
  dom data'
  = dom data
    ∪ list_to_set (map (model_key path_join path_basename dir modlePath)
                     (filter (fun f => is_model fs path_join dir f = true) files))
  /\ forall file, file ∈ files -> is_subdirectory fs path_join dir file = false.
Proof.
  revert data. induction files as [| file files IH]; intros data.
  { simpl. intros [= <-]. split; [by rewrite (right_id_L ∅ (∪)) | by intros f ?%elem_of_nil]. }
  cbn [load_files].
  destruct (statSync fs (path_join dir file)) as [e | stat] eqn:Hstat; [done |].
  destruct (endsWith file ".js" && isFile stat) eqn:Em.
  - destruct (require fs (path_join dir file)) as [e | exported]; [done |].
    destruct (extends exported) as [e | cls]; [done |].
    intros Hrun. destruct (IH _ Hrun) as [Hdom Hsub].
    assert (Him : is_model fs path_join dir file = true) by (unfold is_model; by rewrite Hstat).
    split.
    + rewrite Hdom, dom_insert_L, filter_cons_True by done. cbn [map list_to_set].
      unfold model_key at 2.
      by rewrite (comm_L (∪) _ (dom data)), <- (assoc_L (∪)).
    + intros f [-> | Hf]%elem_of_cons; [| by apply Hsub].
      unfold is_subdirectory. by rewrite Him.
  - assert (Him : is_model fs path_join dir file = false) by (unfold is_model; by rewrite Hstat).
    destruct (isDirectory stat) eqn:Ed; [done |].
    intros Hrun. destruct (IH _ Hrun) as [Hdom Hsub]. split.
    + rewrite Hdom, filter_cons_False; [done |]. by rewrite Him.
    + intros f [-> | Hf]%elem_of_cons; [| by apply Hsub].
      unfold is_subdirectory. rewrite Him, Hstat, Ed. done.
Qed.

Lemma endsWith_slash a : endsWith (a ++ "/") "/" = true.
Proof.
  induction a as [| c a IH]; [done |].
  rewrite append_cons. cbn [endsWith]. rewrite IH. apply orb_true_r.
Qed.

(** X28: [loadModle] does not go down into a sub-directory: it calls
    [loadModule], which the module does not have.  In a directory where
    nothing else fails, loading fails with a type error as soon as one
    entry is a directory, and succeeds otherwise; with a sub-directory in
    the directory of the models, [creatModle] fails on every call and the
    models are never kept. *)
Theorem subdirectory_stops_loading construct modle_dir database files ctrl name :
  readdirSync fs modle_dir = inr files ->
  loads_well fs path_join modle_dir files ->
  if existsb (is_subdirectory fs path_join modle_dir) files
  then
    (forall modlePath data, exists data' msg,
        loadModle fs path_join path_basename modle_dir modlePath data
        = (data', inl (TypeErr msg)))
    /\ exists msg,
         creatModle fs path_join path_basename construct modle_dir database ctrl name None
         = (None, inl (TypeErr msg))
  else
    forall modlePath data, exists data',
      loadModle fs path_join path_basename modle_dir modlePath data = (data', inr tt).
Proof.
  intros Hdir Hw.
  pose proof (fun mp data => load_files_outcome modle_dir mp files data Hw) as Hload.
  unfold creatModle, loadModle. rewrite Hdir.
  destruct (existsb (is_subdirectory fs path_join modle_dir) files).
  - split; [done |].
    destruct (Hload EmptyString ∅) as (data' & msg & ->). by exists msg.
  - done.
Qed.

(** X29: when [loadModle] returns, the object that it returns holds, beside
    what it held, one entry for every regular file of the directory whose
    name ends in [.js]: its key is the path of the models so far, the base
    name of the file without [.js], and a slash.  The other entries of the
    directory are passed over, and none of them is a directory. *)
Theorem loaded_models_are_the_js_files dir modlePath data data' files :
  readdirSync fs dir = inr files ->
  loadModle fs path_join path_basename dir modlePath data = (data', inr tt) ->
  dom data'
  = dom data
    ∪ list_to_set (map (model_key path_join path_basename dir modlePath)
                     (filter (fun f => is_model fs path_join dir f = true) files))
  /\ forall file, file ∈ files -> is_subdirectory fs path_join dir file = false.
Proof.
  intros Hdir. unfold loadModle. rewrite Hdir. apply load_files_keys.
Qed.

(** X30: the keys of the models end in a slash.  On the first call of
    [creatModle], a name that does not end in a slash never yields a model
    of the directory: the call throws, or, for the name [constructor],
    returns the controller or an empty object. *)
Theorem model_names_end_with_a_slash construct modle_dir database ctrl name :
  endsWith name "/" = false ->
  forall cache cls fields,
    creatModle fs path_join path_basename construct modle_dir database ctrl name None
    <> (cache, inr (MInstance cls fields)).
Proof.
  intros Hname cache cls fields. unfold creatModle.
  destruct (loadModle fs path_join path_basename modle_dir EmptyString ∅)
    as [data [e | []]] eqn:Hload; [done |].
  assert (Hnone : data !! name = None).
  { unfold loadModle in Hload.
    destruct (readdirSync fs modle_dir) as [e | files]; [done |].
    destruct (load_files_keys _ _ _ _ _ Hload) as [Hdom _].
    apply not_elem_of_dom. rewrite Hdom, dom_empty_L.
    intros [Hin | Hin]%elem_of_union; [by apply not_elem_of_empty in Hin |]. apply elem_of_list_to_set, list_elem_of_fmap in Hin as (f & -> & _).
    unfold model_key in Hname. rewrite append_nil_l in Hname.
    by rewrite endsWith_slash in Hname. }
  unfold new_named. rewrite Hnone.
  destruct (String.eqb name "constructor"); [by destruct ctrl | done].
Qed.
End ModleProperties.

Lemma subdirectory_stops_loading_witness :
  (forall modlePath data, exists data' msg,
      Modle.loadModle nested_fs demo_join demo_basename "models" modlePath data
      = (data', inl (Modle.TypeErr msg)))
  /\ exists msg,
       Modle.creatModle nested_fs demo_join demo_basename (fun _ => inr ∅) "models"
         [VStr "main"] (Some {[ "main" := VObj 1 ]}) "user/" None
       = (None, inl (Modle.TypeErr msg)).
Proof.
  apply (subdirectory_stops_loading nested_fs demo_join demo_basename (fun _ => inr ∅) "models"
           [VStr "main"] ["user.js"; "admin"] (Some {[ "main" := VObj 1 ]}) "user/").
  - reflexivity.
  - intros file Hf. split; [by eexists |]. intros _. exists (Modle.EClass 1). by split.
Defined.

Lemma loaded_models_are_the_js_files_witness :
  dom (Modle.loadModle flat_fs demo_join demo_basename "models" EmptyString ∅).1
  = dom (∅ : gmap string Modle.Model)
    ∪ list_to_set (map (Modle.model_key demo_join demo_basename "models" EmptyString)
                     (filter (fun f => Modle.is_model flat_fs demo_join "models" f = true)
                        ["user.js"; "notes.md"; "order.js"]))
  /\ forall file, file ∈ ["user.js"; "notes.md"; "order.js"] ->
       Modle.is_subdirectory flat_fs demo_join "models" file = false.
Proof.
  apply (loaded_models_are_the_js_files flat_fs demo_join demo_basename "models" EmptyString ∅
           (Modle.loadModle flat_fs demo_join demo_basename "models" EmptyString ∅).1
           ["user.js"; "notes.md"; "order.js"]).
  - reflexivity.
  - vm_compute. reflexivity.
Defined.

Lemma model_names_end_with_a_slash_witness :
  Modle.endsWith "user" "/" = false
  /\ forall cache cls fields,
       Modle.creatModle flat_fs demo_join demo_basename (fun _ => inr ∅) "models" [VStr "main"]
         (Some {[ "main" := VObj 1 ]}) "user" None
       <> (cache, inr (Modle.MInstance cls fields)).
Proof.
  split; [reflexivity |].
  apply (model_names_end_with_a_slash flat_fs demo_join demo_basename (fun _ => inr ∅) "models"
           [VStr "main"] (Some {[ "main" := VObj 1 ]}) "user").
  reflexivity.
Defined.

(** The model of the example by its key, with the handle of the controller. *)
Example creatModle_example :
  Modle.creatModle flat_fs demo_join demo_basename (fun _ => inr ∅) "models" [VStr "main"]
    (Some {[ "main" := VObj 1 ]}) "user/" None
  = (Some {[ "user/" := Modle.Extends (Modle.EClass 1);
             "order/" := Modle.Extends (Modle.EClass 1) ]},
     inr (Modle.MInstance (Modle.Extends (Modle.EClass 1)) {[ "main" := VObj 1 ]})).
Proof. vm_compute. reflexivity. Qed.
